(** * Knowledge graph engine (KnowledgeGraph.ts): shallow embedding and properties

    The TypeScript class [KnowledgeGraph] keeps two insertion-ordered
    [Map]s (nodes and edges) and a bounded metrics history.  JavaScript
    numbers are IEEE 754 binary64 values, so they are modelled by Rocq's
    primitive floats; integer-valued quantities ([Map.size], [Date.now()])
    are modelled in [Z].  Strings are [string]s whose characters stand for
    UTF-16 code units.  The results of the host calls
    ([crypto.randomUUID], [Date.now], [Math.random], the embedding
    pipeline, [localStorage.setItem]) are supplied by a [Host] record. *)

From Stdlib Require Import Floats ZArith List String Ascii Bool Lia PeanoNat.
From Stdlib Require Import DecimalString Permutation Sorted.
From Stdlib Require Uint63.
Import ListNotations.

Set Warnings "-inexact-float".

(** ** JavaScript primitives used by the engine *)

Module JS.

(** [ToBoolean] on a number: [+0], [-0] and [NaN] are falsy. *)
Definition truthy_number (x : float) : bool :=
  negb (PrimFloat.is_zero x || PrimFloat.is_nan x).

(** [ToBoolean] on a string: only the empty string is falsy. *)
Definition truthy_string (s : string) : bool :=
  match s with EmptyString => false | String _ _ => true end.

(** [x || d] for an optional number [x]. *)
Definition number_or (x : option float) (d : float) : float :=
  match x with
  | Some v => if truthy_number v then v else d
  | None => d
  end.

(** [s || d] for an optional string [s]. *)
Definition string_or (s : option string) (d : string) : string :=
  match s with
  | Some v => if truthy_string v then v else d
  | None => d
  end.

(** [Math.max(a, b)]: [NaN] if either argument is; [+0] is larger than [-0]. *)
Definition Math_max (a b : float) : float :=
  if PrimFloat.is_nan a || PrimFloat.is_nan b then PrimFloat.nan
  else if PrimFloat.ltb a b then b
  else if PrimFloat.ltb b a then a
  else match PrimFloat.classify a with NZero => b | _ => a end.

(** [Math.min(a, b)]: [NaN] if either argument is; [-0] is smaller than [+0]. *)
Definition Math_min (a b : float) : float :=
  if PrimFloat.is_nan a || PrimFloat.is_nan b then PrimFloat.nan
  else if PrimFloat.ltb a b then a
  else if PrimFloat.ltb b a then b
  else match PrimFloat.classify a with PZero => b | _ => a end.

(** The number holding the integer [z] (round to nearest even; exact
    below 2^53). *)
Definition of_Z (z : Z) : float :=
  SF2Prim (binary_normalize prec emax z 0 false).

(** [b[i]] read as a number: an index past the end yields [undefined],
    which arithmetic turns into [NaN]. *)
Definition index_number (b : list float) (i : nat) : float :=
  nth i b PrimFloat.nan.

(** [a.reduce((acc, val, i) => f(acc, val, i), init)], with the index of
    the first element given explicitly. *)
Fixpoint reduce_from {A B : Type} (f : B -> A -> nat -> B)
         (a : list A) (i : nat) (acc : B) : B :=
  match a with
  | [] => acc
  | val :: a' => reduce_from f a' (S i) (f acc val i)
  end.

Definition reduce {A B : Type} (f : B -> A -> nat -> B) (a : list A) (init : B) : B :=
  reduce_from f a 0 init.

(** [Array.from(new Set(l))] on strings: first occurrences, in order. *)
Definition Set_add (acc : list string) (x : string) : list string :=
  if existsb (String.eqb x) acc then acc else acc ++ [x].

Definition Set_from (l : list string) : list string :=
  fold_left Set_add l [].

(** [s.toLowerCase()], on the ASCII letters (the keyword table below is
    ASCII; other code units are left as they are). *)
Definition lower_ascii (c : ascii) : ascii :=
  let n := nat_of_ascii c in
  if (65 <=? n)%nat && (n <=? 90)%nat then ascii_of_nat (n + 32) else c.

Fixpoint toLowerCase (s : string) : string :=
  match s with
  | EmptyString => EmptyString
  | String c s' => String (lower_ascii c) (toLowerCase s')
  end.

(** [s.includes(k)]. *)
Definition includes (s k : string) : bool :=
  match String.index 0 k s with Some _ => true | None => false end.

(** The character class [[.!?]]. *)
Definition is_terminator (c : ascii) : bool :=
  Ascii.eqb c "."%char || Ascii.eqb c "!"%char || Ascii.eqb c "?"%char.

(** [s.split(/[.!?]+/)]: the pieces between maximal runs of terminators.
    [in_run] tells that the previous character belonged to a run, whose
    piece has already been closed.  The result is never empty: the piece
    under construction is its head. *)
Fixpoint split_from (s : string) (in_run : bool) : list string :=
  match s with
  | EmptyString => [EmptyString]
  | String c s' =>
      if is_terminator c then
        if in_run then split_from s' true
        else EmptyString :: split_from s' true
      else
        match split_from s' false with
        | piece :: pieces => String c piece :: pieces
        | [] => [String c EmptyString]
        end
  end.

Definition split_sentences (s : string) : list string := split_from s false.

(** An insertion-ordered [Map] with string keys. *)
Module Map.
Definition t (V : Type) : Type := list (string * V).

Definition keys {V} (m : t V) : list string := map fst m.
Definition values {V} (m : t V) : list V := map snd m.
Definition size {V} (m : t V) : Z := Z.of_nat (List.length m).

Fixpoint get {V} (k : string) (m : t V) : option V :=
  match m with
  | [] => None
  | (k', v) :: m' => if String.eqb k' k then Some v else get k m'
  end.

(** [m.set(k, v)]: an existing key keeps its place. *)
Fixpoint set {V} (k : string) (v : V) (m : t V) : t V :=
  match m with
  | [] => [(k, v)]
  | (k', v') :: m' =>
      if String.eqb k' k then (k, v) :: m' else (k', v') :: set k v m'
  end.

(** In-place mutation [f] of the object stored under [k] (the keys of
    a [Map] are unique, so at most one entry is concerned). *)
Definition modify {V} (k : string) (f : V -> V) (m : t V) : t V :=
  map (fun kv => if String.eqb (fst kv) k then (fst kv, f (snd kv)) else kv) m.
End Map.

End JS.

(** ** Data model *)

Inductive NodeType : Type := concept | entity | document | query.

Definition NodeType_eqb (a b : NodeType) : bool :=
  match a, b with
  | concept, concept | entity, entity | document, document | query, query => true
  | _, _ => false
  end.

Module Metadata.
Record t : Type := mk {
  source : option string;
  confidence : option float;
  domain : option string
}.

(** A metadata object literal passed by a caller: a key is absent
    ([None]), or present with a value that may be [undefined]
    ([Some None]).  Spreading copies every present key. *)
Record literal : Type := lit {
  key_source : option (option string);
  key_confidence : option (option float);
  key_domain : option (option string)
}.

Definition no_keys : literal := lit None None None.
End Metadata.

Module KnowledgeNode.
Record t : Type := mk {
  id : string;
  label : string;
  type : NodeType;
  content : string;
  embedding : option (list float);
  connections : list string;
  weight : float;
  timestamp : Z;
  metadata : Metadata.t
}.

Definition push_connection (c : string) (n : t) : t :=
  mk (id n) (label n) (type n) (content n) (embedding n)
     (connections n ++ [c]) (weight n) (timestamp n) (metadata n).
End KnowledgeNode.

Module KnowledgeEdge.
Record t : Type := mk {
  id : string;
  source : string;
  target : string;
  relationship : string;
  weight : float;
  timestamp : Z
}.
End KnowledgeEdge.

Module LearningMetrics.
Record t : Type := mk {
  totalNodes : Z;
  totalEdges : Z;
  averageConnectivity : float;
  knowledgeDomains : list string;
  growthRate : float;
  confidenceScore : float
}.
End LearningMetrics.

Inductive Feedback : Type := fb_positive | fb_negative.

(** What [saveToStorage] serialises into the [localStorage] slot. *)
Record Snapshot : Type := mkSnapshot {
  saved_nodes : JS.Map.t KnowledgeNode.t;
  saved_edges : JS.Map.t KnowledgeEdge.t;
  saved_learningHistory : list LearningMetrics.t
}.

(** The private fields of the class, and the storage slot it writes. *)
Record KnowledgeGraph : Type := mkGraph {
  nodes : JS.Map.t KnowledgeNode.t;
  edges : JS.Map.t KnowledgeEdge.t;
  learningHistory : list LearningMetrics.t;
  storage : option Snapshot
}.

Definition empty_graph : KnowledgeGraph := mkGraph [] [] [] None.

(** Results of the host calls made during one public method call:
    [randomUUID k] and [Date_now k] are the results of the [k]-th call
    (from 0) to [crypto.randomUUID()] and [Date.now()], [Math_random k]
    of the [k]-th call to [Math.random()]; [embedder text] is [None] when
    the pipeline throws (or was never initialised); [setItem_ok] tells
    whether [localStorage.setItem] succeeds. *)
Record Host : Type := mkHost {
  randomUUID : nat -> string;
  Date_now : nat -> Z;
  Math_random : nat -> float;
  embedder : string -> option (list float);
  setItem_ok : bool
}.

(** ** The engine *)

Section Engine.
Variable env : Host.

Local Open Scope float_scope.

(** [generateEmbedding]: the pipeline's vector, or on failure 384
    values [Math.random() - 0.5]. *)
Definition generateEmbedding (text : string) : list float :=
  match embedder env (String.substring 0 500 text) with
  | Some data => data
  | None => map (fun i => Math_random env i - 0.5) (seq 0 384)
  end.

Definition cosineSimilarity (a b : list float) : float :=
  let dotProduct :=
    JS.reduce (fun sum val i => sum + val * JS.index_number b i) a 0 in
  let magnitudeA := sqrt (JS.reduce (fun sum val _ => sum + val * val) a 0) in
  let magnitudeB := sqrt (JS.reduce (fun sum val _ => sum + val * val) b 0) in
  dotProduct / (magnitudeA * magnitudeB).

(** The left operand of [||] in [extractLabel]; a missing first piece
    would be [undefined], which [+] prints as text. *)
Definition extractLabel_candidate (content : string) : string :=
  match nth_error (JS.split_sentences content) 0 with
  | Some sentence => String.append (String.substring 0 50 sentence) "..."
  | None => String.append "undefined" "..."
  end.

Definition extractLabel (content : string) : string :=
  let candidate := extractLabel_candidate content in
  if JS.truthy_string candidate then candidate else "Unknown"%string.

Definition domains : list (string * list string) :=
  [ ("ai", ["artificial intelligence"; "machine learning"; "neural network"; "deep learning"]);
    ("science", ["research"; "study"; "experiment"; "theory"; "hypothesis"]);
    ("technology", ["software"; "hardware"; "computer"; "digital"; "tech"]);
    ("business", ["market"; "company"; "economy"; "finance"; "business"]);
    ("general", []) ]%string.

Definition inferDomain (content : string) : string :=
  let lowerContent := JS.toLowerCase content in
  match find (fun entry => existsb (JS.includes lowerContent) (snd entry)) domains with
  | Some entry => fst entry
  | None => "general"%string
  end.

Definition inferRelationship (nodeA nodeB : KnowledgeNode.t) : string :=
  if NodeType_eqb (KnowledgeNode.type nodeA) (KnowledgeNode.type nodeB)
  then "similar_to"%string
  else if NodeType_eqb (KnowledgeNode.type nodeA) document
          && NodeType_eqb (KnowledgeNode.type nodeB) concept
  then "contains"%string
  else if NodeType_eqb (KnowledgeNode.type nodeA) concept
          && NodeType_eqb (KnowledgeNode.type nodeB) entity
  then "relates_to"%string
  else "connected_to"%string.

(** One iteration of the loop of [createConnections] over the entry
    [(existingId, existingNode)].  The accumulator carries the graph and
    the number of edges created so far in this call; the host calls
    numbered 0 were made by [addKnowledge] for the node itself. *)
Definition connect (nodeId : string) (newNode : KnowledgeNode.t)
           (newEmbedding : list float)
           (acc : KnowledgeGraph * nat)
           (entry : string * KnowledgeNode.t) : KnowledgeGraph * nat :=
  let (g, k) := acc in
  let (existingId, existingNode) := entry in
  if String.eqb existingId nodeId then acc
  else
    match KnowledgeNode.embedding existingNode with
    | None => acc
    | Some existingEmbedding =>
        let similarity := cosineSimilarity newEmbedding existingEmbedding in
        if 0.7 <? similarity then
          let edgeId := randomUUID env (S k) in
          let edge :=
            KnowledgeEdge.mk edgeId nodeId existingId
              (inferRelationship newNode existingNode)
              similarity (Date_now env (S k)) in
          (mkGraph
             (JS.Map.modify existingId (KnowledgeNode.push_connection nodeId)
                (JS.Map.modify nodeId (KnowledgeNode.push_connection existingId)
                   (nodes g)))
             (JS.Map.set edgeId edge (edges g))
             (learningHistory g) (storage g),
           S k)
        else acc
    end.

(** [createConnections]: the loop runs over the entries of the node map;
    the fields it reads ([embedding], [type]) are not written by it. *)
Definition createConnections (nodeId : string) (g : KnowledgeGraph) : KnowledgeGraph :=
  match JS.Map.get nodeId (nodes g) with
  | None => g
  | Some newNode =>
      match KnowledgeNode.embedding newNode with
      | None => g
      | Some newEmbedding =>
          fst (fold_left (connect nodeId newNode newEmbedding) (nodes g) (g, 0%nat))
      end
  end.

(** [calculateMetrics]: the two sizes are integers, and so is
    [Math.max(1, size)]; they become numbers where they are divided. *)
Definition calculateMetrics (g : KnowledgeGraph) : LearningMetrics.t :=
  let totalNodes := JS.Map.size (nodes g) in
  let totalEdges := JS.Map.size (edges g) in
  let averageConnectivity :=
    if (0 <? totalNodes)%Z then JS.of_Z totalEdges / JS.of_Z totalNodes else 0 in
  let domains :=
    JS.Set_from
      (map (fun node =>
              JS.string_or (Metadata.domain (KnowledgeNode.metadata node)) "unknown")
           (JS.Map.values (nodes g))) in
  let growthRate :=
    match last (map Some (learningHistory g)) None with
    | Some previousMetrics =>
        JS.of_Z (totalNodes - LearningMetrics.totalNodes previousMetrics)
        / JS.of_Z (Z.max 1 (LearningMetrics.totalNodes previousMetrics))
    | None => 0
    end in
  let confidenceScore :=
    JS.reduce
      (fun sum node _ =>
         sum + JS.number_or (Metadata.confidence (KnowledgeNode.metadata node)) 0.5)
      (JS.Map.values (nodes g)) 0
    / JS.of_Z (Z.max 1 totalNodes) in
  LearningMetrics.mk totalNodes totalEdges averageConnectivity domains
                     growthRate confidenceScore.

(** [updateMetrics]: push, then keep the last 100. *)
Definition updateMetrics (g : KnowledgeGraph) : KnowledgeGraph :=
  let history := (learningHistory g ++ [calculateMetrics g])%list in
  mkGraph (nodes g) (edges g)
          (if (100 <? List.length history)%nat
           then skipn (List.length history - 100) history
           else history)
          (storage g).

Definition saveToStorage (g : KnowledgeGraph) : KnowledgeGraph :=
  if setItem_ok env
  then mkGraph (nodes g) (edges g) (learningHistory g)
               (Some (mkSnapshot (nodes g) (edges g) (learningHistory g)))
  else g.

(** The object literal [{confidence: 0.8, domain: inferDomain(content), ...metadata}]. *)
Definition node_metadata (content : string) (metadata : Metadata.literal) : Metadata.t :=
  Metadata.mk
    (match Metadata.key_source metadata with Some v => v | None => None end)
    (match Metadata.key_confidence metadata with Some v => v | None => Some 0.8 end)
    (match Metadata.key_domain metadata with Some v => v | None => Some (inferDomain content) end).

Definition new_node (content : string) (type : NodeType)
           (metadata : Metadata.literal) : KnowledgeNode.t :=
  KnowledgeNode.mk (randomUUID env 0) (extractLabel content) type content
                   (Some (generateEmbedding content)) [] 1 (Date_now env 0)
                   (node_metadata content metadata).

Definition addKnowledge (content : string) (type : NodeType)
           (metadata : Metadata.literal) (g : KnowledgeGraph)
  : string * KnowledgeGraph :=
  let nodeId := randomUUID env 0 in
  let node := new_node content type metadata in
  let g1 := mkGraph (JS.Map.set nodeId node (nodes g)) (edges g)
                    (learningHistory g) (storage g) in
  (nodeId, saveToStorage (updateMetrics (createConnections nodeId g1))).

(** The two assignments of [reinforceKnowledge] on the node object. *)
Definition reinforce_node (feedback : Feedback) (node : KnowledgeNode.t) : KnowledgeNode.t :=
  let adjustment := match feedback with fb_positive => 0.1 | fb_negative => -0.1 end in
  let md := KnowledgeNode.metadata node in
  KnowledgeNode.mk
    (KnowledgeNode.id node) (KnowledgeNode.label node) (KnowledgeNode.type node)
    (KnowledgeNode.content node) (KnowledgeNode.embedding node)
    (KnowledgeNode.connections node)
    (JS.Math_max 0.1 (JS.Math_min 2.0 (KnowledgeNode.weight node + adjustment)))
    (KnowledgeNode.timestamp node)
    (Metadata.mk
       (Metadata.source md)
       (match Metadata.confidence md with
        | Some c =>
            if JS.truthy_number c
            then Some (JS.Math_max 0.1 (JS.Math_min 1.0 (c + adjustment)))
            else Some c
        | None => None
        end)
       (Metadata.domain md)).

Definition reinforceKnowledge (nodeId : string) (feedback : Feedback)
           (g : KnowledgeGraph) : KnowledgeGraph :=
  match JS.Map.get nodeId (nodes g) with
  | None => g
  | Some _ =>
      saveToStorage
        (mkGraph (JS.Map.modify nodeId (reinforce_node feedback) (nodes g))
                 (edges g) (learningHistory g) (storage g))
  end.

End Engine.

(** ** Vocabulary of the properties *)

(** The text before the first ['.'], ['!'] or ['?']. *)
Fixpoint first_sentence (s : string) : string :=
  match s with
  | EmptyString => EmptyString
  | String c s' => if JS.is_terminator c then EmptyString else String c (first_sentence s')
  end.

(** The labelling rule read on the pair (inserted node, existing node). *)
Definition relationship_rule (inserted existing : NodeType) : string :=
  match inserted, existing with
  | concept, concept | entity, entity | document, document | query, query => "similar_to"
  | document, concept => "contains"
  | concept, entity => "relates_to"
  | _, _ => "connected_to"
  end.

(** The labelling rule read on the unordered pair of endpoint types. *)
Definition relationship_rule_unordered (a b : NodeType) : string :=
  match a, b with
  | concept, concept | entity, entity | document, document | query, query => "similar_to"
  | document, concept | concept, document => "contains"
  | concept, entity | entity, concept => "relates_to"
  | _, _ => "connected_to"
  end.

(** The stored entries that [createConnections] links to a node [nodeId]
    with embedding [newEmbedding]. *)
Definition linkable (nodeId : string) (newEmbedding : list float)
           (entry : string * KnowledgeNode.t) : bool :=
  negb (String.eqb (fst entry) nodeId)
  && match KnowledgeNode.embedding (snd entry) with
     | Some existingEmbedding =>
         PrimFloat.ltb 0.7 (cosineSimilarity newEmbedding existingEmbedding)
     | None => false
     end.

Definition linked_keys (nodeId : string) (newEmbedding : list float)
           (entries : JS.Map.t KnowledgeNode.t) : list string :=
  map fst (filter (linkable nodeId newEmbedding) entries).

(** The edge objects built by the loop over [entries], the first of them
    being the [S k]-th identifier drawn. *)
Fixpoint created_edges (env : Host) (nodeId : string) (newNode : KnowledgeNode.t)
         (newEmbedding : list float) (entries : JS.Map.t KnowledgeNode.t) (k : nat)
  : JS.Map.t KnowledgeEdge.t :=
  match entries with
  | [] => []
  | entry :: rest =>
      if linkable nodeId newEmbedding entry then
        (randomUUID env (S k),
         KnowledgeEdge.mk (randomUUID env (S k)) nodeId (fst entry)
           (inferRelationship newNode (snd entry))
           (match KnowledgeNode.embedding (snd entry) with
            | Some existingEmbedding => cosineSimilarity newEmbedding existingEmbedding
            | None => PrimFloat.nan
            end)
           (Date_now env (S k)))
        :: created_edges env nodeId newNode newEmbedding rest (S k)
      else created_edges env nodeId newNode newEmbedding rest k
  end.

(** What the loop appends to the [connections] of the entry under key [key]. *)
Definition pushed (nodeId : string) (linked : list string) (key : string) : list string :=
  if String.eqb key nodeId then linked
  else map (fun _ => nodeId) (filter (String.eqb key) linked).

Definition add_connections (cs : list string) (n : KnowledgeNode.t) : KnowledgeNode.t :=
  KnowledgeNode.mk (KnowledgeNode.id n) (KnowledgeNode.label n) (KnowledgeNode.type n)
     (KnowledgeNode.content n) (KnowledgeNode.embedding n)
     (KnowledgeNode.connections n ++ cs) (KnowledgeNode.weight n)
     (KnowledgeNode.timestamp n) (KnowledgeNode.metadata n).

(** The edges of [es] that lead from [a] to [b]. *)
Definition edges_from_to (a b : string) (es : JS.Map.t KnowledgeEdge.t)
  : JS.Map.t KnowledgeEdge.t :=
  filter (fun kv => String.eqb (KnowledgeEdge.source (snd kv)) a
                    && String.eqb (KnowledgeEdge.target (snd kv)) b) es.

(** The edge identifiers drawn during a call are new and pairwise distinct. *)
Definition fresh_edge_ids (env : Host) (g : KnowledgeGraph) : Prop :=
  (forall k, ~ In (randomUUID env (S k)) (JS.Map.keys (edges g))) /\
  (forall j k, randomUUID env (S j) = randomUUID env (S k) -> j = k).

Definition fresh_node_id (env : Host) (g : KnowledgeGraph) : Prop :=
  ~ In (randomUUID env 0) (JS.Map.keys (nodes g)).

(** An edge whose endpoints are [a] and [b], in either direction. *)
Definition joins (a b : string) (e : KnowledgeEdge.t) : Prop :=
  (KnowledgeEdge.source e = a /\ KnowledgeEdge.target e = b) \/
  (KnowledgeEdge.source e = b /\ KnowledgeEdge.target e = a).

Definition edge_between (g : KnowledgeGraph) (a b : string) : Prop :=
  exists eid e, In (eid, e) (edges g) /\ joins a b e.

Definition connections_symmetric (g : KnowledgeGraph) : Prop :=
  forall a na b nb,
    In (a, na) (nodes g) -> In (b, nb) (nodes g) -> a <> b ->
    (edge_between g a b <-> In b (KnowledgeNode.connections na)) /\
    (In b (KnowledgeNode.connections na) <-> In a (KnowledgeNode.connections nb)).

(** Every identifier mentioned by an edge or a connection list is a stored key. *)
Definition closed_graph (g : KnowledgeGraph) : Prop :=
  NoDup (JS.Map.keys (nodes g)) /\
  (forall a na b, In (a, na) (nodes g) -> In b (KnowledgeNode.connections na) ->
                  In b (JS.Map.keys (nodes g))) /\
  (forall eid e, In (eid, e) (edges g) ->
                 In (KnowledgeEdge.source e) (JS.Map.keys (nodes g)) /\
                 In (KnowledgeEdge.target e) (JS.Map.keys (nodes g))).

(** The three-way agreement on one ordered pair of stored nodes. *)
Definition agree (g : KnowledgeGraph) (a : string) (na : KnowledgeNode.t)
           (b : string) (nb : KnowledgeNode.t) : Prop :=
  (edge_between g a b <-> In b (KnowledgeNode.connections na)) /\
  (In b (KnowledgeNode.connections na) <-> In a (KnowledgeNode.connections nb)).

(** The graphs the engine can build from the empty one by its two
    mutating methods, the identifiers drawn being fresh. *)
Inductive reachable : KnowledgeGraph -> Prop :=
| reach_empty : reachable empty_graph
| reach_addKnowledge env content type metadata g :
    reachable g -> fresh_node_id env g -> fresh_edge_ids env g ->
    reachable (snd (addKnowledge env content type metadata g))
| reach_reinforceKnowledge env nodeId feedback g :
    reachable g -> reachable (reinforceKnowledge env nodeId feedback g).

(** A vector all of whose components are [+0] or [-0]. *)
Definition zero_vector (v : list float) : Prop :=
  Forall (fun x => PrimFloat.is_zero x = true) v.

(** A number that is [+0], [-0] or [NaN]. *)
Definition zero_or_nan (x : float) : Prop :=
  match Prim2SF x with
  | S754_zero _ | S754_nan => True
  | _ => False
  end.

(** The mean of the confidences, a missing one counting as [0.5]. *)
Definition confidence_or_default (n : KnowledgeNode.t) : float :=
  match Metadata.confidence (KnowledgeNode.metadata n) with
  | Some c => c
  | None => 0.5
  end.

Definition mean_confidence (ns : list KnowledgeNode.t) : float :=
  PrimFloat.div
    (fold_left (fun sum n => PrimFloat.add sum (confidence_or_default n)) ns 0%float)
    (JS.of_Z (Z.of_nat (List.length ns))).

Definition usable_confidence (n : KnowledgeNode.t) : Prop :=
  forall c, Metadata.confidence (KnowledgeNode.metadata n) = Some c ->
            JS.truthy_number c = true.

(** The domain a node is counted under by [calculateMetrics]. *)
Definition domain_or_unknown (n : KnowledgeNode.t) : string :=
  JS.string_or (Metadata.domain (KnowledgeNode.metadata n)) "unknown".

(** The domains that are present on some node. *)
Definition present_domains (ns : list KnowledgeNode.t) : list string :=
  JS.Set_from
    (flat_map (fun n => match Metadata.domain (KnowledgeNode.metadata n) with
                        | Some d => [d]
                        | None => []
                        end) ns).

(** The clamping intervals of [reinforceKnowledge]. *)
Definition in_range (lo hi x : float) : Prop :=
  PrimFloat.leb lo x = true /\ PrimFloat.leb x hi = true.

Definition weights_in_range (g : KnowledgeGraph) : Prop :=
  forall k n, In (k, n) (nodes g) -> in_range 0.1 2.0 (KnowledgeNode.weight n).

Definition confidences_in_range (g : KnowledgeGraph) : Prop :=
  forall k n c,
    In (k, n) (nodes g) ->
    Metadata.confidence (KnowledgeNode.metadata n) = Some c ->
    in_range 0.1 1.0 c.

(** Identifiers for the examples: a prefix and [k] dashes. *)
Definition unary_id (prefix : string) (k : nat) : string :=
  String.append prefix (string_of_list_ascii (repeat "-"%char k)).

Definition example_host (prefix : string) (random : float)
           (embed : string -> option (list float)) : Host :=
  mkHost (unary_id prefix) (fun k => Z.of_nat k) (fun _ => random) embed true.

(** ** Example graphs *)

Definition embeds_as (v : list float) : string -> option (list float) :=
  fun _ => Some v.

Definition embedding_fails : string -> option (list float) :=
  fun _ => None.

(** One concept, embedded as [[1; 0]]. *)
Definition graph_one : KnowledgeGraph :=
  snd (addKnowledge (example_host "a" 0.75 (embeds_as [1; 0]%float))
         "Artificial intelligence is" concept Metadata.no_keys empty_graph).

(** A second concept with the same embedding. *)
Definition graph_two : KnowledgeGraph :=
  snd (addKnowledge (example_host "b" 0.75 (embeds_as [1; 0]%float))
         "Machine learning is a subset of AI" concept Metadata.no_keys graph_one).

Definition host_c : Host := example_host "c" 0.75 (embeds_as [1; 0]%float).

(** A document, then a concept with the same embedding. *)
Definition graph_document_then_concept : KnowledgeGraph :=
  snd (addKnowledge (example_host "b" 0.75 (embeds_as [1; 0]%float))
         "Neural networks" concept Metadata.no_keys
         (snd (addKnowledge (example_host "a" 0.75 (embeds_as [1; 0]%float))
                 "Report on neural networks" document Metadata.no_keys empty_graph))).

(** Two insertions during which the embedding pipeline throws. *)
Definition graph_failed_twice : KnowledgeGraph :=
  snd (addKnowledge (example_host "b" 0.9 embedding_fails)
         "Machine learning" concept Metadata.no_keys
         (snd (addKnowledge (example_host "a" 0.75 embedding_fails)
                 "Artificial intelligence" concept Metadata.no_keys empty_graph))).

(** A graph holding one node that has no embedding. *)
Definition node_without_embedding : KnowledgeNode.t :=
  KnowledgeNode.mk "x" "Old note..." concept "Old note" None [] 1 0
                   (Metadata.mk None (Some 0.8%float) (Some "general"%string)).

Definition graph_without_embedding : KnowledgeGraph :=
  mkGraph [("x"%string, node_without_embedding)] [] [] None.

Definition host_failing : Host := example_host "c" 0.75 embedding_fails.

(** A node inserted with the metadata literal [{domain: undefined}]. *)
Definition graph_undefined_domain : KnowledgeGraph :=
  snd (addKnowledge (example_host "a" 0.75 (embeds_as [1; 0]%float))
         "A note about software" concept
         (Metadata.lit None None (Some None)) empty_graph).

(** The second concept of [graph_two] after one negative feedback. *)
Definition graph_two_reinforced : KnowledgeGraph :=
  reinforceKnowledge host_c "b" fb_negative graph_two.

(** A research result of relevance 0, inserted the way the page does it. *)
Definition graph_zero_confidence : KnowledgeGraph :=
  snd (addKnowledge (example_host "a" 0.75 (embeds_as [1; 0]%float))
         "Research content related to the query" concept
         (Metadata.lit (Some (Some "https://arxiv.org/search/?query=x"%string))
                       (Some (Some 0%float))
                       (Some (Some "research"%string)))
         empty_graph).

(** ** Arrays, objects and templates used by the insight functions *)

Module JSArray.

(** [a.sort(compare)]: the sort is stable, so for a consistent comparator
    the result is the one this insertion sort builds; [after x y] tells
    that [compare(x, y) > 0] ([NaN] and 0 leave the two in order). *)
Fixpoint insert {A : Type} (after : A -> A -> bool) (x : A) (l : list A) : list A :=
  match l with
  | [] => [x]
  | y :: l' => if after x y then y :: insert after x l' else x :: l
  end.

Definition sort {A : Type} (after : A -> A -> bool) (l : list A) : list A :=
  fold_right (insert after) [] l.

(** [a.join(sep)] on strings. *)
Fixpoint join (sep : string) (l : list string) : string :=
  match l with
  | [] => EmptyString
  | x :: l' =>
      match l' with
      | [] => x
      | _ :: _ => String.append x (String.append sep (join sep l'))
      end
  end.

(** An optional string inside a template literal. *)
Definition template (s : option string) : string :=
  match s with Some v => v | None => "undefined"%string end.

(** An array length inside a template literal. *)
Definition of_length (n : nat) : string := NilZero.string_of_uint (Nat.to_uint n).

(** [s.replace('-', ' and ')]: the first dash only. *)
Fixpoint replace_dash (s : string) : string :=
  match s with
  | EmptyString => EmptyString
  | String c s' =>
      if Ascii.eqb c "-"%char then String.append " and " s'
      else String c (replace_dash s')
  end.

(** [o[k] = (o[k] || 0) + 1] on an object used as a counting table, and
    [Object.entries(o)] after a loop of such steps.  The entries come in
    the order of first insertion; this is the order of the engine for
    keys that are neither array indices nor names of members of
    [Object.prototype]. *)
Fixpoint bump (k : string) (o : list (string * Z)) : list (string * Z) :=
  match o with
  | [] => [(k, 1%Z)]
  | (k', c) :: o' =>
      if String.eqb k' k then (k', (c + 1)%Z) :: o' else (k', c) :: bump k o'
  end.

Definition tally (keys : list string) : list (string * Z) :=
  fold_left (fun o k => bump k o) keys [].

(** The comparator [([, a], [, b]) => b - a] on entries. *)
Definition fewer_after (x y : string * Z) : bool := (0 <? snd y - snd x)%Z.

End JSArray.

(** ** The read-only methods of the engine *)

Module Insights.
Record t : Type := mk {
  topConcepts : list KnowledgeNode.t;
  emergingPatterns : list string;
  knowledgeGaps : list string;
  metrics : LearningMetrics.t
}.
End Insights.

(** The comparator [(a, b) => b.weight - a.weight] is positive. *)
Definition lighter_after (a b : KnowledgeNode.t) : bool :=
  PrimFloat.ltb 0 (PrimFloat.sub (KnowledgeNode.weight b) (KnowledgeNode.weight a)).

(** The comparator [(a, b) => b.similarity - a.similarity] is positive. *)
Definition less_similar_after (a b : KnowledgeNode.t * float) : bool :=
  PrimFloat.ltb 0 (PrimFloat.sub (snd b) (snd a)).

(** [findSimilarNodes(query, limit)], for a [limit] that is a natural
    number. *)
Definition findSimilarNodes (env : Host) (query : string) (limit : nat)
           (g : KnowledgeGraph) : list KnowledgeNode.t :=
  let queryEmbedding := generateEmbedding env query in
  let similarities :=
    flat_map (fun node =>
                match KnowledgeNode.embedding node with
                | Some e => [(node, cosineSimilarity queryEmbedding e)]
                | None => []
                end)
             (JS.Map.values (nodes g)) in
  map fst (firstn limit (JSArray.sort less_similar_after similarities)).

(** The keys counted by [detectPatterns], one per edge whose endpoints
    are both stored. *)
Definition domain_pairs (g : KnowledgeGraph) : list string :=
  flat_map (fun edge =>
              match JS.Map.get (KnowledgeEdge.source edge) (nodes g),
                    JS.Map.get (KnowledgeEdge.target edge) (nodes g) with
              | Some sourceNode, Some targetNode =>
                  [String.append
                     (JSArray.template (Metadata.domain (KnowledgeNode.metadata sourceNode)))
                     (String.append "-"
                        (JSArray.template
                           (Metadata.domain (KnowledgeNode.metadata targetNode))))]
              | _, _ => []
              end)
           (JS.Map.values (edges g)).

Definition detectPatterns (g : KnowledgeGraph) : list string :=
  let domainConnections := JSArray.tally (domain_pairs g) in
  let topConnections := firstn 3 (JSArray.sort JSArray.fewer_after domainConnections) in
  map (fun entry =>
         String.append "Strong connection between " (JSArray.replace_dash (fst entry)))
      topConnections.

Definition identifyGaps (g : KnowledgeGraph) : list string :=
  let isolatedNodes :=
    filter (fun node => match KnowledgeNode.connections node with
                        | [] => true
                        | _ :: _ => false
                        end)
           (JS.Map.values (nodes g)) in
  let gaps :=
    match isolatedNodes with
    | [] => []
    | _ :: _ =>
        [String.append (JSArray.of_length (List.length isolatedNodes))
                       " isolated knowledge concepts need connections"]
    end in
  let domains := JSArray.tally (map domain_or_unknown (JS.Map.values (nodes g))) in
  let minThreshold :=
    JS.Math_max 1 (PrimFloat.mul (JS.of_Z (JS.Map.size (nodes g))) 0.1) in
  let underrepresented :=
    map fst (filter (fun entry => PrimFloat.ltb (JS.of_Z (snd entry)) minThreshold)
                    domains) in
  match underrepresented with
  | [] => gaps
  | _ :: _ =>
      (gaps ++ [String.append "Need more knowledge in: "
                              (JSArray.join ", " underrepresented)])%list
  end.

Definition getInsights (g : KnowledgeGraph) : Insights.t :=
  let topConcepts := firstn 10 (JSArray.sort lighter_after (JS.Map.values (nodes g))) in
  Insights.mk topConcepts (detectPatterns g) (identifyGaps g) (calculateMetrics g).

Definition getGraphData (g : KnowledgeGraph)
  : list KnowledgeNode.t * list KnowledgeEdge.t :=
  (JS.Map.values (nodes g), JS.Map.values (edges g)).

(** ** The callers of the engine (Index.tsx) *)

(** [WebResearcher.calculateRelevance]: the clamped similarity of the two
    embeddings, or a random fallback when the pipeline throws.  Its
    [cosineSimilarity] has the same text as the engine's. *)
Definition calculateRelevance (env : Host) (query content : string) : float :=
  match embedder env query with
  | Some queryEmbedding =>
      match embedder env (String.substring 0 500 content) with
      | Some contentEmbedding =>
          JS.Math_max 0 (JS.Math_min 1 (cosineSimilarity queryEmbedding contentEmbedding))
      | None => PrimFloat.add (PrimFloat.mul (Math_random env 0) 0.5) 0.3
      end
  | None => PrimFloat.add (PrimFloat.mul (Math_random env 0) 0.5) 0.3
  end.

(** [handleSelfImprove]: positive feedback on the first three of the top
    concepts last shown; [hosts k] serves the [k]-th call. *)
Fixpoint reinforce_each (hosts : nat -> Host) (k : nat) (topNodes : list KnowledgeNode.t)
         (g : KnowledgeGraph) : KnowledgeGraph :=
  match topNodes with
  | [] => g
  | node :: rest =>
      reinforce_each hosts (S k) rest
        (reinforceKnowledge (hosts k) (KnowledgeNode.id node) fb_positive g)
  end.

Definition handleSelfImprove (hosts : nat -> Host) (shown : Insights.t)
           (g : KnowledgeGraph) : KnowledgeGraph :=
  reinforce_each hosts 0 (firstn 3 (Insights.topConcepts shown)) g.

(** ** Vocabulary of the further properties *)

(** The edge stored in [kv] starts or ends at [a]. *)
Definition incident (a : string) (kv : string * KnowledgeEdge.t) : bool :=
  String.eqb (KnowledgeEdge.source (snd kv)) a
  || String.eqb (KnowledgeEdge.target (snd kv)) a.

(** The edge stored in [kv] has the endpoints [a] and [b], either way. *)
Definition joins_pair (a b : string) (kv : string * KnowledgeEdge.t) : bool :=
  (String.eqb (KnowledgeEdge.source (snd kv)) a
   && String.eqb (KnowledgeEdge.target (snd kv)) b)
  || (String.eqb (KnowledgeEdge.source (snd kv)) b
      && String.eqb (KnowledgeEdge.target (snd kv)) a).

(** The node counts [1, ..., n], the last hundred of them. *)
Definition last_counts (n : nat) : list Z :=
  map Z.of_nat (skipn (n - 100) (seq 1 n)).

Definition has_embedding (n : KnowledgeNode.t) : bool :=
  match KnowledgeNode.embedding n with Some _ => true | None => false end.

Fixpoint contains_dash (s : string) : bool :=
  match s with
  | EmptyString => false
  | String c s' => Ascii.eqb c "-"%char || contains_dash s'
  end.

(** What [detectPatterns] prints for the counted key of an entry. *)
Definition render_pattern (entry : string * Z) : string :=
  String.append "Strong connection between " (JSArray.replace_dash (fst entry)).

(** The names of the members of [Object.prototype], and the strings made
    of digits only (the array indices are among them): the keys on which
    an object used as a table does not behave like one. *)
Definition prototype_names : list string :=
  [ "constructor"; "__proto__"; "hasOwnProperty"; "isPrototypeOf";
    "propertyIsEnumerable"; "toLocaleString"; "toString"; "valueOf";
    "__defineGetter__"; "__defineSetter__"; "__lookupGetter__";
    "__lookupSetter__" ]%string.

Fixpoint all_digits (s : string) : bool :=
  match s with
  | EmptyString => true
  | String c s' =>
      ((48 <=? nat_of_ascii c)%nat && (nat_of_ascii c <=? 57)%nat) && all_digits s'
  end.

Definition ordinary_key (k : string) : bool :=
  negb (existsb (String.eqb k) prototype_names)
  && negb (JS.truthy_string k && all_digits k).

(** No stored edge starts or ends at the node stored in [kv]. *)
Definition unlinked (g : KnowledgeGraph) (kv : string * KnowledgeNode.t) : bool :=
  negb (existsb (incident (fst kv)) (edges g)).

(** The test [node.connections.length === 0]. *)
Definition no_connections (node : KnowledgeNode.t) : bool :=
  match KnowledgeNode.connections node with
  | [] => true
  | _ :: _ => false
  end.

(** The first message of [identifyGaps], for [n] isolated nodes. *)
Definition isolated_message (n : nat) : string :=
  String.append (JSArray.of_length n) " isolated knowledge concepts need connections".

(** Some keyword of the table entry occurs in the lower-cased content. *)
Definition mentions (content : string) (entry : string * list string) : bool :=
  existsb (JS.includes (JS.toLowerCase content)) (snd entry).

(** The fields of [b] are those of [a], the connections apart. *)
Definition same_but_connections (a b : KnowledgeNode.t) : Prop :=
  KnowledgeNode.id b = KnowledgeNode.id a
  /\ KnowledgeNode.label b = KnowledgeNode.label a
  /\ KnowledgeNode.type b = KnowledgeNode.type a
  /\ KnowledgeNode.content b = KnowledgeNode.content a
  /\ KnowledgeNode.embedding b = KnowledgeNode.embedding a
  /\ KnowledgeNode.weight b = KnowledgeNode.weight a
  /\ KnowledgeNode.timestamp b = KnowledgeNode.timestamp a
  /\ KnowledgeNode.metadata b = KnowledgeNode.metadata a.

(** The fields of [b] are those of [a], the weight and the confidence
    apart; a missing confidence stays missing. *)
Definition same_but_weight_and_confidence (a b : KnowledgeNode.t) : Prop :=
  KnowledgeNode.id b = KnowledgeNode.id a
  /\ KnowledgeNode.label b = KnowledgeNode.label a
  /\ KnowledgeNode.type b = KnowledgeNode.type a
  /\ KnowledgeNode.content b = KnowledgeNode.content a
  /\ KnowledgeNode.embedding b = KnowledgeNode.embedding a
  /\ KnowledgeNode.connections b = KnowledgeNode.connections a
  /\ KnowledgeNode.timestamp b = KnowledgeNode.timestamp a
  /\ Metadata.source (KnowledgeNode.metadata b) = Metadata.source (KnowledgeNode.metadata a)
  /\ Metadata.domain (KnowledgeNode.metadata b) = Metadata.domain (KnowledgeNode.metadata a)
  /\ (Metadata.confidence (KnowledgeNode.metadata a) = None ->
      Metadata.confidence (KnowledgeNode.metadata b) = None).

(** The same host, with [localStorage.setItem] succeeding or throwing. *)
Definition with_setItem (ok : bool) (env : Host) : Host :=
  mkHost (randomUUID env) (Date_now env) (Math_random env) (embedder env) ok.

(** The key [a] comes before the key [b] in the node map: the node under
    [a] was inserted first. *)
Definition inserted_before (g : KnowledgeGraph) (a b : string) : Prop :=
  exists l1 l2 l3, JS.Map.keys (nodes g) = (l1 ++ a :: l2 ++ b :: l3)%list.

(** What a stored edge says about the two nodes stored under its
    endpoints. *)
Definition describes_endpoints (g : KnowledgeGraph) (e : KnowledgeEdge.t) : Prop :=
  exists sourceNode targetNode sourceEmbedding targetEmbedding,
    In (KnowledgeEdge.source e, sourceNode) (nodes g)
    /\ In (KnowledgeEdge.target e, targetNode) (nodes g)
    /\ KnowledgeNode.embedding sourceNode = Some sourceEmbedding
    /\ KnowledgeNode.embedding targetNode = Some targetEmbedding
    /\ KnowledgeEdge.weight e = cosineSimilarity sourceEmbedding targetEmbedding
    /\ PrimFloat.ltb 0.7 (KnowledgeEdge.weight e) = true
    /\ KnowledgeEdge.relationship e
       = relationship_rule (KnowledgeNode.type sourceNode) (KnowledgeNode.type targetNode).

(** ** The page handlers that feed the engine (Index.tsx) *)

Module ResearchResult.
Record t : Type := mk {
  id : string;
  url : string;
  title : string;
  content : string;
  summary : string;
  relevanceScore : float;
  timestamp : Z;
  keywords : list string
}.
End ResearchResult.

Module ProcessedDocument.
Inductive DocumentType : Type := pdf | text | image.

Record t : Type := mk {
  id : string;
  name : string;
  type : DocumentType;
  content : string;
  summary : string;
  keywords : list string;
  entities : list string;
  timestamp : Z;
  size : Z
}.
End ProcessedDocument.

(** The body of the loop of [handleResearchComplete]. *)
Definition research_insert (env : Host) (result : ResearchResult.t)
           (g : KnowledgeGraph) : KnowledgeGraph :=
  snd (addKnowledge env (ResearchResult.content result) concept
         (Metadata.lit (Some (Some (ResearchResult.url result)))
                       (Some (Some (ResearchResult.relevanceScore result)))
                       (Some (Some "research"%string)))
         g).

(** [handleResearchComplete]: one insertion per result; [hosts k] serves
    the [k]-th of them. *)
Fixpoint handleResearchComplete (hosts : nat -> Host) (k : nat)
         (results : list ResearchResult.t) (g : KnowledgeGraph) : KnowledgeGraph :=
  match results with
  | [] => g
  | result :: rest =>
      handleResearchComplete hosts (S k) rest (research_insert (hosts k) result g)
  end.

Definition handleDocumentProcessed (env : Host) (doc : ProcessedDocument.t)
           (g : KnowledgeGraph) : KnowledgeGraph :=
  snd (addKnowledge env (ProcessedDocument.content doc) document
         (Metadata.lit (Some (Some (ProcessedDocument.name doc)))
                       (Some (Some 0.9%float))
                       (Some (Some "document"%string)))
         g).

(** The identifiers drawn during the insertions of a run are fresh. *)
Fixpoint fresh_run (hosts : nat -> Host) (k : nat)
         (results : list ResearchResult.t) (g : KnowledgeGraph) : Prop :=
  match results with
  | [] => True
  | result :: rest =>
      fresh_node_id (hosts k) g /\ fresh_edge_ids (hosts k) g
      /\ fresh_run hosts (S k) rest (research_insert (hosts k) result g)
  end.

(** The graphs the page can build in a session that starts with an
    empty storage slot. *)
Inductive page_built : KnowledgeGraph -> Prop :=
| page_empty : page_built empty_graph
| page_research hosts results g :
    page_built g -> fresh_run hosts 0 results g ->
    page_built (handleResearchComplete hosts 0 results g)
| page_document env doc g :
    page_built g -> fresh_node_id env g -> fresh_edge_ids env g ->
    page_built (handleDocumentProcessed env doc g)
| page_improve hosts shown g :
    page_built g -> page_built (handleSelfImprove hosts shown g).

(** The weights 1, 1 + 0.1, (1 + 0.1) + 0.1, ... as repeated positive
    feedback computes them, up to the cap. *)
Definition self_improved_weights : list float :=
  [ 1; 1.1000000000000001; 1.2000000000000002; 1.3000000000000003;
    1.4000000000000004; 1.5000000000000004; 1.6000000000000005;
    1.7000000000000006; 1.8000000000000007; 1.9000000000000008; 2 ]%float.

(** A node as the page inserts and reinforces it. *)
Definition page_node (n : KnowledgeNode.t) : Prop :=
  ((KnowledgeNode.type n = concept
    /\ Metadata.domain (KnowledgeNode.metadata n) = Some "research"%string)
   \/ (KnowledgeNode.type n = document
       /\ Metadata.domain (KnowledgeNode.metadata n) = Some "document"%string))
  /\ In (KnowledgeNode.weight n) self_improved_weights.

Definition page_nodes (g : KnowledgeGraph) : Prop :=
  forall k n, In (k, n) (nodes g) -> page_node n.

Definition example_result : ResearchResult.t :=
  ResearchResult.mk "r1" "https://arxiv.org/search/?query=x" "Academic Paper"
    "Research content related to the query" "summary" 0.5 0 [].

(** ** Numbers as multiples of the smallest one *)

(** A positive finite number as a multiple of the smallest positive
    number [2^-1074]; 0 for the other values. *)
Definition scaled (w : float) : Z :=
  match Prim2SF w with
  | S754_finite false m e => (Zpos m * 2 ^ (e + 1074))%Z
  | _ => 0%Z
  end.

Definition positive_finite (w : float) : Prop :=
  exists m e, Prim2SF w = S754_finite false m e.

(** [b] does not weigh more than [a]. *)
Definition not_lighter (a b : KnowledgeNode.t) : Prop :=
  PrimFloat.leb (KnowledgeNode.weight b) (KnowledgeNode.weight a) = true.

(** ** Properties of the helpers on strings and maps *)

Lemma split_from_first_sentence (s : string) :
  exists pieces, JS.split_from s false = first_sentence s :: pieces.
Proof.
  induction s as [|c s' [pieces IH]]; simpl.
  - now exists [].
  - destruct (JS.is_terminator c).
    + now exists (JS.split_from s' true).
    + rewrite IH. now exists pieces.
Qed.

Lemma append_nonempty (s t : string) (c : ascii) :
  JS.truthy_string (String.append s (String c t)) = true.
Proof. destruct s; reflexivity. Qed.

Lemma extractLabel_candidate_eq (content : string) :
  extractLabel_candidate content
  = String.append (String.substring 0 50 (first_sentence content)) "...".
Proof.
  unfold extractLabel_candidate, JS.split_sentences.
  destruct (split_from_first_sentence content) as [pieces ->].
  reflexivity.
Qed.

(** C10. For every content string the label is the first 50 characters of
    the first sentence (the text before the first '.', '!' or '?')
    followed by "...", whatever the length of that sentence; the left
    operand of [||] is never falsy, so 'Unknown' is never returned; and
    the label of the empty content is "...". *)
Theorem extractLabel_is_truncated_first_sentence :
  forall content : string,
    extractLabel content
    = String.append (String.substring 0 50 (first_sentence content)) "..."
    /\ JS.truthy_string (extractLabel_candidate content) = true
    /\ extractLabel content <> "Unknown"%string
    /\ extractLabel "" = "..."%string.
Proof.
  intros content.
  assert (Htruthy : JS.truthy_string (extractLabel_candidate content) = true).
  { rewrite extractLabel_candidate_eq. apply append_nonempty. }
  assert (Heq : extractLabel content
                = String.append (String.substring 0 50 (first_sentence content)) "...").
  { unfold extractLabel. rewrite Htruthy. apply extractLabel_candidate_eq. }
  repeat split; trivial.
  rewrite Heq. intros Habs.
  destruct (String.substring 0 50 (first_sentence content))
    as [|? [|? [|? [|? [|? [|? [|? [|? ?]]]]]]]];
    simpl in Habs; discriminate Habs.
Qed.

Lemma Map_get_absent {V : Type} (k : string) (m : JS.Map.t V) :
  ~ In k (JS.Map.keys m) -> JS.Map.get k m = None.
Proof.
  induction m as [|[k' v] m IH]; simpl; intros Hk; trivial.
  destruct (String.eqb_spec k' k) as [->|Hne].
  - exfalso. apply Hk. now left.
  - apply IH. intros Hin. apply Hk. now right.
Qed.

(** ** Reinforcement of an unknown identifier *)

(** C9. [reinforceKnowledge] on an identifier that is not a key of the
    node map returns the graph it was given: nodes, edges (hence all
    connections), the metrics history and the storage slot are untouched,
    for either feedback value. *)
Theorem reinforceKnowledge_absent_id_is_noop :
  forall (env : Host) (nodeId : string) (feedback : Feedback) (g : KnowledgeGraph),
    ~ In nodeId (JS.Map.keys (nodes g)) ->
    reinforceKnowledge env nodeId feedback g = g.
Proof.
  intros env nodeId feedback g Habsent.
  unfold reinforceKnowledge.
  now rewrite (Map_get_absent nodeId (nodes g) Habsent).
Qed.

Lemma reinforceKnowledge_absent_id_is_noop_witness :
  ~ In "nobody"%string (JS.Map.keys (nodes graph_two))
  /\ reinforceKnowledge (example_host "c" 0.75 embedding_fails)
       "nobody" fb_negative graph_two = graph_two.
Proof.
  assert (H : ~ In "nobody"%string (JS.Map.keys (nodes graph_two))).
  { vm_compute. intros [H|[H|[]]]; discriminate H. }
  split; [exact H|].
  exact (reinforceKnowledge_absent_id_is_noop _ "nobody"%string fb_negative graph_two H).
Defined.

(** ** The linking loop *)

Lemma Map_set_fresh {V : Type} (k : string) (v : V) (m : JS.Map.t V) :
  ~ In k (JS.Map.keys m) -> JS.Map.set k v m = (m ++ [(k, v)])%list.
Proof.
  induction m as [|[k' v'] m IH]; simpl; intros Hk; trivial.
  destruct (String.eqb_spec k' k) as [->|Hne].
  - exfalso. apply Hk. now left.
  - f_equal. apply IH. intros Hin. apply Hk. now right.
Qed.

Lemma Map_keys_modify {V : Type} (k : string) (f : V -> V) (m : JS.Map.t V) :
  JS.Map.keys (JS.Map.modify k f m) = JS.Map.keys m.
Proof.
  unfold JS.Map.keys, JS.Map.modify. rewrite map_map.
  apply map_ext. intros [k' v]; simpl. now destruct (String.eqb k' k).
Qed.

Lemma add_connections_nil (n : KnowledgeNode.t) : add_connections [] n = n.
Proof. destruct n; unfold add_connections; simpl. now rewrite app_nil_r. Qed.

Lemma add_connections_push (c : string) (cs : list string) (n : KnowledgeNode.t) :
  add_connections cs (KnowledgeNode.push_connection c n) = add_connections (c :: cs) n.
Proof.
  unfold add_connections, KnowledgeNode.push_connection; simpl.
  now rewrite <- app_assoc.
Qed.

Section LinkingLoop.
Variable env : Host.
Variable nodeId : string.
Variable newNode : KnowledgeNode.t.
Variable newEmbedding : list float.

Lemma connect_not_linkable (acc : KnowledgeGraph * nat) (entry : string * KnowledgeNode.t) :
  linkable nodeId newEmbedding entry = false ->
  connect env nodeId newNode newEmbedding acc entry = acc.
Proof.
  destruct acc as [g k], entry as [existingId existingNode].
  unfold linkable, connect; simpl.
  destruct (String.eqb existingId nodeId); simpl; trivial.
  destruct (KnowledgeNode.embedding existingNode) as [e|]; trivial.
  now intros ->.
Qed.

Lemma connect_linkable (g : KnowledgeGraph) (k : nat) (entry : string * KnowledgeNode.t) :
  linkable nodeId newEmbedding entry = true ->
  exists edge,
    created_edges env nodeId newNode newEmbedding [entry] k = [(randomUUID env (S k), edge)]
    /\ connect env nodeId newNode newEmbedding (g, k) entry
       = (mkGraph
            (JS.Map.modify (fst entry) (KnowledgeNode.push_connection nodeId)
               (JS.Map.modify nodeId (KnowledgeNode.push_connection (fst entry)) (nodes g)))
            (JS.Map.set (randomUUID env (S k)) edge (edges g))
            (learningHistory g) (storage g),
          S k).
Proof.
  intros Hlink. simpl. rewrite Hlink. eexists. split; [reflexivity|].
  destruct entry as [existingId existingNode].
  unfold linkable in Hlink. unfold connect. simpl in *.
  destruct (String.eqb existingId nodeId); simpl in Hlink; [discriminate|].
  destruct (KnowledgeNode.embedding existingNode) as [e|]; [|discriminate].
  now rewrite Hlink.
Qed.

Lemma created_edges_cons (entry : string * KnowledgeNode.t)
      (rest : JS.Map.t KnowledgeNode.t) (k : nat) :
  created_edges env nodeId newNode newEmbedding (entry :: rest) k
  = (created_edges env nodeId newNode newEmbedding [entry] k
     ++ created_edges env nodeId newNode newEmbedding rest
          (if linkable nodeId newEmbedding entry then S k else k))%list.
Proof. simpl. now destruct (linkable nodeId newEmbedding entry). Qed.

(** The edge map after the loop: the edges built are appended in order. *)
Lemma connect_loop_edges (entries : JS.Map.t KnowledgeNode.t) :
  forall (g : KnowledgeGraph) (k : nat),
    (forall j, k <= j -> ~ In (randomUUID env (S j)) (JS.Map.keys (edges g))) ->
    (forall i j, randomUUID env (S i) = randomUUID env (S j) -> i = j) ->
    edges (fst (fold_left (connect env nodeId newNode newEmbedding) entries (g, k)))
    = (edges g ++ created_edges env nodeId newNode newEmbedding entries k)%list.
Proof.
  induction entries as [|entry rest IH]; intros g k Hfresh Hinj.
  - simpl. now rewrite app_nil_r.
  - rewrite created_edges_cons. cbn [fold_left].
    destruct (linkable nodeId newEmbedding entry) eqn:Hlink.
    + destruct (connect_linkable g k entry Hlink) as [edge [Hcreated ->]].
      rewrite Hcreated, IH; trivial.
      * cbn [edges]. rewrite Map_set_fresh by (apply Hfresh; lia).
        now rewrite <- app_assoc.
      * intros j Hj. cbn [edges].
        rewrite Map_set_fresh by (apply Hfresh; lia).
        unfold JS.Map.keys. rewrite map_app, in_app_iff. simpl.
        intros [Hin|[Heq|[]]].
        -- apply (Hfresh j); [lia|exact Hin].
        -- apply Hinj in Heq. lia.
    + rewrite (connect_not_linkable (g, k) entry Hlink).
      simpl in *. rewrite Hlink. simpl. now apply IH.
Qed.

Lemma pushed_step (mid : string) (rest : list string) (key : string) (n : KnowledgeNode.t) :
  String.eqb mid nodeId = false ->
  let kv1 := if String.eqb key nodeId
             then (key, KnowledgeNode.push_connection mid n) else (key, n) in
  let kv2 := if String.eqb (fst kv1) mid
             then (fst kv1, KnowledgeNode.push_connection nodeId (snd kv1)) else kv1 in
  (fst kv2, add_connections (pushed nodeId rest (fst kv2)) (snd kv2))
  = (key, add_connections (pushed nodeId (mid :: rest) key) n).
Proof.
  intros Hne. unfold pushed.
  destruct (String.eqb key nodeId) eqn:E1; cbn [fst snd];
    destruct (String.eqb key mid) eqn:E2; cbn [fst snd filter map];
    rewrite ?E1, ?E2; cbn [map]; rewrite ?add_connections_push; trivial.
  apply String.eqb_eq in E1, E2. subst key. subst mid.
  rewrite String.eqb_refl in Hne. discriminate.
Qed.

(** The node map after the loop: same keys, same objects, longer
    connection lists. *)
Lemma connect_loop_nodes (entries : JS.Map.t KnowledgeNode.t) :
  forall (g : KnowledgeGraph) (k : nat),
    nodes (fst (fold_left (connect env nodeId newNode newEmbedding) entries (g, k)))
    = map (fun kv =>
             (fst kv,
              add_connections
                (pushed nodeId (linked_keys nodeId newEmbedding entries) (fst kv))
                (snd kv)))
          (nodes g).
Proof.
  induction entries as [|entry rest IH]; intros g k.
  - simpl. rewrite <- (map_id (nodes g)) at 1. apply map_ext.
    intros [key n]. unfold pushed, linked_keys. simpl.
    destruct (String.eqb key nodeId); now rewrite add_connections_nil.
  - cbn [fold_left].
    destruct (linkable nodeId newEmbedding entry) eqn:Hlink.
    + destruct (connect_linkable g k entry Hlink) as [edge [_ ->]].
      rewrite IH. cbn [nodes]. unfold JS.Map.modify. rewrite !map_map.
      apply map_ext. intros [key n].
      unfold linked_keys. cbn [filter]. rewrite Hlink. cbn [map].
      fold (linked_keys nodeId newEmbedding rest).
      assert (Hne : String.eqb (fst entry) nodeId = false).
      { unfold linkable in Hlink. now destruct (String.eqb (fst entry) nodeId). }
      exact (pushed_step (fst entry) (linked_keys nodeId newEmbedding rest) key n Hne).
    + rewrite (connect_not_linkable (g, k) entry Hlink), IH.
      unfold linked_keys. cbn [filter]. now rewrite Hlink.
Qed.

End LinkingLoop.

(** ** Which edges an insertion creates *)

Lemma filter_none {A : Type} (f : A -> bool) (l : list A) :
  (forall x, In x l -> f x = false) -> filter f l = [].
Proof.
  induction l as [|x l IH]; intros H; trivial.
  simpl. rewrite (H x (or_introl eq_refl)). apply IH.
  intros y Hy. apply H. now right.
Qed.

Section CreatedEdges.
Variable env : Host.
Variable nodeId : string.
Variable newNode : KnowledgeNode.t.
Variable newEmbedding : list float.

Lemma created_edges_In (entries : JS.Map.t KnowledgeNode.t) :
  forall (k : nat) (eid : string) (e : KnowledgeEdge.t),
    In (eid, e) (created_edges env nodeId newNode newEmbedding entries k) ->
    exists existingNode existingEmbedding,
      In (KnowledgeEdge.target e, existingNode) entries
      /\ KnowledgeEdge.source e = nodeId
      /\ KnowledgeEdge.target e <> nodeId
      /\ KnowledgeNode.embedding existingNode = Some existingEmbedding
      /\ KnowledgeEdge.weight e = cosineSimilarity newEmbedding existingEmbedding
      /\ PrimFloat.ltb 0.7 (KnowledgeEdge.weight e) = true
      /\ KnowledgeEdge.relationship e = inferRelationship newNode existingNode.
Proof.
  induction entries as [|[mid m] rest IH]; intros k eid e Hin; [destruct Hin|].
  simpl in Hin.
  destruct (linkable nodeId newEmbedding (mid, m)) eqn:Hlink.
  - destruct Hin as [Heq|Hin].
    + injection Heq as _ <-. cbn.
      unfold linkable in Hlink. cbn in Hlink.
      destruct (String.eqb_spec mid nodeId) as [|Hne]; [discriminate|].
      destruct (KnowledgeNode.embedding m) as [existingEmbedding|] eqn:Hemb; [|discriminate].
      exists m, existingEmbedding. repeat split; trivial. now left.
    + destruct (IH _ _ _ Hin) as (m' & e' & H1 & H).
      exists m', e'. split; [now right|exact H].
  - destruct (IH _ _ _ Hin) as (m' & e' & H1 & H).
    exists m', e'. split; [now right|exact H].
Qed.

Lemma edges_from_to_absent (mid : string) (entries : JS.Map.t KnowledgeNode.t) (k : nat) :
  ~ In mid (JS.Map.keys entries) ->
  edges_from_to nodeId mid (created_edges env nodeId newNode newEmbedding entries k) = [].
Proof.
  intros Habsent. unfold edges_from_to.
  apply filter_none. intros [eid e] Hin. cbn.
  destruct (created_edges_In _ _ _ _ Hin) as (m & _ & Hm & _).
  destruct (String.eqb_spec (KnowledgeEdge.target e) mid) as [Heq|]; [|now rewrite andb_false_r].
  exfalso. apply Habsent. subst mid.
  apply (in_map fst) in Hm. exact Hm.
Qed.

(** Each stored entry is the target of one created edge when it is
    linkable, and of none otherwise. *)
Lemma created_edges_count (entries : JS.Map.t KnowledgeNode.t) :
  NoDup (JS.Map.keys entries) ->
  forall (k : nat) (mid : string) (m : KnowledgeNode.t),
    In (mid, m) entries ->
    List.length (edges_from_to nodeId mid
                   (created_edges env nodeId newNode newEmbedding entries k))
    = if linkable nodeId newEmbedding (mid, m) then 1 else 0.
Proof.
  induction entries as [|[mid0 m0] rest IH]; intros Hnodup k mid m Hin; [destruct Hin|].
  cbn in Hnodup. apply NoDup_cons_iff in Hnodup. destruct Hnodup as [Hhead Hrest].
  destruct Hin as [Heq|Hin].
  - injection Heq as -> ->. cbn [created_edges].
    destruct (linkable nodeId newEmbedding (mid, m)) eqn:Hlink.
    + change (List.length
                (edges_from_to nodeId mid
                   ((randomUUID env (S k),
                     KnowledgeEdge.mk (randomUUID env (S k)) nodeId mid
                       (inferRelationship newNode m)
                       match KnowledgeNode.embedding m with
                       | Some existingEmbedding =>
                           cosineSimilarity newEmbedding existingEmbedding
                       | None => PrimFloat.nan
                       end (Date_now env (S k)))
                    :: created_edges env nodeId newNode newEmbedding rest (S k))) = 1).
      unfold edges_from_to at 1. cbn [filter snd KnowledgeEdge.source KnowledgeEdge.target].
      rewrite !String.eqb_refl. cbn [andb List.length].
      fold (edges_from_to nodeId mid
              (created_edges env nodeId newNode newEmbedding rest (S k))).
      now rewrite edges_from_to_absent.
    + now rewrite edges_from_to_absent.
  - assert (Hne : mid <> mid0).
    { intros ->. apply Hhead. apply (in_map fst) in Hin. exact Hin. }
    cbn [created_edges].
    destruct (linkable nodeId newEmbedding (mid0, m0)).
    + unfold edges_from_to at 1. cbn [filter snd fst KnowledgeEdge.source KnowledgeEdge.target].
      destruct (String.eqb_spec mid0 mid) as [Heq|_]; [now symmetry in Heq|].
      rewrite andb_false_r.
      now apply IH.
    + now apply IH.
Qed.

End CreatedEdges.

(** ** Insertion *)

Lemma Map_get_set_same {V : Type} (k : string) (v : V) (m : JS.Map.t V) :
  JS.Map.get k (JS.Map.set k v m) = Some v.
Proof.
  induction m as [|[k' v'] m IH]; simpl.
  - now rewrite String.eqb_refl.
  - destruct (String.eqb k' k) eqn:E; simpl.
    + now rewrite String.eqb_refl.
    + now rewrite E.
Qed.

Lemma Map_set_In_other {V : Type} (k k' : string) (v v' : V) (m : JS.Map.t V) :
  In (k', v') m -> k' <> k -> In (k', v') (JS.Map.set k v m).
Proof.
  intros Hin Hne. induction m as [|[k0 v0] m IH]; [destruct Hin|].
  simpl. destruct Hin as [Heq|Hin].
  - injection Heq as -> ->.
    destruct (String.eqb_spec k' k) as [|_]; [contradiction|now left].
  - destruct (String.eqb k0 k); right; [exact Hin|now apply IH].
Qed.

Lemma Map_set_In_inv {V : Type} (k k' : string) (v v' : V) (m : JS.Map.t V) :
  In (k', v') (JS.Map.set k v m) -> (k' = k /\ v' = v) \/ In (k', v') m.
Proof.
  induction m as [|[k0 v0] m IH]; simpl.
  - intros [Heq|[]]. injection Heq as <- <-. now left.
  - destruct (String.eqb k0 k); intros [Heq|Hin].
    + injection Heq as <- <-. now left.
    + right. now right.
    + right. now left.
    + destruct (IH Hin) as [H|H]; [now left|right; now right].
Qed.

Lemma Map_keys_set {V : Type} (k : string) (v : V) (m : JS.Map.t V) :
  JS.Map.keys (JS.Map.set k v m)
  = if existsb (String.eqb k) (JS.Map.keys m) then JS.Map.keys m
    else (JS.Map.keys m ++ [k])%list.
Proof.
  induction m as [|[k0 v0] m IH]; simpl; trivial.
  rewrite (String.eqb_sym k k0).
  destruct (String.eqb_spec k0 k) as [->|Hne]; simpl; trivial.
  rewrite IH. now destruct (existsb (String.eqb k) (JS.Map.keys m)).
Qed.

Lemma Map_keys_set_NoDup {V : Type} (k : string) (v : V) (m : JS.Map.t V) :
  NoDup (JS.Map.keys m) -> NoDup (JS.Map.keys (JS.Map.set k v m)).
Proof.
  intros Hnodup. rewrite Map_keys_set.
  destruct (existsb (String.eqb k) (JS.Map.keys m)) eqn:E; trivial.
  apply NoDup_app; trivial.
  - apply NoDup_cons; [intros []|constructor].
  - intros x Hx [Heq|[]]. subst x.
    assert (existsb (String.eqb k) (JS.Map.keys m) = true); [|congruence].
    apply existsb_exists. exists k. split; trivial. apply String.eqb_refl.
Qed.

Lemma Map_In_unique {V : Type} (m : JS.Map.t V) (k : string) (v v' : V) :
  NoDup (JS.Map.keys m) -> In (k, v) m -> In (k, v') m -> v = v'.
Proof.
  induction m as [|[k0 v0] m IH]; intros Hnodup H1 H2; [destruct H1|].
  cbn in Hnodup. apply NoDup_cons_iff in Hnodup. destruct Hnodup as [Hhd Htl].
  destruct H1 as [H1|H1], H2 as [H2|H2].
  - congruence.
  - injection H1 as -> _. exfalso. apply Hhd. now apply (in_map fst) in H2.
  - injection H2 as -> _. exfalso. apply Hhd. now apply (in_map fst) in H1.
  - now apply IH.
Qed.

Lemma Map_get_In {V : Type} (m : JS.Map.t V) (k : string) (v : V) :
  JS.Map.get k m = Some v -> In (k, v) m.
Proof.
  induction m as [|[k0 v0] m IH]; simpl; [discriminate|].
  destruct (String.eqb_spec k0 k) as [->|_].
  - intros H. injection H as ->. now left.
  - intros H. right. now apply IH.
Qed.

Lemma Map_In_get {V : Type} (m : JS.Map.t V) (k : string) (v : V) :
  NoDup (JS.Map.keys m) -> In (k, v) m -> JS.Map.get k m = Some v.
Proof.
  intros Hnodup Hin.
  destruct (JS.Map.get k m) as [v'|] eqn:Hget.
  - apply Map_get_In in Hget. f_equal. exact (Map_In_unique m k v' v Hnodup Hget Hin).
  - exfalso. clear Hnodup. induction m as [|[k0 v0] m IH]; [destruct Hin|].
    simpl in Hget. destruct (String.eqb_spec k0 k) as [|Hne]; [discriminate|].
    destruct Hin as [Heq|Hin]; [injection Heq as -> _; now apply Hne|now apply IH].
Qed.

Section Persisting.
Variable env : Host.

Lemma saveToStorage_nodes (g : KnowledgeGraph) : nodes (saveToStorage env g) = nodes g.
Proof. unfold saveToStorage. now destruct (setItem_ok env). Qed.

Lemma saveToStorage_edges (g : KnowledgeGraph) : edges (saveToStorage env g) = edges g.
Proof. unfold saveToStorage. now destruct (setItem_ok env). Qed.

Lemma addKnowledge_edges content type metadata (g : KnowledgeGraph) :
  fresh_edge_ids env g ->
  edges (snd (addKnowledge env content type metadata g))
  = (edges g
     ++ created_edges env (randomUUID env 0) (new_node env content type metadata)
          (generateEmbedding env content)
          (JS.Map.set (randomUUID env 0) (new_node env content type metadata) (nodes g))
          0)%list.
Proof.
  intros [Hfresh Hinj].
  unfold addKnowledge. cbn [snd]. rewrite saveToStorage_edges. cbn [updateMetrics edges].
  unfold createConnections. cbn [nodes].
  rewrite Map_get_set_same. cbn [new_node KnowledgeNode.embedding].
  now rewrite connect_loop_edges.
Qed.

Lemma addKnowledge_nodes content type metadata (g : KnowledgeGraph) :
  nodes (snd (addKnowledge env content type metadata g))
  = map (fun kv =>
           (fst kv,
            add_connections
              (pushed (randomUUID env 0)
                 (linked_keys (randomUUID env 0) (generateEmbedding env content)
                    (JS.Map.set (randomUUID env 0)
                       (new_node env content type metadata) (nodes g)))
                 (fst kv))
              (snd kv)))
        (JS.Map.set (randomUUID env 0) (new_node env content type metadata) (nodes g)).
Proof.
  unfold addKnowledge. cbn [snd]. rewrite saveToStorage_nodes. cbn [updateMetrics nodes].
  unfold createConnections. cbn [nodes].
  rewrite Map_get_set_same. cbn [new_node KnowledgeNode.embedding].
  now rewrite connect_loop_nodes.
Qed.

End Persisting.

(** How many edges an insertion creates towards a stored node. *)
Lemma addKnowledge_edge_count (env : Host) (content : string) (type : NodeType)
      (metadata : Metadata.literal) (g : KnowledgeGraph)
      (m : string) (node_m : KnowledgeNode.t) (e_m : list float) :
  NoDup (JS.Map.keys (nodes g)) ->
  In (m, node_m) (nodes g) -> m <> randomUUID env 0 ->
  KnowledgeNode.embedding node_m = Some e_m ->
  List.length
    (edges_from_to (randomUUID env 0) m
       (created_edges env (randomUUID env 0) (new_node env content type metadata)
          (generateEmbedding env content)
          (JS.Map.set (randomUUID env 0) (new_node env content type metadata) (nodes g))
          0))
  = if PrimFloat.ltb 0.7 (cosineSimilarity (generateEmbedding env content) e_m)
    then 1 else 0.
Proof.
  intros Hnodup Hin Hne Hemb.
  rewrite (created_edges_count env _ _ _ _ (Map_keys_set_NoDup _ _ _ Hnodup) 0 m node_m
             (Map_set_In_other _ _ _ _ _ Hin Hne)).
  unfold linkable. cbn [fst snd]. rewrite Hemb.
  destruct (String.eqb_spec m (randomUUID env 0)) as [|_]; [contradiction|reflexivity].
Qed.

(** C1. Inserting a node [n] (it always carries an embedding [e_n])
    appends edges to the edge map such that, for every other stored node
    [m] with an embedding [e_m]: exactly one new edge leads from [n] to
    [m] when [cosineSimilarity e_n e_m > 0.7] and none otherwise, and any
    such edge has that similarity as its weight.  Every new edge starts
    at [n], ends at another node, and has a weight above 0.7. *)
Theorem addKnowledge_links_above_threshold :
  forall (env : Host) (content : string) (type : NodeType)
         (metadata : Metadata.literal) (g : KnowledgeGraph),
    NoDup (JS.Map.keys (nodes g)) ->
    fresh_edge_ids env g ->
    let n := randomUUID env 0 in
    let e_n := generateEmbedding env content in
    exists created,
      edges (snd (addKnowledge env content type metadata g)) = (edges g ++ created)%list
      /\ (forall m node_m e_m,
             In (m, node_m) (nodes g) -> m <> n ->
             KnowledgeNode.embedding node_m = Some e_m ->
             List.length (edges_from_to n m created)
             = (if PrimFloat.ltb 0.7 (cosineSimilarity e_n e_m) then 1 else 0)
             /\ (forall eid e, In (eid, e) (edges_from_to n m created) ->
                               KnowledgeEdge.weight e = cosineSimilarity e_n e_m))
      /\ (forall eid e, In (eid, e) created ->
                        KnowledgeEdge.source e = n
                        /\ KnowledgeEdge.target e <> n
                        /\ PrimFloat.ltb 0.7 (KnowledgeEdge.weight e) = true).
Proof.
  intros env content type metadata g Hnodup Hfresh n e_n.
  set (node := new_node env content type metadata).
  set (entries := JS.Map.set n node (nodes g)).
  exists (created_edges env n node e_n entries 0).
  split; [exact (addKnowledge_edges env content type metadata g Hfresh)|].
  assert (Hnodup' : NoDup (JS.Map.keys entries)) by now apply Map_keys_set_NoDup.
  split.
  - intros m node_m e_m Hin Hne Hemb.
    assert (Hin' : In (m, node_m) entries) by now apply Map_set_In_other.
    split.
    + exact (addKnowledge_edge_count env content type metadata g m node_m e_m
               Hnodup Hin Hne Hemb).
    + intros eid e He. unfold edges_from_to in He.
      apply filter_In in He. destruct He as [He Hends]. cbn in Hends.
      apply andb_prop in Hends. destruct Hends as [_ Htarget].
      apply String.eqb_eq in Htarget.
      destruct (created_edges_In _ _ _ _ _ _ _ _ He) as (m' & e' & Hm' & _ & _ & Hemb' & Hw & _).
      rewrite Htarget in Hm'.
      rewrite (Map_In_unique entries _ _ _ Hnodup' Hm' Hin') in Hemb'.
      congruence.
  - intros eid e He.
    destruct (created_edges_In _ _ _ _ _ _ _ _ He) as (m' & e' & _ & Hs & Ht & _ & _ & Hw & _).
    now repeat split.
Qed.

Lemma unary_id_inj (prefix : string) (j k : nat) :
  unary_id prefix j = unary_id prefix k -> j = k.
Proof.
  unfold unary_id. induction prefix as [|c prefix IH]; simpl.
  - revert k. induction j as [|j IHj]; intros [|k]; simpl; intros H;
      try discriminate; trivial.
    injection H as H. f_equal. now apply IHj.
  - intros H. injection H as H. now apply IH.
Qed.

Lemma fresh_edge_ids_host_c : fresh_edge_ids host_c graph_two.
Proof.
  split.
  - intros k. vm_compute. intros [H|[]]. discriminate H.
  - intros j k H. apply (unary_id_inj "c") in H. now injection H.
Qed.

Lemma addKnowledge_links_above_threshold_witness :
  NoDup (JS.Map.keys (nodes graph_two))
  /\ fresh_edge_ids host_c graph_two
  /\ exists created,
      edges (snd (addKnowledge host_c "Deep learning" concept Metadata.no_keys graph_two))
      = (edges graph_two ++ created)%list
      /\ List.length (edges_from_to "c" "a" created) = 1
      /\ List.length (edges_from_to "c" "b" created) = 1
      /\ forall eid e, In (eid, e) created -> KnowledgeEdge.target e <> "c"%string.
Proof.
  assert (Hnodup : NoDup (JS.Map.keys (nodes graph_two))).
  { vm_compute. repeat constructor; simpl; intuition discriminate. }
  split; [exact Hnodup|]. split; [exact fresh_edge_ids_host_c|].
  destruct (addKnowledge_links_above_threshold host_c "Deep learning" concept
              Metadata.no_keys graph_two Hnodup fresh_edge_ids_host_c)
    as (created & Hedges & Hcount & Hall).
  exists created. split; [exact Hedges|]. split; [|split].
  - refine (proj1 (Hcount "a"%string _ [1; 0]%float _ _ _)).
    + vm_compute. left. reflexivity.
    + vm_compute. discriminate.
    + reflexivity.
  - refine (proj1 (Hcount "b"%string _ [1; 0]%float _ _ _)).
    + vm_compute. right. left. reflexivity.
    + vm_compute. discriminate.
    + reflexivity.
  - intros eid e He. exact (proj1 (proj2 (Hall eid e He))).
Defined.

(** ** The relationship label *)

Lemma inferRelationship_rule (nodeA nodeB : KnowledgeNode.t) :
  inferRelationship nodeA nodeB
  = relationship_rule (KnowledgeNode.type nodeA) (KnowledgeNode.type nodeB).
Proof.
  unfold inferRelationship.
  now destruct (KnowledgeNode.type nodeA), (KnowledgeNode.type nodeB).
Qed.

(** C6, as stated, fails: a concept inserted after a document with the
    same embedding is linked to it by an edge labelled "connected_to",
    where the rule read on the unordered pair of types gives "contains". *)
Lemma relationship_unordered_counterexample :
  exists eid e source_node target_node,
    edges graph_document_then_concept = [(eid, e)]
    /\ JS.Map.get (KnowledgeEdge.source e) (nodes graph_document_then_concept)
       = Some source_node
    /\ JS.Map.get (KnowledgeEdge.target e) (nodes graph_document_then_concept)
       = Some target_node
    /\ KnowledgeNode.type source_node = concept
    /\ KnowledgeNode.type target_node = document
    /\ KnowledgeEdge.relationship e = "connected_to"%string
    /\ KnowledgeEdge.relationship e
       <> relationship_rule_unordered (KnowledgeNode.type source_node)
                                      (KnowledgeNode.type target_node).
Proof.
  do 4 eexists.
  split; [vm_compute; reflexivity|].
  split; [vm_compute; reflexivity|].
  split; [vm_compute; reflexivity|].
  repeat split; try reflexivity.
  vm_compute. discriminate.
Qed.

(** C6, amended. Every edge created by the insertion of a node leads from
    the inserted node to an existing one, and its label is given by the
    first matching rule on the ordered pair (inserted type, existing
    type): equal types give "similar_to"; an inserted document and an
    existing concept give "contains"; an inserted concept and an existing
    entity give "relates_to"; anything else, the two mirrored pairs
    included, gives "connected_to". *)
Theorem addKnowledge_relationship_is_directional :
  forall (env : Host) (content : string) (type : NodeType)
         (metadata : Metadata.literal) (g : KnowledgeGraph),
    fresh_edge_ids env g ->
    exists created,
      edges (snd (addKnowledge env content type metadata g)) = (edges g ++ created)%list
      /\ forall eid e,
          In (eid, e) created ->
          exists existingNode,
            KnowledgeEdge.source e = randomUUID env 0
            /\ KnowledgeEdge.target e <> randomUUID env 0
            /\ In (KnowledgeEdge.target e, existingNode) (nodes g)
            /\ KnowledgeEdge.relationship e
               = relationship_rule type (KnowledgeNode.type existingNode).
Proof.
  intros env content type metadata g Hfresh.
  eexists. split; [exact (addKnowledge_edges env content type metadata g Hfresh)|].
  intros eid e He.
  destruct (created_edges_In _ _ _ _ _ _ _ _ He)
    as (existingNode & e' & Hin & Hs & Ht & _ & _ & _ & Hrel).
  exists existingNode. repeat split; trivial.
  - apply Map_set_In_inv in Hin. destruct Hin as [[Heq _]|Hin]; [contradiction|exact Hin].
  - now rewrite Hrel, inferRelationship_rule.
Qed.

Lemma addKnowledge_relationship_is_directional_witness :
  fresh_edge_ids host_c graph_two
  /\ exists created,
      edges (snd (addKnowledge host_c "Survey of learning" document
                    Metadata.no_keys graph_two))
      = (edges graph_two ++ created)%list
      /\ forall eid e, In (eid, e) created ->
                       KnowledgeEdge.relationship e = "contains"%string.
Proof.
  split; [exact fresh_edge_ids_host_c|].
  destruct (addKnowledge_relationship_is_directional host_c "Survey of learning"
              document Metadata.no_keys graph_two fresh_edge_ids_host_c)
    as (created & Hedges & Hall).
  exists created. split; [exact Hedges|].
  intros eid e He.
  destruct (Hall eid e He) as (existingNode & _ & _ & Hin & ->).
  vm_compute in Hin.
  destruct Hin as [Hin|[Hin|[]]]; injection Hin as _ <-; reflexivity.
Defined.

(** ** Failure of the embedding pipeline *)

Lemma Map_get_relink (cs : string -> list string) (k : string)
      (m : JS.Map.t KnowledgeNode.t) :
  JS.Map.get k (map (fun kv => (fst kv, add_connections (cs (fst kv)) (snd kv))) m)
  = option_map (add_connections (cs k)) (JS.Map.get k m).
Proof.
  induction m as [|[k0 v0] m IH]; simpl; trivial.
  destruct (String.eqb_spec k0 k) as [->|_]; trivial.
Qed.

Lemma linked_keys_In (nodeId : string) (newEmbedding : list float)
      (entries : JS.Map.t KnowledgeNode.t) (m : string) :
  In m (linked_keys nodeId newEmbedding entries) ->
  exists node_m, In (m, node_m) entries /\ linkable nodeId newEmbedding (m, node_m) = true.
Proof.
  unfold linked_keys. intros Hin. apply in_map_iff in Hin.
  destruct Hin as ([m' node_m] & Heq & Hin). cbn in Heq. subst m'.
  apply filter_In in Hin. now exists node_m.
Qed.

Lemma In_linked_keys (nodeId : string) (newEmbedding : list float)
      (entries : JS.Map.t KnowledgeNode.t) (m : string) (node_m : KnowledgeNode.t) :
  In (m, node_m) entries -> linkable nodeId newEmbedding (m, node_m) = true ->
  In m (linked_keys nodeId newEmbedding entries).
Proof.
  intros Hin Hlink. unfold linked_keys.
  apply in_map_iff. exists (m, node_m). split; trivial.
  apply filter_In. now split.
Qed.

Lemma pushed_not_linked (nodeId : string) (linked : list string) (key : string) :
  key <> nodeId -> ~ In key linked -> pushed nodeId linked key = [].
Proof.
  intros Hne Hnot. unfold pushed.
  destruct (String.eqb_spec key nodeId) as [|_]; [contradiction|].
  rewrite filter_none; trivial.
  intros x Hx. destruct (String.eqb_spec key x) as [->|]; [contradiction|reflexivity].
Qed.

(** C3, as stated, fails: when the pipeline throws during two successive
    insertions, both nodes are stored with a 384-component vector and the
    second one is linked to the first. *)
Lemma failed_embedding_counterexample :
  embedder (example_host "a" 0.75 embedding_fails)
           (String.substring 0 500 "Artificial intelligence") = None
  /\ embedder (example_host "b" 0.9 embedding_fails)
              (String.substring 0 500 "Machine learning") = None
  /\ map (fun kv => (fst kv, option_map (@List.length float)
                                        (KnowledgeNode.embedding (snd kv))))
         (nodes graph_failed_twice)
     = [("a"%string, Some 384); ("b"%string, Some 384)]
  /\ map (fun kv => (KnowledgeEdge.source (snd kv), KnowledgeEdge.target (snd kv)))
         (edges graph_failed_twice)
     = [("b"%string, "a"%string)]
  /\ map (fun kv => (fst kv, KnowledgeNode.connections (snd kv)))
         (nodes graph_failed_twice)
     = [("a"%string, ["b"%string]); ("b"%string, ["a"%string])].
Proof. repeat split; vm_compute; reflexivity. Qed.

(** C3, amended. When the pipeline throws, the inserted node is stored
    with the fabricated vector of 384 values [Math.random() - 0.5] and is
    linked like any other node.  A stored node that has no embedding takes
    no part in linking: the insertion of any other node, whether its own
    embedding is produced or fabricated, leaves it as it was and adds no
    edge that starts or ends at it, and [createConnections] called on it
    changes nothing. *)
Theorem failed_embedding_is_random_and_missing_embedding_is_skipped :
  forall (env : Host) (content : string) (type : NodeType)
         (metadata : Metadata.literal) (g : KnowledgeGraph),
    NoDup (JS.Map.keys (nodes g)) ->
    fresh_edge_ids env g ->
    let n := randomUUID env 0 in
    let g' := snd (addKnowledge env content type metadata g) in
    let fabricated := map (fun i => PrimFloat.sub (Math_random env i) 0.5) (seq 0 384) in
    (embedder env (String.substring 0 500 content) = None ->
     (exists node,
         JS.Map.get n (nodes g') = Some node
         /\ KnowledgeNode.embedding node = Some fabricated)
     /\ (exists created,
           edges g' = (edges g ++ created)%list
           /\ forall m node_m e_m,
               In (m, node_m) (nodes g) -> m <> n ->
               KnowledgeNode.embedding node_m = Some e_m ->
               List.length (edges_from_to n m created)
               = if PrimFloat.ltb 0.7 (cosineSimilarity fabricated e_m) then 1 else 0))
    /\ (forall m node_m,
           In (m, node_m) (nodes g) -> m <> n ->
           KnowledgeNode.embedding node_m = None ->
           In (m, node_m) (nodes g')
           /\ forall eid e,
               In (eid, e) (edges g') ->
               KnowledgeEdge.source e = m \/ KnowledgeEdge.target e = m ->
               In (eid, e) (edges g))
    /\ (forall env' nodeId newNode h,
           JS.Map.get nodeId (nodes h) = Some newNode ->
           KnowledgeNode.embedding newNode = None ->
           createConnections env' nodeId h = h).
Proof.
  intros env content type metadata g Hnodup Hfresh n g' fabricated.
  set (node := new_node env content type metadata).
  set (entries := JS.Map.set n node (nodes g)).
  assert (Hnodup' : NoDup (JS.Map.keys entries)) by now apply Map_keys_set_NoDup.
  split; [|split].
  - intros Hfail.
    assert (Hgen : generateEmbedding env content = fabricated).
    { unfold generateEmbedding. now rewrite Hfail. }
    split.
    + unfold g'. rewrite addKnowledge_nodes, Map_get_relink.
      fold n. rewrite Map_get_set_same. cbn [option_map].
      eexists. split; [reflexivity|].
      cbn [add_connections new_node KnowledgeNode.embedding]. now rewrite Hgen.
    + eexists. split; [exact (addKnowledge_edges env content type metadata g Hfresh)|].
      intros m node_m e_m Hin Hne Hemb. rewrite <- Hgen.
      exact (addKnowledge_edge_count env content type metadata g m node_m e_m
               Hnodup Hin Hne Hemb).
  - intros m node_m Hin Hne Hnone.
    assert (Hin' : In (m, node_m) entries) by now apply Map_set_In_other.
    assert (Hskip : linkable n (generateEmbedding env content) (m, node_m) = false).
    { unfold linkable. cbn [fst snd]. rewrite Hnone. apply andb_false_r. }
    split.
    + unfold g'. rewrite addKnowledge_nodes. fold n node entries.
      apply in_map_iff. exists (m, node_m). split; trivial.
      cbn [fst snd]. rewrite pushed_not_linked, add_connections_nil; trivial.
      intros Hlinked. apply linked_keys_In in Hlinked.
      destruct Hlinked as (node_m' & Hin'' & Hlink).
      rewrite (Map_In_unique entries m node_m' node_m Hnodup' Hin'' Hin') in Hlink.
      congruence.
    + intros eid e He Hends. unfold g' in He.
      rewrite (addKnowledge_edges env content type metadata g Hfresh) in He.
      apply in_app_iff in He. destruct He as [He|He]; trivial. exfalso.
      destruct (created_edges_In _ _ _ _ _ _ _ _ He)
        as (node_t & e_t & Hin_t & Hs & _ & Hemb_t & _).
      destruct Hends as [Hsrc|Htgt].
      * apply Hne. now rewrite <- Hsrc, Hs.
      * rewrite Htgt in Hin_t.
        rewrite (Map_In_unique entries m node_t node_m Hnodup' Hin_t Hin') in Hemb_t.
        congruence.
  - intros env' nodeId newNode h Hget Hnone.
    unfold createConnections. now rewrite Hget, Hnone.
Qed.

Lemma failed_embedding_is_random_and_missing_embedding_is_skipped_witness :
  NoDup (JS.Map.keys (nodes graph_without_embedding))
  /\ fresh_edge_ids host_failing graph_without_embedding
  /\ embedder host_failing (String.substring 0 500 "Fresh note") = None
  /\ In ("x"%string, node_without_embedding)
        (nodes (snd (addKnowledge host_failing "Fresh note" concept
                       Metadata.no_keys graph_without_embedding)))
  /\ exists node,
      JS.Map.get "c"
        (nodes (snd (addKnowledge host_failing "Fresh note" concept
                       Metadata.no_keys graph_without_embedding)))
      = Some node
      /\ option_map (@List.length float) (KnowledgeNode.embedding node) = Some 384.
Proof.
  assert (Hnodup : NoDup (JS.Map.keys (nodes graph_without_embedding))).
  { vm_compute. repeat constructor. intros []. }
  assert (Hfresh : fresh_edge_ids host_failing graph_without_embedding).
  { split.
    - intros k [].
    - intros j k H. apply (unary_id_inj "c") in H. now injection H. }
  assert (Hfail : embedder host_failing (String.substring 0 500 "Fresh note") = None)
    by reflexivity.
  repeat (split; [assumption|]).
  destruct (failed_embedding_is_random_and_missing_embedding_is_skipped
              host_failing "Fresh note" concept Metadata.no_keys
              graph_without_embedding Hnodup Hfresh)
    as (Hfabricated & Hskipped & _).
  destruct (Hfabricated Hfail) as ((node & Hget & Hemb) & _).
  split.
  - refine (proj1 (Hskipped "x"%string node_without_embedding _ _ _)).
    + left. reflexivity.
    + vm_compute. discriminate.
    + reflexivity.
  - exists node. split; [exact Hget|]. rewrite Hemb. reflexivity.
Defined.

(** ** Metrics *)

Lemma Set_from_acc (l : list string) :
  forall acc,
    NoDup acc ->
    NoDup (fold_left JS.Set_add l acc)
    /\ forall x, In x (fold_left JS.Set_add l acc) <-> In x acc \/ In x l.
Proof.
  induction l as [|y l IH]; intros acc Hacc; simpl.
  - split; trivial. intros x. tauto.
  - assert (Hstep : NoDup (JS.Set_add acc y)
                    /\ forall x, In x (JS.Set_add acc y) <-> In x acc \/ y = x).
    { unfold JS.Set_add. destruct (existsb (String.eqb y) acc) eqn:E.
      - split; trivial. intros x. split; [tauto|]. intros [H|<-]; trivial.
        apply existsb_exists in E. destruct E as (z & Hz & Heq).
        apply String.eqb_eq in Heq. now subst z.
      - split.
        + apply NoDup_app; trivial.
          * apply NoDup_cons; [intros []|constructor].
          * intros x Hx [Heq|[]]. subst x.
            assert (existsb (String.eqb y) acc = true); [|congruence].
            apply existsb_exists. exists y. split; trivial. apply String.eqb_refl.
        + intros x. rewrite in_app_iff. simpl. tauto. }
    destruct Hstep as [Hnodup Hmem].
    destruct (IH _ Hnodup) as [H1 H2]. split; trivial.
    intros x. rewrite H2, Hmem. tauto.
Qed.

Lemma reduce_from_fold {A B : Type} (f : B -> A -> B) (l : list A) :
  forall (i : nat) (acc : B),
    JS.reduce_from (fun acc val _ => f acc val) l i acc = fold_left f l acc.
Proof. induction l as [|x l IH]; intros i acc; simpl; trivial. Qed.

Lemma fold_left_ext_In {A B : Type} (f g : B -> A -> B) (l : list A) :
  (forall acc x, In x l -> f acc x = g acc x) ->
  forall acc, fold_left f l acc = fold_left g l acc.
Proof.
  induction l as [|x l IH]; intros H acc; simpl; trivial.
  rewrite (H acc x (or_introl eq_refl)). apply IH.
  intros acc' y Hy. apply H. now right.
Qed.

(** C8, as stated, fails: a node whose domain is missing is counted under
    "unknown". *)
Lemma knowledgeDomains_counterexample :
  map (fun n => Metadata.domain (KnowledgeNode.metadata n))
      (JS.Map.values (nodes graph_undefined_domain)) = [None]
  /\ LearningMetrics.knowledgeDomains (calculateMetrics graph_undefined_domain)
     = ["unknown"%string]
  /\ present_domains (JS.Map.values (nodes graph_undefined_domain)) = []
  /\ LearningMetrics.knowledgeDomains (calculateMetrics graph_undefined_domain)
     <> present_domains (JS.Map.values (nodes graph_undefined_domain)).
Proof.
  repeat split; try (vm_compute; reflexivity).
  vm_compute. discriminate.
Qed.

(** C8, amended. [knowledgeDomains] lists, without repetition, the values
    of [metadata.domain] of the stored nodes, a node whose domain is
    missing (or the empty string) being counted under "unknown". *)
Theorem knowledgeDomains_counts_missing_as_unknown :
  forall g : KnowledgeGraph,
    let ds := LearningMetrics.knowledgeDomains (calculateMetrics g) in
    NoDup ds
    /\ (forall d, In d ds <-> exists k n, In (k, n) (nodes g) /\ domain_or_unknown n = d)
    /\ (forall k n d, In (k, n) (nodes g) ->
                      Metadata.domain (KnowledgeNode.metadata n) = Some d ->
                      d <> EmptyString -> In d ds)
    /\ (forall k n, In (k, n) (nodes g) ->
                    Metadata.domain (KnowledgeNode.metadata n) = None ->
                    In "unknown"%string ds).
Proof.
  intros g ds.
  assert (Hmem : forall d, In d ds <-> exists k n, In (k, n) (nodes g) /\ domain_or_unknown n = d).
  { intros d. unfold ds, calculateMetrics. cbn [LearningMetrics.knowledgeDomains].
    unfold JS.Set_from.
    rewrite (proj2 (Set_from_acc _ [] (NoDup_nil _)) d).
    unfold JS.Map.values. rewrite map_map, in_map_iff. simpl. split.
    - intros [[]|([k n] & Heq & Hin)]. now exists k, n.
    - intros (k & n & Hin & Heq). right. now exists (k, n). }
  split; [|split; [exact Hmem|split]].
  - unfold ds, calculateMetrics. cbn [LearningMetrics.knowledgeDomains].
    apply Set_from_acc. constructor.
  - intros k n d Hin Hdom Hne. apply Hmem. exists k, n. split; trivial.
    unfold domain_or_unknown. rewrite Hdom. simpl. now destruct d.
  - intros k n Hin Hdom. apply Hmem. exists k, n. split; trivial.
    unfold domain_or_unknown. now rewrite Hdom.
Qed.

(** C4, as stated, fails: with no node at all the score is 0, not 0.5. *)
Lemma confidenceScore_empty_counterexample :
  nodes empty_graph = []
  /\ LearningMetrics.confidenceScore (calculateMetrics empty_graph) = 0%float
  /\ LearningMetrics.confidenceScore (calculateMetrics empty_graph) <> 0.5%float.
Proof.
  repeat split.
  intros H. apply (f_equal (fun x => PrimFloat.eqb x 0.5)) in H.
  vm_compute in H. discriminate H.
Qed.

(** A confidence of 0 is replaced by the default as well: the statement
    below is about confidences that are non-zero numbers. *)
Remark confidenceScore_zero_confidence_example :
  map (fun n => Metadata.confidence (KnowledgeNode.metadata n))
      (JS.Map.values (nodes graph_zero_confidence)) = [Some 0%float]
  /\ LearningMetrics.confidenceScore (calculateMetrics graph_zero_confidence)
     = 0.5%float.
Proof. split; vm_compute; reflexivity. Qed.

(** C4, amended. When every confidence that is present is a non-zero
    number, [confidenceScore] is the mean of [metadata.confidence] over
    all nodes, a missing confidence counting as 0.5; on a graph without
    nodes it is 0. *)
Theorem confidenceScore_is_mean_or_zero :
  forall g : KnowledgeGraph,
    (forall k n, In (k, n) (nodes g) -> usable_confidence n) ->
    LearningMetrics.confidenceScore (calculateMetrics g)
    = match nodes g with
      | [] => 0%float
      | _ :: _ => mean_confidence (JS.Map.values (nodes g))
      end.
Proof.
  intros g Husable.
  unfold calculateMetrics. cbn [LearningMetrics.confidenceScore].
  destruct (nodes g) as [|entry rest] eqn:Hnodes; [reflexivity|].
  unfold mean_confidence, JS.reduce. rewrite reduce_from_fold.
  f_equal.
  - apply fold_left_ext_In. intros acc n Hin. f_equal.
    unfold JS.Map.values in Hin. apply in_map_iff in Hin.
    destruct Hin as ([k n'] & Heq & Hin). cbn in Heq. subst n'.
    specialize (Husable k n Hin). unfold usable_confidence in Husable.
    unfold confidence_or_default, JS.number_or.
    destruct (Metadata.confidence (KnowledgeNode.metadata n)) as [c|]; trivial.
    now rewrite (Husable c eq_refl).
  - f_equal. unfold JS.Map.size, JS.Map.values. rewrite length_map.
    simpl List.length. lia.
Qed.

Lemma confidenceScore_is_mean_or_zero_witness :
  (forall k n, In (k, n) (nodes graph_two) -> usable_confidence n)
  /\ LearningMetrics.confidenceScore (calculateMetrics graph_two)
     = mean_confidence (JS.Map.values (nodes graph_two)).
Proof.
  assert (H : forall k n, In (k, n) (nodes graph_two) -> usable_confidence n).
  { intros k n Hin c Hc. vm_compute in Hin.
    destruct Hin as [Hin|[Hin|[]]]; injection Hin as _ <-;
      vm_compute in Hc; injection Hc as <-; reflexivity. }
  split; [exact H|].
  exact (confidenceScore_is_mean_or_zero graph_two H).
Defined.

(** ** Similarity of a zero vector *)

Section ZeroVector.
Local Open Scope float_scope.

Lemma is_zero_zero_or_nan (x : float) : PrimFloat.is_zero x = true -> zero_or_nan x.
Proof.
  unfold PrimFloat.is_zero, zero_or_nan. rewrite FloatAxioms.eqb_spec.
  change (Prim2SF PrimFloat.zero) with (S754_zero false).
  now destruct (Prim2SF x) as [s| [|] | |[|] m e].
Qed.

Lemma mul_zero_or_nan_l (x y : float) : zero_or_nan x -> zero_or_nan (x * y).
Proof.
  unfold zero_or_nan. rewrite FloatAxioms.mul_spec. unfold SF64mul, SFmul.
  now destruct (Prim2SF x), (Prim2SF y).
Qed.

Lemma mul_zero_or_nan_r (x y : float) : zero_or_nan y -> zero_or_nan (x * y).
Proof.
  unfold zero_or_nan. rewrite FloatAxioms.mul_spec. unfold SF64mul, SFmul.
  now destruct (Prim2SF x), (Prim2SF y).
Qed.

Lemma add_zero_or_nan (x y : float) :
  zero_or_nan x -> zero_or_nan y -> zero_or_nan (x + y).
Proof.
  unfold zero_or_nan. rewrite FloatAxioms.add_spec. unfold SF64add, SFadd.
  destruct (Prim2SF x) as [[|]| | |], (Prim2SF y) as [[|]| | |]; simpl; tauto.
Qed.

Lemma sqrt_zero_or_nan (x : float) : zero_or_nan x -> zero_or_nan (sqrt x).
Proof.
  unfold zero_or_nan. rewrite FloatAxioms.sqrt_spec. unfold SF64sqrt, SFsqrt.
  now destruct (Prim2SF x).
Qed.

Lemma div_zero_or_nan (x y : float) :
  zero_or_nan x -> zero_or_nan y -> Prim2SF (x / y) = S754_nan.
Proof.
  unfold zero_or_nan. rewrite FloatAxioms.div_spec. unfold SF64div, SFdiv.
  destruct (Prim2SF x), (Prim2SF y); simpl; tauto.
Qed.

Lemma nan_is_nan (x : float) : Prim2SF x = S754_nan -> PrimFloat.is_nan x = true.
Proof. intros H. unfold PrimFloat.is_nan. now rewrite FloatAxioms.eqb_spec, H. Qed.

Lemma nan_not_above (t x : float) : Prim2SF x = S754_nan -> PrimFloat.ltb t x = false.
Proof.
  intros H. rewrite FloatAxioms.ltb_spec, H. unfold SFltb, SFcompare.
  now destruct (Prim2SF t).
Qed.

Lemma index_number_zero_vector (b : list float) (i : nat) :
  zero_vector b -> zero_or_nan (JS.index_number b i).
Proof.
  intros Hb. unfold JS.index_number. revert i.
  induction Hb as [|x b Hx Hb IH]; intros [|i]; simpl; try exact I.
  - now apply is_zero_zero_or_nan.
  - apply IH.
Qed.

Lemma sum_squares_zero_vector (v : list float) :
  zero_vector v ->
  forall (i : nat) (sum : float),
    zero_or_nan sum ->
    zero_or_nan (JS.reduce_from (fun sum val _ => sum + val * val) v i sum).
Proof.
  induction 1 as [|x v Hx Hv IH]; intros i sum Hsum; simpl; trivial.
  apply IH. apply add_zero_or_nan; trivial.
  apply mul_zero_or_nan_l. now apply is_zero_zero_or_nan.
Qed.

Lemma dot_zero_vector_l (a b : list float) :
  zero_vector a ->
  forall (i : nat) (sum : float),
    zero_or_nan sum ->
    zero_or_nan (JS.reduce_from (fun sum val i => sum + val * JS.index_number b i) a i sum).
Proof.
  induction 1 as [|x a Hx Ha IH]; intros i sum Hsum; simpl; trivial.
  apply IH. apply add_zero_or_nan; trivial.
  apply mul_zero_or_nan_l. now apply is_zero_zero_or_nan.
Qed.

Lemma dot_zero_vector_r (a b : list float) :
  zero_vector b ->
  forall (i : nat) (sum : float),
    zero_or_nan sum ->
    zero_or_nan (JS.reduce_from (fun sum val i => sum + val * JS.index_number b i) a i sum).
Proof.
  intros Hb. induction a as [|x a IH]; intros i sum Hsum; simpl; trivial.
  apply IH. apply add_zero_or_nan; trivial.
  apply mul_zero_or_nan_r. now apply index_number_zero_vector.
Qed.

Lemma cosineSimilarity_zero_vector (a b : list float) :
  zero_vector a \/ zero_vector b -> Prim2SF (cosineSimilarity a b) = S754_nan.
Proof.
  assert (H0 : zero_or_nan 0) by exact I.
  intros [Ha|Hb]; unfold cosineSimilarity, JS.reduce; apply div_zero_or_nan.
  - now apply dot_zero_vector_l.
  - apply mul_zero_or_nan_l, sqrt_zero_or_nan. now apply sum_squares_zero_vector.
  - now apply dot_zero_vector_r.
  - apply mul_zero_or_nan_r, sqrt_zero_or_nan. now apply sum_squares_zero_vector.
Qed.

(** C5, as stated, fails: the similarity of a zero vector with another
    vector is [NaN], not 0. *)
Lemma cosineSimilarity_zero_counterexample :
  zero_vector [0; 0]%float
  /\ PrimFloat.is_nan (cosineSimilarity [0; 0] [1; 2])%float = true
  /\ cosineSimilarity [0; 0]%float [1; 2]%float <> 0%float.
Proof.
  split; [repeat constructor|]. split; [reflexivity|].
  intros H. apply (f_equal PrimFloat.is_nan) in H.
  vm_compute in H. discriminate H.
Qed.

(** A vector that is not zero but whose squares underflow has a computed
    magnitude of 0, and its similarity can be [Infinity]: the statement
    below is about zero vectors. *)
Remark cosineSimilarity_underflow_example :
  cosineSimilarity [1e-200]%float [1e150]%float = PrimFloat.infinity
  /\ PrimFloat.sqrt (JS.reduce (fun sum val _ => sum + val * val) [1e-200] 0)%float
     = 0%float.
Proof. split; reflexivity. Qed.

(** C5, amended. When one of the two vectors is a zero vector, the
    similarity computation raises nothing and yields [NaN]; [NaN] is not
    above the threshold, so the loop of [createConnections] creates no
    edge between the corresponding nodes. *)
Theorem zero_vector_similarity_is_nan_and_links_nothing :
  forall a b : list float,
    zero_vector a \/ zero_vector b ->
    PrimFloat.is_nan (cosineSimilarity a b) = true
    /\ PrimFloat.ltb 0.7 (cosineSimilarity a b) = false
    /\ forall (env : Host) (nodeId : string) (newNode : KnowledgeNode.t)
              (acc : KnowledgeGraph * nat)
              (existingId : string) (existingNode : KnowledgeNode.t),
        KnowledgeNode.embedding existingNode = Some b ->
        connect env nodeId newNode a acc (existingId, existingNode) = acc.
Proof.
  intros a b Hzero.
  pose proof (cosineSimilarity_zero_vector a b Hzero) as Hnan.
  split; [now apply nan_is_nan|].
  split; [now apply nan_not_above|].
  intros env nodeId newNode acc existingId existingNode Hemb.
  apply connect_not_linkable. unfold linkable. cbn [fst snd].
  rewrite Hemb, (nan_not_above _ _ Hnan). apply andb_false_r.
Qed.

Lemma zero_vector_similarity_is_nan_and_links_nothing_witness :
  (zero_vector [0; -0; 0]%float \/ zero_vector [3; 4; 5]%float)
  /\ PrimFloat.is_nan (cosineSimilarity [0; -0; 0] [3; 4; 5])%float = true.
Proof.
  assert (H : zero_vector [0; -0; 0]%float \/ zero_vector [3; 4; 5]%float).
  { left. repeat constructor. }
  split; [exact H|].
  exact (proj1 (zero_vector_similarity_is_nan_and_links_nothing _ _ H)).
Defined.

End ZeroVector.

(** ** Symmetry of connections *)

Lemma edge_between_sym (g : KnowledgeGraph) (a b : string) :
  edge_between g a b -> edge_between g b a.
Proof.
  intros (eid & e & Hin & Hjoin). exists eid, e. split; trivial.
  unfold joins in *. tauto.
Qed.

Lemma agree_sym (g : KnowledgeGraph) (a : string) (na : KnowledgeNode.t)
      (b : string) (nb : KnowledgeNode.t) :
  agree g a na b nb -> agree g b nb a na.
Proof.
  intros [H1 H2]. split; [|tauto].
  split.
  - intros H. apply H2, H1. now apply edge_between_sym.
  - intros H. apply edge_between_sym, H1, H2, H.
Qed.

Lemma In_relinked (cs : string -> list string) (entries : JS.Map.t KnowledgeNode.t)
      (a : string) (na' : KnowledgeNode.t) :
  In (a, na') (map (fun kv => (fst kv, add_connections (cs (fst kv)) (snd kv))) entries)
  <-> exists na, In (a, na) entries /\ na' = add_connections (cs a) na.
Proof.
  rewrite in_map_iff. split.
  - intros ([k v] & Heq & Hin). cbn in Heq. injection Heq as -> <-. now exists v.
  - intros (na & Hin & ->). now exists (a, na).
Qed.

Lemma keys_relinked (cs : string -> list string) (entries : JS.Map.t KnowledgeNode.t) :
  JS.Map.keys (map (fun kv => (fst kv, add_connections (cs (fst kv)) (snd kv))) entries)
  = JS.Map.keys entries.
Proof. unfold JS.Map.keys. rewrite map_map. now apply map_ext. Qed.

Lemma In_pushed_other (n : string) (linked : list string) (a x : string) :
  a <> n -> (In x (pushed n linked a) <-> x = n /\ In a linked).
Proof.
  intros Hne. unfold pushed.
  destruct (String.eqb_spec a n) as [|_]; [contradiction|].
  rewrite in_map_iff. split.
  - intros (y & <- & Hy). apply filter_In in Hy. destruct Hy as [Hy Heq].
    apply String.eqb_eq in Heq. now subst y.
  - intros [-> Hin]. exists a. split; trivial.
    apply filter_In. split; trivial. apply String.eqb_refl.
Qed.

Lemma pushed_self (n : string) (linked : list string) : pushed n linked n = linked.
Proof. unfold pushed. now rewrite String.eqb_refl. Qed.

Section CreatedAndLinked.
Variable env : Host.
Variable nodeId : string.
Variable newNode : KnowledgeNode.t.
Variable newEmbedding : list float.

Lemma created_edge_is_linked (entries : JS.Map.t KnowledgeNode.t) :
  forall (k : nat) (eid : string) (e : KnowledgeEdge.t),
    In (eid, e) (created_edges env nodeId newNode newEmbedding entries k) ->
    KnowledgeEdge.source e = nodeId
    /\ In (KnowledgeEdge.target e) (linked_keys nodeId newEmbedding entries).
Proof.
  unfold linked_keys.
  induction entries as [|entry rest IH]; intros k eid e Hin; [destruct Hin|].
  cbn [created_edges filter] in *.
  destruct (linkable nodeId newEmbedding entry).
  - destruct Hin as [Heq|Hin].
    + injection Heq as _ <-. cbn. split; trivial. now left.
    + destruct (IH _ _ _ Hin) as [Hs Ht]. split; trivial. now right.
  - now apply (IH k eid e).
Qed.

Lemma linked_has_created_edge (entries : JS.Map.t KnowledgeNode.t) :
  forall (k : nat) (m : string),
    In m (linked_keys nodeId newEmbedding entries) ->
    exists eid e,
      In (eid, e) (created_edges env nodeId newNode newEmbedding entries k)
      /\ KnowledgeEdge.source e = nodeId /\ KnowledgeEdge.target e = m.
Proof.
  unfold linked_keys.
  induction entries as [|entry rest IH]; intros k m Hin; [destruct Hin|].
  cbn [created_edges filter] in *.
  destruct (linkable nodeId newEmbedding entry).
  - destruct Hin as [Heq|Hin].
    + do 2 eexists. split; [left; reflexivity|]. cbn. now split.
    + destruct (IH (S k) m Hin) as (eid & e & He & Hs & Ht).
      exists eid, e. split; [now right|now split].
  - now apply IH.
Qed.

End CreatedAndLinked.

Lemma linked_key_is_other_entry (nodeId : string) (newEmbedding : list float)
      (entries : JS.Map.t KnowledgeNode.t) (m : string) :
  In m (linked_keys nodeId newEmbedding entries) ->
  m <> nodeId /\ In m (JS.Map.keys entries).
Proof.
  intros Hin. apply linked_keys_In in Hin. destruct Hin as (node_m & Hin & Hlink).
  split.
  - unfold linkable in Hlink. cbn in Hlink.
    destruct (String.eqb_spec m nodeId); [discriminate|trivial].
  - apply (in_map fst) in Hin. exact Hin.
Qed.

Section InsertionPreservesSymmetry.
Variable env : Host.
Variable content : string.
Variable type : NodeType.
Variable metadata : Metadata.literal.
Variable g : KnowledgeGraph.
Hypothesis Hclosed : closed_graph g.
Hypothesis Hsym : connections_symmetric g.
Hypothesis Hnode : fresh_node_id env g.
Hypothesis Hedge : fresh_edge_ids env g.

Let n := randomUUID env 0.
Let node := new_node env content type metadata.
Let e_n := generateEmbedding env content.
Let entries := JS.Map.set n node (nodes g).
Let linked := linked_keys n e_n entries.
Let created := created_edges env n node e_n entries 0.
Let g' := snd (addKnowledge env content type metadata g).

Lemma inserted_entries : entries = (nodes g ++ [(n, node)])%list.
Proof. apply Map_set_fresh. exact Hnode. Qed.

Lemma inserted_nodes :
  nodes g' = map (fun kv => (fst kv, add_connections (pushed n linked (fst kv)) (snd kv)))
                 entries.
Proof. apply addKnowledge_nodes. Qed.

Lemma inserted_edges : edges g' = (edges g ++ created)%list.
Proof. apply addKnowledge_edges. exact Hedge. Qed.

Lemma inserted_keys : JS.Map.keys (nodes g') = (JS.Map.keys (nodes g) ++ [n])%list.
Proof.
  rewrite inserted_nodes, keys_relinked, inserted_entries.
  unfold JS.Map.keys. now rewrite map_app.
Qed.

Lemma linked_is_old (m : string) :
  In m linked -> m <> n /\ In m (JS.Map.keys (nodes g)).
Proof.
  intros Hin. apply linked_key_is_other_entry in Hin. destruct Hin as [Hne Hin].
  split; trivial. fold entries in Hin. rewrite inserted_entries in Hin.
  unfold JS.Map.keys in Hin. rewrite map_app, in_app_iff in Hin.
  destruct Hin as [Hin|[Heq|[]]]; trivial. cbn in Heq. now symmetry in Heq.
Qed.

Lemma inserted_node_inv (a : string) (na' : KnowledgeNode.t) :
  In (a, na') (nodes g') ->
  (a <> n /\ exists na, In (a, na) (nodes g)
                        /\ na' = add_connections (pushed n linked a) na)
  \/ (a = n /\ KnowledgeNode.connections na' = linked).
Proof.
  rewrite inserted_nodes, In_relinked. intros (na & Hin & ->).
  rewrite inserted_entries in Hin. apply in_app_iff in Hin.
  destruct Hin as [Hin|[Heq|[]]].
  - left. split; [|now exists na].
    intros ->. apply Hnode. apply (in_map fst) in Hin. exact Hin.
  - injection Heq as <- <-. right. split; trivial.
    now rewrite pushed_self.
Qed.

Lemma old_connection_is_old (a : string) (na : KnowledgeNode.t) (b : string) :
  In (a, na) (nodes g) -> In b (KnowledgeNode.connections na) -> b <> n.
Proof.
  intros Hin Hb ->. destruct Hclosed as (_ & Hconn & _).
  apply Hnode. exact (Hconn a na n Hin Hb).
Qed.

Lemma old_edge_is_old (eid : string) (e : KnowledgeEdge.t) :
  In (eid, e) (edges g) -> KnowledgeEdge.source e <> n /\ KnowledgeEdge.target e <> n.
Proof.
  intros Hin. destruct Hclosed as (_ & _ & Hends).
  destruct (Hends eid e Hin) as [Hs Ht].
  split; intros Heq; apply Hnode; unfold fresh_node_id; fold n; now rewrite <- Heq.
Qed.

Lemma edge_between_old (a b : string) :
  a <> n -> b <> n -> (edge_between g' a b <-> edge_between g a b).
Proof.
  intros Ha Hb. unfold edge_between. rewrite inserted_edges. split.
  - intros (eid & e & Hin & Hjoin). apply in_app_iff in Hin.
    destruct Hin as [Hin|Hin]; [now exists eid, e|]. exfalso.
    apply created_edge_is_linked in Hin. destruct Hin as [Hs _].
    unfold joins in Hjoin. destruct Hjoin as [[H _]|[H _]]; congruence.
  - intros (eid & e & Hin & Hjoin). exists eid, e. split; trivial.
    apply in_app_iff. now left.
Qed.

Lemma edge_between_new (b : string) :
  b <> n -> (edge_between g' n b <-> In b linked).
Proof.
  intros Hb. unfold edge_between. rewrite inserted_edges. split.
  - intros (eid & e & Hin & Hjoin). apply in_app_iff in Hin.
    destruct Hin as [Hin|Hin].
    + exfalso. destruct (old_edge_is_old eid e Hin) as [Hs Ht].
      unfold joins in Hjoin. destruct Hjoin as [[H _]|[_ H]]; congruence.
    + apply created_edge_is_linked in Hin. destruct Hin as [Hs Ht].
      unfold joins in Hjoin. destruct Hjoin as [[_ H]|[H _]]; [now rewrite <- H|].
      congruence.
  - intros Hin.
    destruct (linked_has_created_edge env n node e_n entries 0 b Hin)
      as (eid & e & He & Hs & Ht).
    exists eid, e. split; [apply in_app_iff; now right|]. left. now split.
Qed.

Lemma agree_new_old (na' : KnowledgeNode.t) (b : string) (nb' : KnowledgeNode.t) :
  In (n, na') (nodes g') -> In (b, nb') (nodes g') -> b <> n -> agree g' n na' b nb'.
Proof.
  intros Ha Hb Hne.
  destruct (inserted_node_inv _ _ Ha) as [[Habs _]|[_ Hna]]; [contradiction|].
  destruct (inserted_node_inv _ _ Hb) as [[_ (nb & Hin & ->)]|[Habs _]]; [|contradiction].
  unfold agree. rewrite Hna, (edge_between_new b Hne).
  split; [tauto|].
  cbn [add_connections KnowledgeNode.connections].
  rewrite in_app_iff, (In_pushed_other n linked b n Hne). split.
  - intros H. right. now split.
  - intros [H|[_ H]]; trivial.
    exfalso. exact (old_connection_is_old b nb n Hin H eq_refl).
Qed.

Lemma agree_old_old (a : string) (na' : KnowledgeNode.t) (b : string) (nb' : KnowledgeNode.t) :
  In (a, na') (nodes g') -> In (b, nb') (nodes g') ->
  a <> n -> b <> n -> a <> b -> agree g' a na' b nb'.
Proof.
  intros Ha Hb Han Hbn Hab.
  destruct (inserted_node_inv _ _ Ha) as [[_ (na & Hina & ->)]|[Habs _]]; [|contradiction].
  destruct (inserted_node_inv _ _ Hb) as [[_ (nb & Hinb & ->)]|[Habs _]]; [|contradiction].
  destruct (Hsym a na b nb Hina Hinb Hab) as [H1 H2].
  unfold agree. rewrite (edge_between_old a b Han Hbn).
  cbn [add_connections KnowledgeNode.connections].
  rewrite !in_app_iff, (In_pushed_other n linked a b Han),
    (In_pushed_other n linked b a Hbn).
  split; split; intros H; try tauto;
    destruct H as [H|[H _]]; solve [tauto | contradiction | congruence].
Qed.

Lemma addKnowledge_symmetric : connections_symmetric g'.
Proof.
  intros a na' b nb' Ha Hb Hab. change (agree g' a na' b nb').
  destruct (String.eqb_spec a n) as [->|Han].
  - apply agree_new_old; trivial. intros ->. now apply Hab.
  - destruct (String.eqb_spec b n) as [->|Hbn].
    + apply agree_sym, agree_new_old; trivial.
    + now apply agree_old_old.
Qed.

Lemma addKnowledge_closed : closed_graph g'.
Proof.
  destruct Hclosed as (Hnodup & Hconn & Hends).
  split; [|split].
  - rewrite inserted_keys. apply NoDup_app; trivial.
    + apply NoDup_cons; [intros []|constructor].
    + intros x Hx [Heq|[]]. subst x. now apply Hnode.
  - intros a na' b Ha Hb. rewrite inserted_keys, in_app_iff.
    destruct (inserted_node_inv _ _ Ha) as [[Han (na & Hin & ->)]|[-> Hna]].
    + cbn [add_connections KnowledgeNode.connections] in Hb.
      rewrite in_app_iff, (In_pushed_other n linked a b Han) in Hb.
      destruct Hb as [Hb|[-> _]]; [left; exact (Hconn a na b Hin Hb)|right; now left].
    + rewrite Hna in Hb. left. now apply linked_is_old.
  - intros eid e He. rewrite inserted_edges in He. rewrite inserted_keys, !in_app_iff.
    apply in_app_iff in He. destruct He as [He|He].
    + destruct (Hends eid e He). tauto.
    + apply created_edge_is_linked in He. destruct He as [Hs Ht].
      split; [right; left; now symmetry|left; now apply linked_is_old].
Qed.

End InsertionPreservesSymmetry.

Lemma In_modify {V : Type} (k : string) (f : V -> V) (m : JS.Map.t V) (a : string) (v' : V) :
  In (a, v') (JS.Map.modify k f m) ->
  exists v, In (a, v) m /\ (v' = v \/ v' = f v).
Proof.
  unfold JS.Map.modify. rewrite in_map_iff.
  intros ([a0 v] & Heq & Hin). cbn in Heq.
  destruct (String.eqb a0 k); injection Heq as -> <-; exists v; tauto.
Qed.

Lemma same_connections_preserve (g g' : KnowledgeGraph) :
  JS.Map.keys (nodes g') = JS.Map.keys (nodes g) ->
  edges g' = edges g ->
  (forall a na', In (a, na') (nodes g') ->
                 exists na, In (a, na) (nodes g)
                            /\ KnowledgeNode.connections na' = KnowledgeNode.connections na) ->
  closed_graph g /\ connections_symmetric g ->
  closed_graph g' /\ connections_symmetric g'.
Proof.
  intros Hkeys Hedges Hnodes [(Hnodup & Hconn & Hends) Hsym].
  split; [split; [|split]|].
  - now rewrite Hkeys.
  - intros a na' b Ha Hb. rewrite Hkeys.
    destruct (Hnodes a na' Ha) as (na & Hin & Heq). rewrite Heq in Hb.
    exact (Hconn a na b Hin Hb).
  - intros eid e He. rewrite Hkeys. rewrite Hedges in He. exact (Hends eid e He).
  - intros a na' b nb' Ha Hb Hab.
    destruct (Hnodes a na' Ha) as (na & Hina & Heqa).
    destruct (Hnodes b nb' Hb) as (nb & Hinb & Heqb).
    unfold edge_between. rewrite Hedges, Heqa, Heqb.
    exact (Hsym a na b nb Hina Hinb Hab).
Qed.

Lemma reinforceKnowledge_preserves (env : Host) (nodeId : string) (feedback : Feedback)
      (g : KnowledgeGraph) :
  closed_graph g /\ connections_symmetric g ->
  closed_graph (reinforceKnowledge env nodeId feedback g)
  /\ connections_symmetric (reinforceKnowledge env nodeId feedback g).
Proof.
  unfold reinforceKnowledge.
  destruct (JS.Map.get nodeId (nodes g)) as [node|]; trivial.
  apply same_connections_preserve.
  - rewrite saveToStorage_nodes. cbn [nodes]. apply Map_keys_modify.
  - now rewrite saveToStorage_edges.
  - intros a na' Hin. rewrite saveToStorage_nodes in Hin. cbn [nodes] in Hin.
    apply In_modify in Hin. destruct Hin as (na & Hin & [->| ->]); exists na; now split.
Qed.

Lemma reachable_closed_symmetric (g : KnowledgeGraph) :
  reachable g -> closed_graph g /\ connections_symmetric g.
Proof.
  induction 1 as [|env content type metadata g Hreach [Hclosed Hsym] Hnode Hedge
                  |env nodeId feedback g Hreach IH].
  - split.
    + split; [constructor|]. split; intros; contradiction.
    + intros a na b nb [].
  - split.
    + now apply addKnowledge_closed.
    + now apply addKnowledge_symmetric.
  - now apply reinforceKnowledge_preserves.
Qed.

(** C2. In every graph built from the empty one by insertions (with
    linking) and reinforcements, for any two distinct stored nodes [a] and
    [b]: an edge with endpoints [a] and [b] exists if and only if [b] is in
    the connections of [a], if and only if [a] is in the connections of
    [b]. *)
Theorem reachable_connections_symmetric :
  forall g : KnowledgeGraph,
    reachable g ->
    forall a na b nb,
      In (a, na) (nodes g) -> In (b, nb) (nodes g) -> a <> b ->
      (edge_between g a b <-> In b (KnowledgeNode.connections na))
      /\ (In b (KnowledgeNode.connections na) <-> In a (KnowledgeNode.connections nb)).
Proof.
  intros g Hreach. exact (proj2 (reachable_closed_symmetric g Hreach)).
Qed.

Lemma fresh_ids_on_empty (prefix : string) (random : float)
      (embed : string -> option (list float)) (g : KnowledgeGraph) :
  edges g = [] -> fresh_edge_ids (example_host prefix random embed) g.
Proof.
  intros Hedges. split.
  - intros k. rewrite Hedges. intros [].
  - intros j k H. apply (unary_id_inj prefix) in H. now injection H.
Qed.

Lemma reachable_graph_two_reinforced : reachable graph_two_reinforced.
Proof.
  apply reach_reinforceKnowledge, reach_addKnowledge;
    [apply reach_addKnowledge; [apply reach_empty| |]| |].
  - intros [].
  - now apply fresh_ids_on_empty.
  - vm_compute. intros [H|[]]. discriminate H.
  - now apply fresh_ids_on_empty.
Qed.

Lemma reachable_connections_symmetric_witness :
  reachable graph_two_reinforced
  /\ edge_between graph_two_reinforced "a" "b".
Proof.
  split; [exact reachable_graph_two_reinforced|].
  assert (Ha : exists na, In ("a"%string, na) (nodes graph_two_reinforced)
                          /\ KnowledgeNode.connections na = ["b"%string]).
  { eexists. split; [vm_compute; left; reflexivity|reflexivity]. }
  assert (Hb : exists nb, In ("b"%string, nb) (nodes graph_two_reinforced)).
  { eexists. vm_compute. right. left. reflexivity. }
  destruct Ha as (na & Hina & Hca), Hb as (nb & Hinb).
  assert (Hne : "a"%string <> "b"%string) by discriminate.
  apply (proj1 (reachable_connections_symmetric graph_two_reinforced
                  reachable_graph_two_reinforced "a"%string na "b"%string nb
                  Hina Hinb Hne)).
  rewrite Hca. now left.
Defined.

(** ** Reinforcement *)

Section Clamping.
Local Open Scope float_scope.

Lemma is_nan_false_iff (x : float) :
  PrimFloat.is_nan x = false <-> Prim2SF x <> S754_nan.
Proof.
  unfold PrimFloat.is_nan. rewrite FloatAxioms.eqb_spec. unfold SFeqb, SFcompare.
  destruct (Prim2SF x) as [s|[|]| |[|] m e]; simpl;
    rewrite ?Z.compare_refl, ?Pos.compare_cont_refl; simpl;
    split; intros H; trivial; try discriminate; try congruence.
Qed.

Lemma SFcompare_antisym (x y : spec_float) :
  SFcompare y x = option_map CompOpp (SFcompare x y).
Proof.
  destruct x as [sx|[|]| |[|] mx ex], y as [sy|[|]| |[|] my ey]; simpl; trivial;
    pose proof (Pos.compare_cont_antisym mx my Eq) as HP; simpl in HP;
    rewrite (Z.compare_antisym ex ey);
    destruct (ex ?= ey)%Z; simpl; trivial;
    rewrite <- HP; now destruct (Pos.compare_cont Eq mx my).
Qed.

Lemma SFcompare_defined (x y : spec_float) :
  x <> S754_nan -> y <> S754_nan -> exists c, SFcompare x y = Some c.
Proof.
  destruct x as [sx|[|]| |[|] mx ex], y as [sy|[|]| |[|] my ey]; simpl;
    intros Hx Hy; try congruence; eexists; reflexivity.
Qed.

Lemma leb_refl (x : float) : PrimFloat.is_nan x = false -> (x <=? x) = true.
Proof.
  unfold PrimFloat.is_nan. rewrite FloatAxioms.eqb_spec, FloatAxioms.leb_spec.
  unfold SFeqb, SFleb. now destruct (SFcompare (Prim2SF x) (Prim2SF x)) as [[| |]|].
Qed.

Lemma ltb_leb (x y : float) : (x <? y) = true -> (x <=? y) = true.
Proof.
  rewrite FloatAxioms.ltb_spec, FloatAxioms.leb_spec. unfold SFltb, SFleb.
  now destruct (SFcompare (Prim2SF x) (Prim2SF y)) as [[| |]|].
Qed.

Lemma not_ltb_leb (x y : float) :
  PrimFloat.is_nan x = false -> PrimFloat.is_nan y = false ->
  (x <? y) = false -> (y <=? x) = true.
Proof.
  rewrite !is_nan_false_iff, FloatAxioms.ltb_spec, FloatAxioms.leb_spec.
  unfold SFltb, SFleb. intros Hx Hy.
  rewrite (SFcompare_antisym (Prim2SF x) (Prim2SF y)).
  destruct (SFcompare_defined _ _ Hx Hy) as [c ->]. now destruct c.
Qed.

Lemma Math_min_bound (hi x : float) :
  PrimFloat.is_nan hi = false -> PrimFloat.is_nan x = false ->
  (JS.Math_min hi x <=? hi) = true
  /\ (JS.Math_min hi x = hi \/ JS.Math_min hi x = x).
Proof.
  intros Hhi Hx. unfold JS.Math_min. rewrite Hhi, Hx. cbn [orb].
  destruct (hi <? x) eqn:E1; [split; [now apply leb_refl|now left]|].
  destruct (x <? hi) eqn:E2; [split; [now apply ltb_leb|now right]|].
  destruct (classify hi); (split; [|tauto]);
    solve [now apply leb_refl | now apply not_ltb_leb].
Qed.

Lemma Math_max_bound (lo y : float) :
  PrimFloat.is_nan lo = false -> PrimFloat.is_nan y = false ->
  (lo <=? JS.Math_max lo y) = true
  /\ (JS.Math_max lo y = lo \/ JS.Math_max lo y = y).
Proof.
  intros Hlo Hy. unfold JS.Math_max. rewrite Hlo, Hy. cbn [orb].
  destruct (lo <? y) eqn:E1; [split; [now apply ltb_leb|now right]|].
  destruct (y <? lo) eqn:E2; [split; [now apply leb_refl|now left]|].
  destruct (classify lo); (split; [|tauto]);
    solve [now apply leb_refl | now apply not_ltb_leb].
Qed.

Lemma leb_not_nan (x y : float) :
  (x <=? y) = true -> PrimFloat.is_nan x = false /\ PrimFloat.is_nan y = false.
Proof.
  rewrite !is_nan_false_iff, FloatAxioms.leb_spec. unfold SFleb, SFcompare.
  destruct (Prim2SF x) as [sx|[|]| |[|] mx ex], (Prim2SF y) as [sy|[|]| |[|] my ey];
    intros H; split; congruence.
Qed.

(** Clamping a number that is not [NaN] lands in the interval. *)
Lemma clamp_in_range (lo hi x : float) :
  (lo <=? hi) = true -> PrimFloat.is_nan x = false ->
  in_range lo hi (JS.Math_max lo (JS.Math_min hi x)).
Proof.
  intros Hle Hx. destruct (leb_not_nan lo hi Hle) as [Hlo Hhi].
  destruct (Math_min_bound hi x Hhi Hx) as [Hmin Hmin'].
  assert (Hy : PrimFloat.is_nan (JS.Math_min hi x) = false)
    by (destruct Hmin' as [-> | ->]; trivial).
  destruct (Math_max_bound lo _ Hlo Hy) as [Hmax [Heq|Heq]].
  - split; trivial. now rewrite Heq.
  - split; trivial. now rewrite Heq.
Qed.

Lemma iter_pos_preserves {A : Type} (P : A -> Prop) (f : A -> A) :
  (forall x, P x -> P (f x)) -> forall p x, P x -> P (SpecFloat.iter_pos f p x).
Proof.
  intros Hf. induction p as [p IH|p IH|]; intros x Hx; simpl; auto.
Qed.

Lemma shr_fexp_nonneg (m e : Z) (l : location) :
  (0 <= m)%Z -> (0 <= shr_m (fst (shr_fexp prec emax m e l)))%Z.
Proof.
  intros Hm. unfold shr_fexp, shr.
  assert (H0 : (0 <= shr_m (shr_record_of_loc m l))%Z)
    by (destruct l as [|[| |]]; exact Hm).
  destruct (fexp prec emax (Zdigits2 m + e) - e)%Z; trivial. cbn [fst].
  apply (iter_pos_preserves (fun r => (0 <= shr_m r)%Z)); trivial.
  intros [m' r s] H. simpl in *.
  destruct m' as [|[q|q|]|q]; simpl; lia.
Qed.

Lemma binary_round_aux_not_nan (sx : bool) (mx ex : Z) (lx : location) :
  (0 <= mx)%Z -> binary_round_aux prec emax sx mx ex lx <> S754_nan.
Proof.
  intros Hm. unfold binary_round_aux.
  pose proof (shr_fexp_nonneg mx ex lx Hm) as H1.
  destruct (shr_fexp prec emax mx ex lx) as [mrs' e']. cbn [fst] in H1.
  assert (H2 : (0 <= round_nearest_even (shr_m mrs') (loc_of_shr_record mrs'))%Z).
  { unfold round_nearest_even.
    destruct (loc_of_shr_record mrs') as [|[| |]]; trivial;
      try destruct (Z.even (shr_m mrs')); lia. }
  pose proof (shr_fexp_nonneg _ e' loc_Exact H2) as H3.
  destruct (shr_fexp prec emax _ e' loc_Exact) as [mrs'' e'']. cbn [fst] in H3.
  destruct (shr_m mrs'') as [|q|q]; try discriminate; [|lia].
  destruct (e'' <=? emax - prec)%Z; discriminate.
Qed.

Lemma binary_normalize_not_nan (m e : Z) (szero : bool) :
  binary_normalize prec emax m e szero <> S754_nan.
Proof.
  unfold binary_normalize, binary_round.
  destruct m as [|q|q]; [discriminate| |];
    destruct (shl_align q e _) as [mz ez]; now apply binary_round_aux_not_nan.
Qed.

(** Adding a finite number to a number that is not [NaN] does not give [NaN]. *)
Lemma add_finite_not_nan (x c : float) :
  PrimFloat.is_nan x = false ->
  (exists s m e, Prim2SF c = S754_finite s m e) ->
  PrimFloat.is_nan (x + c) = false.
Proof.
  rewrite !is_nan_false_iff, FloatAxioms.add_spec. intros Hx (s & m & e & ->).
  unfold SF64add, SFadd.
  destruct (Prim2SF x) as [sx|[|]| |sx mx ex]; try discriminate; try congruence.
  apply binary_normalize_not_nan.
Qed.

Lemma adjustment_finite (feedback : Feedback) :
  exists s m e,
    Prim2SF (match feedback with fb_positive => 0.1 | fb_negative => -0.1 end)
    = S754_finite s m e.
Proof. destruct feedback; do 3 eexists; reflexivity. Qed.

(** The part of C7 that holds: after reinforcement the weight of a node
    whose weight was a number lies in [0.1, 2.0], and a confidence that
    was a non-zero number lies in [0.1, 1.0]. *)
Lemma reinforce_node_in_range (feedback : Feedback) (node : KnowledgeNode.t) :
  (PrimFloat.is_nan (KnowledgeNode.weight node) = false ->
   in_range 0.1 2.0 (KnowledgeNode.weight (reinforce_node feedback node)))
  /\ (forall c,
         Metadata.confidence (KnowledgeNode.metadata node) = Some c ->
         JS.truthy_number c = true ->
         exists c',
           Metadata.confidence (KnowledgeNode.metadata (reinforce_node feedback node))
           = Some c'
           /\ in_range 0.1 1.0 c').
Proof.
  split.
  - intros Hw. cbn [reinforce_node KnowledgeNode.weight].
    apply clamp_in_range; [reflexivity|].
    apply add_finite_not_nan; trivial. apply adjustment_finite.
  - intros c Hc Htruthy.
    cbn [reinforce_node KnowledgeNode.metadata Metadata.confidence].
    rewrite Hc, Htruthy. eexists. split; [reflexivity|].
    apply clamp_in_range; [reflexivity|].
    apply add_finite_not_nan; [|apply adjustment_finite].
    unfold JS.truthy_number in Htruthy.
    now destruct (PrimFloat.is_zero c), (PrimFloat.is_nan c).
Qed.

Lemma in_range_truthy (hi c : float) : in_range 0.1 hi c -> JS.truthy_number c = true.
Proof.
  intros [Hlo _]. destruct (leb_not_nan _ _ Hlo) as [_ Hnan].
  unfold JS.truthy_number, PrimFloat.is_zero. rewrite Hnan, orb_false_r.
  rewrite FloatAxioms.leb_spec in Hlo. rewrite FloatAxioms.eqb_spec.
  change (Prim2SF 0.1) with (S754_finite false 7205759403792794 (-56)) in Hlo.
  change (Prim2SF PrimFloat.zero) with (S754_zero false).
  unfold SFleb, SFeqb, SFcompare in *.
  now destruct (Prim2SF c) as [sc|[|]| |[|] mc ec].
Qed.

(** Reinforcement keeps weights within [0.1, 2.0] and confidences within
    [0.1, 1.0]. *)
Lemma reinforceKnowledge_keeps_ranges (env : Host) (nodeId : string)
      (feedback : Feedback) (g : KnowledgeGraph) :
  weights_in_range g /\ confidences_in_range g ->
  weights_in_range (reinforceKnowledge env nodeId feedback g)
  /\ confidences_in_range (reinforceKnowledge env nodeId feedback g).
Proof.
  intros [Hw Hc]. unfold reinforceKnowledge.
  destruct (JS.Map.get nodeId (nodes g)) as [node|]; [|now split].
  split.
  - intros k n' Hin. rewrite saveToStorage_nodes in Hin. cbn [nodes] in Hin.
    apply In_modify in Hin. destruct Hin as (n & Hin & [->| ->]); [now apply (Hw k)|].
    apply reinforce_node_in_range.
    exact (proj1 (leb_not_nan _ _ (proj2 (Hw k n Hin)))).
  - intros k n' c' Hin Hc'. rewrite saveToStorage_nodes in Hin. cbn [nodes] in Hin.
    apply In_modify in Hin. destruct Hin as (n & Hin & [->| ->]); [now apply (Hc k n)|].
    destruct (Metadata.confidence (KnowledgeNode.metadata n)) as [c|] eqn:Hconf.
    + destruct (proj2 (reinforce_node_in_range feedback n) c Hconf
                  (in_range_truthy _ _ (Hc k n c Hin Hconf))) as (c'' & Heq & Hrange).
      congruence.
    + cbn [reinforce_node KnowledgeNode.metadata Metadata.confidence] in Hc'.
      rewrite Hconf in Hc'. discriminate.
Qed.

(** Insertion creates a node of weight 1 and changes no weight. *)
Lemma addKnowledge_keeps_weights (env : Host) (content : string) (type : NodeType)
      (metadata : Metadata.literal) (g : KnowledgeGraph) :
  weights_in_range g ->
  weights_in_range (snd (addKnowledge env content type metadata g)).
Proof.
  intros Hw k n' Hin. rewrite addKnowledge_nodes in Hin.
  apply In_relinked in Hin. destruct Hin as (n & Hin & ->).
  cbn [add_connections KnowledgeNode.weight].
  apply Map_set_In_inv in Hin. destruct Hin as [[_ ->]|Hin]; [|now apply (Hw k)].
  split; reflexivity.
Qed.

Lemma reachable_weights_in_range (g : KnowledgeGraph) :
  reachable g -> weights_in_range g.
Proof.
  induction 1 as [|env content type metadata g Hreach IH Hnode Hedge
                  |env nodeId feedback g Hreach IH].
  - intros k n [].
  - now apply addKnowledge_keeps_weights.
  - unfold reinforceKnowledge.
    destruct (JS.Map.get nodeId (nodes g)) as [node|]; trivial.
    intros k n' Hin. rewrite saveToStorage_nodes in Hin. cbn [nodes] in Hin.
    apply In_modify in Hin. destruct Hin as (n & Hin & [->| ->]); [now apply (IH k)|].
    apply reinforce_node_in_range.
    exact (proj1 (leb_not_nan _ _ (proj2 (IH k n Hin)))).
Qed.

(** C7 at a confidence of 0, which the page passes for a research result
    of relevance 0: positive feedback moves the weight from 1 to 1.1 but
    leaves the confidence at 0, outside [0.1, 1.0], where adding the delta
    and clamping would give 0.1. *)
Theorem reinforceKnowledge_leaves_zero_confidence :
  map (fun kv => (fst kv, KnowledgeNode.weight (snd kv),
                  Metadata.confidence (KnowledgeNode.metadata (snd kv))))
      (nodes graph_zero_confidence)
  = [("a"%string, 1, Some 0)]
  /\ map (fun kv => (fst kv, KnowledgeNode.weight (snd kv),
                     Metadata.confidence (KnowledgeNode.metadata (snd kv))))
         (nodes (reinforceKnowledge host_c "a" fb_positive graph_zero_confidence))
     = [("a"%string, 1.1, Some 0)]
  /\ JS.Math_max 0.1 (JS.Math_min 1.0 (0 + 0.1)) = 0.1
  /\ (0.1 <=? 0) = false.
Proof. repeat split; vm_compute; reflexivity. Qed.

End Clamping.


(** * Further properties of the engine *)

(** ** Identifiers and edges of the graphs the engine builds *)

Lemma created_edges_keys (env : Host) (nodeId : string) (newNode : KnowledgeNode.t)
      (newEmbedding : list float) (entries : JS.Map.t KnowledgeNode.t) :
  forall (k : nat) (eid : string) (e : KnowledgeEdge.t),
    In (eid, e) (created_edges env nodeId newNode newEmbedding entries k) ->
    KnowledgeEdge.id e = eid /\ exists j, k <= j /\ eid = randomUUID env (S j).
Proof.
  induction entries as [|entry rest IH]; intros k eid e Hin; [destruct Hin|].
  cbn [created_edges] in Hin.
  destruct (linkable nodeId newEmbedding entry).
  - destruct Hin as [Heq|Hin].
    + injection Heq as <- <-. split; trivial. exists k. split; [lia|trivial].
    + destruct (IH _ _ _ Hin) as [Hid (j & Hj & Heq)].
      split; trivial. exists j. split; [lia|trivial].
  - now apply IH.
Qed.

Lemma created_edges_keys_NoDup (env : Host) (nodeId : string) (newNode : KnowledgeNode.t)
      (newEmbedding : list float) (entries : JS.Map.t KnowledgeNode.t) :
  (forall i j, randomUUID env (S i) = randomUUID env (S j) -> i = j) ->
  forall k, NoDup (JS.Map.keys (created_edges env nodeId newNode newEmbedding entries k)).
Proof.
  intros Hinj. induction entries as [|entry rest IH]; intros k; [constructor|].
  cbn [created_edges]. destruct (linkable nodeId newEmbedding entry); [|apply IH].
  cbn. constructor; [|apply IH].
  intros Hin. apply in_map_iff in Hin. destruct Hin as ([eid e] & Heq & Hin).
  cbn in Heq. subst eid.
  destruct (created_edges_keys _ _ _ _ _ _ _ _ Hin) as [_ (j & Hj & Heq)].
  apply Hinj in Heq. lia.
Qed.

(** Stored under their own identifier, with distinct endpoints. *)
Lemma reachable_identifiers (g : KnowledgeGraph) :
  reachable g ->
  (forall k n, In (k, n) (nodes g) -> KnowledgeNode.id n = k)
  /\ (forall k e, In (k, e) (edges g) ->
                  KnowledgeEdge.id e = k
                  /\ KnowledgeEdge.source e <> KnowledgeEdge.target e)
  /\ NoDup (JS.Map.keys (edges g)).
Proof.
  induction 1 as [|env content type metadata g Hreach (Hn & He & Hk) Hnode Hedge
                  |env nodeId feedback g Hreach (Hn & He & Hk)].
  - split; [intros k n []|]. split; [intros k e []|constructor].
  - split; [|split].
    + intros k n' Hin. rewrite addKnowledge_nodes in Hin.
      apply In_relinked in Hin. destruct Hin as (n & Hin & ->).
      cbn [add_connections KnowledgeNode.id].
      apply Map_set_In_inv in Hin. destruct Hin as [[-> ->]|Hin]; [reflexivity|].
      now apply Hn.
    + intros k e Hin. rewrite (addKnowledge_edges _ _ _ _ _ Hedge) in Hin.
      apply in_app_iff in Hin. destruct Hin as [Hin|Hin]; [now apply He|].
      split; [exact (proj1 (created_edges_keys _ _ _ _ _ _ _ _ Hin))|].
      destruct (created_edges_In _ _ _ _ _ _ _ _ Hin) as (_ & _ & _ & Hs & Ht & _).
      congruence.
    + rewrite (addKnowledge_edges _ _ _ _ _ Hedge).
      unfold JS.Map.keys. rewrite map_app. apply NoDup_app; trivial.
      * apply created_edges_keys_NoDup. exact (proj2 Hedge).
      * intros x Hx Hx'. apply in_map_iff in Hx'.
        destruct Hx' as ([eid e] & Heq & Hin). cbn in Heq. subst eid.
        destruct (created_edges_keys _ _ _ _ _ _ _ _ Hin) as [_ (j & _ & ->)].
        exact (proj1 Hedge j Hx).
  - unfold reinforceKnowledge.
    destruct (JS.Map.get nodeId (nodes g)) as [node|]; [|exact (conj Hn (conj He Hk))].
    rewrite saveToStorage_nodes, saveToStorage_edges. cbn [nodes edges].
    split; [|exact (conj He Hk)].
    intros k n' Hin. apply In_modify in Hin.
    destruct Hin as (n & Hin & [->| ->]); [now apply Hn|].
    cbn [reinforce_node KnowledgeNode.id]. now apply Hn.
Qed.

Lemma key_has_entry {V : Type} (m : JS.Map.t V) (k : string) :
  In k (JS.Map.keys m) -> exists v, In (k, v) m.
Proof.
  intros Hin. apply in_map_iff in Hin. destruct Hin as ([k' v] & Heq & Hin).
  cbn in Heq. subst k'. now exists v.
Qed.

(** X1. In every graph built from the empty one by insertions and
    reinforcements, what [getGraphData] returns is a well-formed graph:
    the node ids are pairwise distinct, the edge ids are pairwise
    distinct, and the source and the target of every edge are the ids of
    two different returned nodes. *)
Theorem getGraphData_edges_resolve :
  forall g : KnowledgeGraph,
    reachable g ->
    NoDup (map KnowledgeNode.id (fst (getGraphData g)))
    /\ NoDup (map KnowledgeEdge.id (snd (getGraphData g)))
    /\ forall e,
        In e (snd (getGraphData g)) ->
        KnowledgeEdge.source e <> KnowledgeEdge.target e
        /\ (exists s, In s (fst (getGraphData g))
                      /\ KnowledgeNode.id s = KnowledgeEdge.source e)
        /\ (exists t, In t (fst (getGraphData g))
                      /\ KnowledgeNode.id t = KnowledgeEdge.target e).
Proof.
  intros g Hreach.
  destruct (reachable_closed_symmetric g Hreach) as [(Hnodup & _ & Hends) _].
  destruct (reachable_identifiers g Hreach) as (Hn & He & Hk).
  unfold getGraphData, JS.Map.values. cbn [fst snd]. rewrite !map_map.
  assert (Hresolve : forall k, In k (JS.Map.keys (nodes g)) ->
                               exists s, In s (map snd (nodes g)) /\ KnowledgeNode.id s = k).
  { intros k Hin. destruct (key_has_entry _ _ Hin) as [s Hs].
    exists s. split; [now apply (in_map snd) in Hs|now apply Hn]. }
  split; [|split].
  - rewrite (map_ext_in _ fst); [exact Hnodup|].
    intros [k n] Hin. now apply Hn.
  - rewrite (map_ext_in _ fst); [exact Hk|].
    intros [k e] Hin. now apply He.
  - intros e Hin. apply in_map_iff in Hin. destruct Hin as ([k e'] & Heq & Hin).
    cbn in Heq. subst e'.
    destruct (Hends k e Hin) as [Hs Ht].
    split; [exact (proj2 (He k e Hin))|]. split; now apply Hresolve.
Qed.

Lemma getGraphData_edges_resolve_witness :
  reachable graph_two_reinforced
  /\ map KnowledgeNode.id (fst (getGraphData graph_two_reinforced))
     = ["a"%string; "b"%string]
  /\ NoDup (map KnowledgeNode.id (fst (getGraphData graph_two_reinforced))).
Proof.
  split; [exact reachable_graph_two_reinforced|]. split; [reflexivity|].
  exact (proj1 (getGraphData_edges_resolve _ reachable_graph_two_reinforced)).
Defined.

(** ** Degrees and multiplicity of edges *)

Section CreatedCounts.
Variable env : Host.
Variable nodeId : string.
Variable newNode : KnowledgeNode.t.
Variable newEmbedding : list float.

Lemma created_incident_count (a : string) (entries : JS.Map.t KnowledgeNode.t) :
  a <> nodeId ->
  forall k,
    List.length (filter (incident a)
                   (created_edges env nodeId newNode newEmbedding entries k))
    = List.length (filter (String.eqb a) (linked_keys nodeId newEmbedding entries)).
Proof.
  intros Hne. unfold linked_keys.
  induction entries as [|entry rest IH]; intros k; trivial.
  cbn [created_edges filter map].
  destruct (linkable nodeId newEmbedding entry); [|apply IH].
  cbn [filter map fst]. unfold incident at 1.
  cbn [snd KnowledgeEdge.source KnowledgeEdge.target].
  destruct (String.eqb_spec nodeId a) as [Heq|_]; [now symmetry in Heq|].
  cbn [orb]. rewrite (String.eqb_sym a (fst entry)).
  destruct (String.eqb (fst entry) a); cbn [List.length]; now rewrite IH.
Qed.

Lemma created_all_incident (entries : JS.Map.t KnowledgeNode.t) :
  forall k,
    List.length (filter (incident nodeId)
                   (created_edges env nodeId newNode newEmbedding entries k))
    = List.length (linked_keys nodeId newEmbedding entries).
Proof.
  unfold linked_keys.
  induction entries as [|entry rest IH]; intros k; trivial.
  cbn [created_edges filter map].
  destruct (linkable nodeId newEmbedding entry); [|apply IH].
  cbn [filter map]. unfold incident at 1.
  cbn [snd KnowledgeEdge.source]. rewrite String.eqb_refl.
  cbn [orb List.length]. now rewrite IH.
Qed.

Lemma edges_from_to_at_most_one (entries : JS.Map.t KnowledgeNode.t) (m : string) (k : nat) :
  NoDup (JS.Map.keys entries) ->
  List.length (edges_from_to nodeId m
                 (created_edges env nodeId newNode newEmbedding entries k)) <= 1.
Proof.
  intros Hnodup.
  destruct (in_dec string_dec m (JS.Map.keys entries)) as [Hin|Hout].
  - destruct (key_has_entry _ _ Hin) as [node_m Hm].
    rewrite (created_edges_count env nodeId newNode newEmbedding entries Hnodup k m node_m Hm).
    destruct (linkable nodeId newEmbedding (m, node_m)); lia.
  - rewrite edges_from_to_absent; trivial. simpl. lia.
Qed.

Lemma created_joins_pair (entries : JS.Map.t KnowledgeNode.t) (a b : string) (k : nat) :
  NoDup (JS.Map.keys entries) ->
  List.length (filter (joins_pair a b)
                 (created_edges env nodeId newNode newEmbedding entries k)) <= 1
  /\ (a <> nodeId -> b <> nodeId ->
      filter (joins_pair a b)
        (created_edges env nodeId newNode newEmbedding entries k) = []).
Proof.
  intros Hnodup.
  set (created := created_edges env nodeId newNode newEmbedding entries k).
  assert (Hsrc : forall kv, In kv created ->
                            KnowledgeEdge.source (snd kv) = nodeId
                            /\ KnowledgeEdge.target (snd kv) <> nodeId).
  { intros [eid e] Hin.
    destruct (created_edges_In _ _ _ _ _ _ _ _ Hin) as (_ & _ & _ & Hs & Ht & _).
    now split. }
  split.
  - destruct (String.eqb_spec a nodeId) as [->|Ha].
    + rewrite (filter_ext_in (joins_pair nodeId b)
                 (fun kv => String.eqb (KnowledgeEdge.source (snd kv)) nodeId
                            && String.eqb (KnowledgeEdge.target (snd kv)) b)).
      * apply edges_from_to_at_most_one; trivial.
      * intros kv Hin. destruct (Hsrc kv Hin) as [Hs Ht]. unfold joins_pair.
        rewrite Hs, String.eqb_refl.
        destruct (String.eqb_spec (KnowledgeEdge.target (snd kv)) nodeId) as [|_];
          [contradiction|].
        now rewrite andb_false_r, orb_false_r.
    + rewrite (filter_ext_in (joins_pair a b)
                 (fun kv => String.eqb (KnowledgeEdge.source (snd kv)) nodeId
                            && String.eqb (KnowledgeEdge.target (snd kv)) a
                            && String.eqb nodeId b)).
      * destruct (String.eqb nodeId b).
        -- rewrite (filter_ext _ (fun kv =>
                      String.eqb (KnowledgeEdge.source (snd kv)) nodeId
                      && String.eqb (KnowledgeEdge.target (snd kv)) a)).
           ++ apply edges_from_to_at_most_one; trivial.
           ++ intros kv. now rewrite andb_true_r.
        -- rewrite filter_none; [simpl; lia|]. intros kv _. now rewrite andb_false_r.
      * intros kv Hin. destruct (Hsrc kv Hin) as [Hs Ht]. unfold joins_pair.
        rewrite Hs, String.eqb_refl.
        destruct (String.eqb_spec nodeId a) as [Heq|_]; [now symmetry in Heq|].
        cbn [andb orb]. now rewrite andb_comm.
  - intros Ha Hb. apply filter_none. intros kv Hin.
    destruct (Hsrc kv Hin) as [Hs _]. unfold joins_pair. rewrite Hs.
    destruct (String.eqb_spec nodeId a) as [Heq|_]; [now symmetry in Heq|].
    destruct (String.eqb_spec nodeId b) as [Heq|_]; [now symmetry in Heq|].
    reflexivity.
Qed.

End CreatedCounts.

Lemma NoDup_keys_filter {V : Type} (f : string * V -> bool) (m : JS.Map.t V) :
  NoDup (JS.Map.keys m) -> NoDup (map fst (filter f m)).
Proof.
  induction m as [|kv m IH]; intros Hnodup; [constructor|].
  cbn in Hnodup. apply NoDup_cons_iff in Hnodup. destruct Hnodup as [Hhd Htl].
  cbn [filter]. destruct (f kv); [|now apply IH].
  cbn. constructor; [|now apply IH].
  intros Hin. apply Hhd. apply in_map_iff in Hin.
  destruct Hin as (kv' & Heq & Hin). apply filter_In in Hin.
  apply in_map_iff. exists kv'. now split.
Qed.

Lemma reachable_degree (g : KnowledgeGraph) :
  reachable g ->
  forall a na,
    In (a, na) (nodes g) ->
    List.length (KnowledgeNode.connections na)
    = List.length (filter (incident a) (edges g)).
Proof.
  induction 1 as [|env content type metadata g Hreach IH Hnode Hedge
                  |env nodeId feedback g Hreach IH].
  - intros a na [].
  - intros a na' Hin.
    destruct (reachable_closed_symmetric g Hreach) as [Hclosed _].
    rewrite (addKnowledge_edges _ _ _ _ _ Hedge), filter_app, length_app.
    destruct (inserted_node_inv env content type metadata g Hnode a na' Hin)
      as [[Hne (na & Hina & ->)]|[-> Hconn]].
    + cbn [add_connections KnowledgeNode.connections].
      rewrite length_app, (IH a na Hina). f_equal.
      rewrite created_incident_count by exact Hne.
      unfold pushed. destruct (String.eqb_spec a (randomUUID env 0)) as [|_];
        [contradiction|].
      now rewrite length_map.
    + rewrite Hconn, created_all_incident, filter_none; trivial.
      intros [eid e] He.
      destruct (old_edge_is_old env g Hclosed Hnode eid e He) as [Hs Ht].
      unfold incident. cbn [snd].
      destruct (String.eqb_spec (KnowledgeEdge.source e) (randomUUID env 0));
        [contradiction|].
      destruct (String.eqb_spec (KnowledgeEdge.target e) (randomUUID env 0));
        [contradiction|reflexivity].
  - unfold reinforceKnowledge.
    destruct (JS.Map.get nodeId (nodes g)) as [node|]; trivial.
    intros a na' Hin. rewrite saveToStorage_nodes in Hin. rewrite saveToStorage_edges.
    cbn [nodes edges] in *. apply In_modify in Hin.
    destruct Hin as (na & Hin & [->| ->]); [now apply IH|].
    cbn [reinforce_node KnowledgeNode.connections]. now apply IH.
Qed.

Lemma pushed_once (n a : string) (l : list string) :
  NoDup l -> NoDup (map (fun _ : string => n) (filter (String.eqb a) l)).
Proof.
  induction 1 as [|x l Hx Hl IHl]; [constructor|].
  cbn [filter]. destruct (String.eqb_spec a x) as [<-|_]; trivial.
  cbn. constructor; trivial.
  rewrite filter_none; [intros []|].
  intros y Hy. destruct (String.eqb_spec a y) as [<-|_]; [contradiction|reflexivity].
Qed.

Lemma reachable_connections_NoDup (g : KnowledgeGraph) :
  reachable g ->
  forall a na,
    In (a, na) (nodes g) ->
    NoDup (KnowledgeNode.connections na) /\ ~ In a (KnowledgeNode.connections na).
Proof.
  induction 1 as [|env content type metadata g Hreach IH Hnode Hedge
                  |env nodeId feedback g Hreach IH].
  - intros a na [].
  - intros a na' Hin.
    destruct (reachable_closed_symmetric g Hreach) as [Hclosed _].
    assert (Hlinked : NoDup (linked_keys (randomUUID env 0) (generateEmbedding env content)
                               (JS.Map.set (randomUUID env 0)
                                  (new_node env content type metadata) (nodes g)))).
    { apply NoDup_keys_filter, Map_keys_set_NoDup. exact (proj1 Hclosed). }
    destruct (inserted_node_inv env content type metadata g Hnode a na' Hin)
      as [[Hne (na & Hina & ->)]|[-> Hconn]].
    + destruct (IH a na Hina) as [Hnd Hself].
      cbn [add_connections KnowledgeNode.connections]. split.
      * apply NoDup_app; trivial.
        -- unfold pushed. destruct (String.eqb_spec a (randomUUID env 0)) as [|_];
             [contradiction|].
           now apply pushed_once.
        -- intros x Hx Hx'. apply In_pushed_other in Hx'; trivial.
           destruct Hx' as [-> _].
           exact (old_connection_is_old env g Hclosed Hnode a na _ Hina Hx eq_refl).
      * rewrite in_app_iff. intros [H|H]; [now apply Hself|].
        apply In_pushed_other in H; trivial. destruct H as [H _]. contradiction.
    + rewrite Hconn. split; trivial.
      intros Hself. now apply (linked_is_old env content type metadata g Hnode) in Hself.
  - unfold reinforceKnowledge.
    destruct (JS.Map.get nodeId (nodes g)) as [node|]; trivial.
    intros a na' Hin. rewrite saveToStorage_nodes in Hin.
    cbn [nodes] in Hin. apply In_modify in Hin.
    destruct Hin as (na & Hin & [->| ->]); [now apply IH|].
    cbn [reinforce_node KnowledgeNode.connections]. now apply IH.
Qed.

(** X3. The engine never links the same two nodes twice: in every graph
    built from the empty one by insertions and reinforcements, at most one
    edge has a given pair of endpoints, whatever its direction. *)
Theorem reachable_at_most_one_edge_per_pair :
  forall g : KnowledgeGraph,
    reachable g ->
    forall a b, List.length (filter (joins_pair a b) (edges g)) <= 1.
Proof.
  induction 1 as [|env content type metadata g Hreach IH Hnode Hedge
                  |env nodeId feedback g Hreach IH].
  - intros a b. simpl. lia.
  - intros a b.
    destruct (reachable_closed_symmetric g Hreach) as [Hclosed _].
    rewrite (addKnowledge_edges _ _ _ _ _ Hedge), filter_app, length_app.
    pose proof (Map_keys_set_NoDup (randomUUID env 0)
                  (new_node env content type metadata) (nodes g) (proj1 Hclosed)) as Hnd.
    destruct (created_joins_pair env (randomUUID env 0)
                (new_node env content type metadata) (generateEmbedding env content)
                _ a b 0 Hnd) as [Hle Hnone].
    destruct (String.eqb_spec a (randomUUID env 0)) as [Ha|Ha];
      [|destruct (String.eqb_spec b (randomUUID env 0)) as [Hb|Hb]].
    + rewrite filter_none; [exact Hle|]. intros [eid e] He.
      destruct (old_edge_is_old env g Hclosed Hnode eid e He) as [Hs Ht].
      unfold joins_pair. cbn [snd]. rewrite Ha.
      destruct (String.eqb_spec (KnowledgeEdge.source e) (randomUUID env 0));
        [contradiction|].
      destruct (String.eqb_spec (KnowledgeEdge.target e) (randomUUID env 0));
        [contradiction|].
      now rewrite andb_false_r.
    + rewrite filter_none; [exact Hle|]. intros [eid e] He.
      destruct (old_edge_is_old env g Hclosed Hnode eid e He) as [Hs Ht].
      unfold joins_pair. cbn [snd]. rewrite Hb.
      destruct (String.eqb_spec (KnowledgeEdge.source e) (randomUUID env 0));
        [contradiction|].
      destruct (String.eqb_spec (KnowledgeEdge.target e) (randomUUID env 0));
        [contradiction|].
      now rewrite andb_false_r.
    + rewrite (Hnone Ha Hb). specialize (IH a b). simpl. lia.
  - unfold reinforceKnowledge.
    destruct (JS.Map.get nodeId (nodes g)) as [node|]; trivial.
    intros a b. rewrite saveToStorage_edges. apply IH.
Qed.

Lemma filter_length_zero {A : Type} (f : A -> bool) (l : list A) :
  List.length (filter f l) = 0 <-> forall x, In x l -> f x = false.
Proof.
  induction l as [|x l IH]; simpl.
  - split; trivial. intros _ x [].
  - destruct (f x) eqn:E; simpl.
    + split; [discriminate|]. intros H. specialize (H x (or_introl eq_refl)). congruence.
    + rewrite IH. split.
      * intros H y [<-|Hy]; auto.
      * intros H y Hy. apply H. now right.
Qed.

(** X2. In every graph built from the empty one by insertions and
    reinforcements, the [connections] of a stored node list each neighbour
    once and never the node itself, and there are as many of them as there
    are edges that start or end at the node; so the list is empty exactly
    when no edge touches the node. *)
Theorem reachable_connections_count_incident_edges :
  forall g : KnowledgeGraph,
    reachable g ->
    forall a na,
      In (a, na) (nodes g) ->
      List.length (KnowledgeNode.connections na)
      = List.length (filter (incident a) (edges g))
      /\ (KnowledgeNode.connections na = []
          <-> forall kv, In kv (edges g) -> incident a kv = false)
      /\ NoDup (KnowledgeNode.connections na)
      /\ ~ In a (KnowledgeNode.connections na).
Proof.
  intros g Hreach a na Hin.
  pose proof (reachable_degree g Hreach a na Hin) as Hdeg.
  split; [exact Hdeg|]. split; [|exact (reachable_connections_NoDup g Hreach a na Hin)].
  rewrite <- filter_length_zero, <- Hdeg.
  destruct (KnowledgeNode.connections na); simpl; split; trivial; discriminate.
Qed.

Lemma reachable_connections_count_incident_edges_witness :
  reachable graph_two_reinforced
  /\ exists na,
      In ("a"%string, na) (nodes graph_two_reinforced)
      /\ List.length (filter (incident "a") (edges graph_two_reinforced)) = 1.
Proof.
  split; [exact reachable_graph_two_reinforced|].
  assert (Ha : exists na, In ("a"%string, na) (nodes graph_two_reinforced)
                          /\ KnowledgeNode.connections na = ["b"%string]).
  { eexists. split; [vm_compute; left; reflexivity|reflexivity]. }
  destruct Ha as (na & Hin & Hconn). exists na. split; [exact Hin|].
  rewrite <- (proj1 (reachable_connections_count_incident_edges _
                       reachable_graph_two_reinforced "a"%string na Hin)).
  now rewrite Hconn.
Defined.


Lemma reachable_at_most_one_edge_per_pair_witness :
  reachable graph_two_reinforced
  /\ List.length (filter (joins_pair "b" "a") (edges graph_two_reinforced)) <= 1.
Proof.
  split; [exact reachable_graph_two_reinforced|].
  exact (reachable_at_most_one_edge_per_pair _ reachable_graph_two_reinforced
           "b"%string "a"%string).
Defined.

(** ** The metrics history *)

Lemma kept_history {A : Type} (h : list A) (m : A) :
  let h1 := (h ++ [m])%list in
  let h' := if (100 <? List.length h1)%nat
            then skipn (List.length h1 - 100) h1 else h1 in
  List.length h' = Nat.min (S (List.length h)) 100
  /\ last (map Some h') None = Some m
  /\ exists dropped, h1 = (dropped ++ h')%list.
Proof.
  intros h1 h'. unfold h', h1. rewrite length_app. cbn [List.length].
  replace (List.length h + 1) with (S (List.length h)) by lia.
  destruct (Nat.ltb_spec 100 (S (List.length h))) as [Hlt|Hle].
  - split; [rewrite length_skipn, length_app; cbn [List.length]; lia|]. split.
    + rewrite skipn_app.
      replace (S (List.length h) - 100 - List.length h) with 0 by lia.
      rewrite skipn_0, map_app. cbn [map]. apply last_last.
    + exists (firstn (S (List.length h) - 100) (h ++ [m])).
      now rewrite firstn_skipn.
  - split; [rewrite length_app; cbn [List.length]; lia|]. split.
    + rewrite map_app. cbn [map]. apply last_last.
    + now exists [].
Qed.

Lemma updateMetrics_history_last (g : KnowledgeGraph) :
  List.length (learningHistory (updateMetrics g))
  = Nat.min (S (List.length (learningHistory g))) 100
  /\ last (map Some (learningHistory (updateMetrics g))) None
     = Some (calculateMetrics g)
  /\ exists dropped,
      (learningHistory g ++ [calculateMetrics g])%list
      = (dropped ++ learningHistory (updateMetrics g))%list.
Proof.
  destruct (kept_history (learningHistory g) (calculateMetrics g)) as (H1 & H2 & H3).
  unfold updateMetrics. cbn [learningHistory]. now repeat split.
Qed.

(** X4. [updateMetrics] appends the fresh snapshot and then keeps the
    last hundred entries: whatever the history was, the new history has
    [min (length + 1) 100] entries, its last entry is the snapshot just
    computed, it is the end of the old history followed by that snapshot,
    and nodes and edges are not touched. *)
Theorem updateMetrics_appends_and_bounds :
  forall g : KnowledgeGraph,
    List.length (learningHistory (updateMetrics g))
    = Nat.min (S (List.length (learningHistory g))) 100
    /\ last (map Some (learningHistory (updateMetrics g))) None
       = Some (calculateMetrics g)
    /\ (exists dropped,
          (learningHistory g ++ [calculateMetrics g])%list
          = (dropped ++ learningHistory (updateMetrics g))%list)
    /\ nodes (updateMetrics g) = nodes g
    /\ edges (updateMetrics g) = edges g.
Proof.
  intros g.
  destruct (kept_history (learningHistory g) (calculateMetrics g)) as (H1 & H2 & H3).
  unfold updateMetrics. cbn [learningHistory nodes edges]. now repeat split.
Qed.

Lemma last_counts_step (n : nat) (h : list Z) :
  h = last_counts n ->
  (let h1 := (h ++ [Z.of_nat (S n)])%list in
   if (100 <? List.length h1)%nat then skipn (List.length h1 - 100) h1 else h1)
  = last_counts (S n).
Proof.
  intros ->. unfold last_counts. cbn zeta.
  rewrite length_app, length_map, length_skipn, length_seq. cbn [List.length].
  rewrite (seq_S n 1). cbn [Nat.add].
  destruct (Nat.ltb_spec 100 (n - (n - 100) + 1)) as [Hlt|Hle].
  - replace (n - (n - 100) + 1 - 100) with 1 by lia.
    rewrite skipn_app, length_map, length_skipn, length_seq.
    replace (1 - (n - (n - 100))) with 0 by lia.
    rewrite skipn_0, skipn_map, skipn_skipn.
    rewrite (skipn_app (S n - 100)), length_seq.
    replace (S n - 100 - n) with 0 by lia.
    rewrite skipn_0, map_app. cbn [map].
    now replace (1 + (n - 100)) with (S n - 100) by lia.
  - replace (n - 100) with 0 by lia. replace (S n - 100) with 0 by lia.
    rewrite !skipn_0, map_app. reflexivity.
Qed.

Section LoopKeepsHistory.
Variable env : Host.
Variable nodeId : string.
Variable newNode : KnowledgeNode.t.
Variable newEmbedding : list float.

Lemma connect_loop_history (entries : JS.Map.t KnowledgeNode.t) :
  forall (g : KnowledgeGraph) (k : nat),
    learningHistory (fst (fold_left (connect env nodeId newNode newEmbedding) entries (g, k)))
    = learningHistory g
    /\ storage (fst (fold_left (connect env nodeId newNode newEmbedding) entries (g, k)))
       = storage g.
Proof.
  induction entries as [|entry rest IH]; intros g k; [now split|].
  cbn [fold_left].
  destruct (linkable nodeId newEmbedding entry) eqn:Hlink.
  - destruct (connect_linkable env nodeId newNode newEmbedding g k entry Hlink)
      as [edge [_ ->]].
    destruct (IH (mkGraph
            (JS.Map.modify (fst entry) (KnowledgeNode.push_connection nodeId)
               (JS.Map.modify nodeId (KnowledgeNode.push_connection (fst entry)) (nodes g)))
            (JS.Map.set (randomUUID env (S k)) edge (edges g))
            (learningHistory g) (storage g)) (S k)) as [H1 H2].
    now rewrite H1, H2.
  - rewrite (connect_not_linkable env nodeId newNode newEmbedding (g, k) entry Hlink).
    apply IH.
Qed.

End LoopKeepsHistory.

Lemma createConnections_history (env : Host) (nodeId : string) (g : KnowledgeGraph) :
  learningHistory (createConnections env nodeId g) = learningHistory g
  /\ storage (createConnections env nodeId g) = storage g.
Proof.
  unfold createConnections.
  destruct (JS.Map.get nodeId (nodes g)) as [newNode|]; [|now split].
  destruct (KnowledgeNode.embedding newNode) as [e|]; [|now split].
  apply connect_loop_history.
Qed.

Lemma saveToStorage_history (env : Host) (g : KnowledgeGraph) :
  learningHistory (saveToStorage env g) = learningHistory g.
Proof. unfold saveToStorage. now destruct (setItem_ok env). Qed.

(** The history after an insertion, in terms of the graph just linked. *)
Lemma addKnowledge_history (env : Host) content type metadata (g : KnowledgeGraph) :
  let linked :=
    createConnections env (randomUUID env 0)
      (mkGraph (JS.Map.set (randomUUID env 0) (new_node env content type metadata) (nodes g))
               (edges g) (learningHistory g) (storage g)) in
  learningHistory (snd (addKnowledge env content type metadata g))
  = learningHistory (updateMetrics linked)
  /\ learningHistory linked = learningHistory g
  /\ nodes linked = nodes (snd (addKnowledge env content type metadata g))
  /\ edges linked = edges (snd (addKnowledge env content type metadata g)).
Proof.
  intros linked. unfold addKnowledge. cbn [snd].
  rewrite saveToStorage_history, saveToStorage_nodes, saveToStorage_edges.
  fold linked. repeat split.
  exact (proj1 (createConnections_history env _ _)).
Qed.

Lemma inserted_size (env : Host) content type metadata (g : KnowledgeGraph) :
  fresh_node_id env g ->
  List.length (nodes (snd (addKnowledge env content type metadata g)))
  = S (List.length (nodes g)).
Proof.
  intros Hnode.
  rewrite <- (length_map fst (nodes (snd _))).
  change (map fst (nodes (snd (addKnowledge env content type metadata g))))
    with (JS.Map.keys (nodes (snd (addKnowledge env content type metadata g)))).
  rewrite (inserted_keys env content type metadata g Hnode), length_app.
  unfold JS.Map.keys. rewrite length_map. simpl. lia.
Qed.

Lemma reachable_history (g : KnowledgeGraph) :
  reachable g ->
  map LearningMetrics.totalNodes (learningHistory g)
  = last_counts (List.length (nodes g))
  /\ forall m,
      last (map Some (learningHistory g)) None = Some m ->
      LearningMetrics.totalNodes m = JS.Map.size (nodes g)
      /\ LearningMetrics.totalEdges m = JS.Map.size (edges g).
Proof.
  induction 1 as [|env content type metadata g Hreach [IH1 IH2] Hnode Hedge
                  |env nodeId feedback g Hreach [IH1 IH2]].
  - split; [reflexivity|]. intros m Hm. discriminate Hm.
  - destruct (addKnowledge_history env content type metadata g)
      as (Hhist & Hold & Hnodes & Hedges).
    set (linked := createConnections env (randomUUID env 0) _) in *.
    rewrite Hhist. split.
    + rewrite (inserted_size env content type metadata g Hnode).
      rewrite <- (last_counts_step _ _ IH1).
      unfold updateMetrics. cbn [learningHistory]. rewrite Hold. cbn zeta.
      rewrite !length_app, !length_map. cbn [List.length].
      assert (Hm : LearningMetrics.totalNodes (calculateMetrics linked)
                   = Z.of_nat (S (List.length (nodes g)))).
      { cbn. unfold JS.Map.size. rewrite Hnodes.
        now rewrite (inserted_size env content type metadata g Hnode). }
      destruct (100 <? List.length (learningHistory g) + 1)%nat;
        rewrite <- ?skipn_map, map_app; cbn [map]; now rewrite Hm.
    + intros m Hm.
      rewrite (proj1 (proj2 (updateMetrics_history_last linked))) in Hm.
      injection Hm as <-. cbn. now rewrite Hnodes, Hedges.
  - unfold reinforceKnowledge.
    destruct (JS.Map.get nodeId (nodes g)) as [node|]; [|now split].
    rewrite saveToStorage_history, saveToStorage_nodes, saveToStorage_edges.
    cbn [learningHistory nodes edges].
    unfold JS.Map.modify, JS.Map.size. rewrite length_map. now split.
Qed.

Lemma last_counts_length (n : nat) : List.length (last_counts n) = Nat.min n 100.
Proof. unfold last_counts. rewrite length_map, length_skipn, length_seq. lia. Qed.

(** X5. In every graph built from the empty one by insertions and
    reinforcements over [n] stored nodes, the metrics history holds
    [min n 100] snapshots, their node counts are the last hundred of
    [1, ..., n] in order, and the latest snapshot carries the current
    numbers of nodes and edges. *)
Theorem reachable_history_tracks_insertions :
  forall g : KnowledgeGraph,
    reachable g ->
    List.length (learningHistory g) = Nat.min (List.length (nodes g)) 100
    /\ map LearningMetrics.totalNodes (learningHistory g)
       = last_counts (List.length (nodes g))
    /\ forall m,
        last (map Some (learningHistory g)) None = Some m ->
        LearningMetrics.totalNodes m = JS.Map.size (nodes g)
        /\ LearningMetrics.totalEdges m = JS.Map.size (edges g).
Proof.
  intros g Hreach. destruct (reachable_history g Hreach) as [Hcounts Hlast].
  split; [|now split].
  rewrite <- (length_map LearningMetrics.totalNodes), Hcounts.
  apply last_counts_length.
Qed.

Lemma reachable_graph_one : reachable graph_one.
Proof.
  apply reach_addKnowledge; [apply reach_empty|intros []|now apply fresh_ids_on_empty].
Qed.

Lemma reachable_history_tracks_insertions_witness :
  reachable graph_two_reinforced
  /\ map LearningMetrics.totalNodes (learningHistory graph_two_reinforced) = [1%Z; 2%Z].
Proof.
  split; [exact reachable_graph_two_reinforced|].
  exact (proj1 (proj2 (reachable_history_tracks_insertions _
                         reachable_graph_two_reinforced))).
Defined.

Lemma last_of_nonempty {A : Type} (l : list A) :
  l <> [] -> exists x, last (map Some l) None = Some x.
Proof.
  induction l as [|x l IH]; [congruence|]. intros _.
  destruct l as [|y l]; [now exists x|].
  destruct IH as [z Hz]; [discriminate|]. exists z. exact Hz.
Qed.

(** X6. The snapshot recorded by an insertion into a graph built by the
    engine has [growthRate] 0 when the graph was empty, and [1 / n] when
    it held [n >= 1] nodes. *)
Theorem addKnowledge_records_growth :
  forall (env : Host) (content : string) (type : NodeType)
         (metadata : Metadata.literal) (g : KnowledgeGraph),
    reachable g ->
    fresh_node_id env g ->
    exists m,
      last (map Some (learningHistory (snd (addKnowledge env content type metadata g))))
           None = Some m
      /\ LearningMetrics.growthRate m
         = match nodes g with
           | [] => 0%float
           | _ :: _ => PrimFloat.div 1 (JS.of_Z (JS.Map.size (nodes g)))
           end.
Proof.
  intros env content type metadata g Hreach Hnode.
  destruct (addKnowledge_history env content type metadata g)
    as (Hhist & Hold & Hnodes & _).
  set (linked := createConnections env (randomUUID env 0) _) in *.
  exists (calculateMetrics linked). split.
  - rewrite Hhist. exact (proj1 (proj2 (updateMetrics_history_last linked))).
  - destruct (reachable_history g Hreach) as [Hcounts Hlast].
    unfold calculateMetrics. cbn [LearningMetrics.growthRate]. rewrite Hold.
    assert (Hsize : JS.Map.size (nodes linked) = (JS.Map.size (nodes g) + 1)%Z).
    { unfold JS.Map.size. rewrite Hnodes, (inserted_size _ _ _ _ _ Hnode). lia. }
    destruct (nodes g) as [|entry rest] eqn:Hg.
    + destruct (learningHistory g) as [|m h]; [reflexivity|].
      apply (f_equal (@List.length Z)) in Hcounts. discriminate Hcounts.
    + destruct (last_of_nonempty (learningHistory g)) as [prev Hprev].
      { intros Hnil. rewrite Hnil in Hcounts.
        apply (f_equal (@List.length Z)) in Hcounts.
        rewrite last_counts_length in Hcounts.
        cbn [List.length map] in Hcounts. lia. }
      rewrite Hprev. destruct (Hlast prev Hprev) as [-> _].
      rewrite Hsize. f_equal.
      * replace (JS.Map.size (entry :: rest) + 1 - JS.Map.size (entry :: rest))%Z
          with 1%Z by lia. reflexivity.
      * f_equal. unfold JS.Map.size. cbn [List.length]. lia.
Qed.

Lemma addKnowledge_records_growth_witness :
  reachable graph_one
  /\ fresh_node_id (example_host "b" 0.75 (embeds_as [1; 0]%float)) graph_one
  /\ exists m,
      last (map Some (learningHistory graph_two)) None = Some m
      /\ LearningMetrics.growthRate m = 1%float.
Proof.
  assert (Hfresh : fresh_node_id (example_host "b" 0.75 (embeds_as [1; 0]%float)) graph_one).
  { vm_compute. intros [H|[]]. discriminate H. }
  split; [exact reachable_graph_one|]. split; [exact Hfresh|].
  destruct (addKnowledge_records_growth _ "Machine learning is a subset of AI" concept
              Metadata.no_keys graph_one reachable_graph_one Hfresh) as (m & Hlast & Hrate).
  exists m. split; [exact Hlast|]. rewrite Hrate. reflexivity.
Defined.


(** ** Sorting and the top concepts *)

Lemma insert_Permutation {A : Type} (after : A -> A -> bool) (x : A) (l : list A) :
  Permutation (JSArray.insert after x l) (x :: l).
Proof.
  induction l as [|y l IH]; simpl; [reflexivity|].
  destruct (after x y); [|reflexivity].
  rewrite IH. apply perm_swap.
Qed.

Lemma sort_Permutation {A : Type} (after : A -> A -> bool) (l : list A) :
  Permutation (JSArray.sort after l) l.
Proof.
  induction l as [|x l IH]; simpl; [reflexivity|].
  rewrite insert_Permutation. now constructor.
Qed.

(** A list in which the comparator is never positive is left as it is. *)
Lemma sort_of_ties {A : Type} (after : A -> A -> bool) (l : list A) :
  (forall x y, In x l -> In y l -> after x y = false) ->
  JSArray.sort after l = l.
Proof.
  induction l as [|x l IH]; intros Hties; trivial.
  cbn [JSArray.sort fold_right]. fold (JSArray.sort after l).
  rewrite IH by (intros y z Hy Hz; apply Hties; now right).
  destruct l as [|y l]; trivial. cbn [JSArray.insert].
  rewrite Hties; trivial; [now left|right; now left].
Qed.

Lemma sub_self_not_positive (w : float) :
  PrimFloat.ltb 0 (PrimFloat.sub w w) = false.
Proof.
  rewrite FloatAxioms.ltb_spec, FloatAxioms.sub_spec.
  change (Prim2SF 0) with (S754_zero false).
  unfold SF64sub, SFsub.
  destruct (Prim2SF w) as [[|]|[|]| |s m e]; try reflexivity.
  rewrite Z.sub_diag. reflexivity.
Qed.

(** X7. [getInsights] returns as [topConcepts] at most ten stored nodes,
    ten when the graph has that many, each of them taken once from the
    node map. *)
Theorem topConcepts_are_stored_nodes :
  forall g : KnowledgeGraph,
    let top := Insights.topConcepts (getInsights g) in
    List.length top = Nat.min 10 (List.length (nodes g))
    /\ (exists others, Permutation (top ++ others) (JS.Map.values (nodes g)))
    /\ (List.length (nodes g) <= 10 -> Permutation top (JS.Map.values (nodes g))).
Proof.
  intros g top. unfold top, getInsights. cbn [Insights.topConcepts].
  set (sorted := JSArray.sort lighter_after (JS.Map.values (nodes g))).
  assert (Hperm : Permutation sorted (JS.Map.values (nodes g)))
    by apply sort_Permutation.
  assert (Hlen : List.length sorted = List.length (nodes g)).
  { rewrite (Permutation_length Hperm). unfold JS.Map.values. apply length_map. }
  split; [|split].
  - now rewrite length_firstn, Hlen.
  - exists (skipn 10 sorted). now rewrite firstn_skipn.
  - intros Hsmall. rewrite firstn_all2; [exact Hperm|lia].
Qed.

(** X8. Ties keep the insertion order: when all stored nodes have the
    same weight (as they do until one is reinforced), [topConcepts] is the
    first ten nodes in the order in which they were inserted. *)
Theorem topConcepts_ties_keep_insertion_order :
  forall (g : KnowledgeGraph) (w : float),
    (forall k n, In (k, n) (nodes g) -> KnowledgeNode.weight n = w) ->
    Insights.topConcepts (getInsights g) = firstn 10 (JS.Map.values (nodes g)).
Proof.
  intros g w Hw. unfold getInsights. cbn [Insights.topConcepts].
  rewrite sort_of_ties; trivial.
  intros x y Hx Hy. unfold JS.Map.values in Hx, Hy.
  apply in_map_iff in Hx, Hy.
  destruct Hx as ([kx x'] & <- & Hx), Hy as ([ky y'] & <- & Hy). cbn [snd].
  unfold lighter_after. rewrite (Hw kx x' Hx), (Hw ky y' Hy).
  apply sub_self_not_positive.
Qed.

Lemma topConcepts_ties_keep_insertion_order_witness :
  (forall k n, In (k, n) (nodes graph_two) -> KnowledgeNode.weight n = 1%float)
  /\ map KnowledgeNode.id (Insights.topConcepts (getInsights graph_two))
     = ["a"%string; "b"%string].
Proof.
  assert (H : forall k n, In (k, n) (nodes graph_two) -> KnowledgeNode.weight n = 1%float).
  { intros k n Hin. vm_compute in Hin.
    destruct Hin as [Hin|[Hin|[]]]; injection Hin as _ <-; reflexivity. }
  split; [exact H|].
  rewrite (topConcepts_ties_keep_insertion_order graph_two 1%float H). reflexivity.
Defined.

(** X9. [findSimilarNodes(query, limit)] returns stored nodes that have
    an embedding, each taken once, and exactly [min limit e] of them when
    [e] stored nodes have an embedding; a node without embedding is never
    returned. *)
Theorem findSimilarNodes_returns_embedded_nodes :
  forall (env : Host) (query : string) (limit : nat) (g : KnowledgeGraph),
    let found := findSimilarNodes env query limit g in
    let embedded := filter has_embedding (JS.Map.values (nodes g)) in
    List.length found = Nat.min limit (List.length embedded)
    /\ (exists others, Permutation (found ++ others) embedded)
    /\ forall n, In n found -> In n (JS.Map.values (nodes g)) /\ has_embedding n = true.
Proof.
  intros env query limit g found embedded.
  unfold found, findSimilarNodes.
  set (similarities := flat_map _ (JS.Map.values (nodes g))).
  assert (Hfst : map fst similarities = embedded).
  { unfold similarities, embedded.
    induction (JS.Map.values (nodes g)) as [|n l IH]; trivial.
    cbn [flat_map filter]. unfold has_embedding at 1.
    destruct (KnowledgeNode.embedding n); cbn [app map fst]; [f_equal|]; exact IH. }
  set (sorted := JSArray.sort less_similar_after similarities).
  assert (Hperm : Permutation (map fst sorted) embedded).
  { rewrite <- Hfst. apply Permutation_map, sort_Permutation. }
  assert (Hsplit : Permutation
                     (map fst (firstn limit sorted) ++ map fst (skipn limit sorted))
                     embedded).
  { now rewrite <- map_app, firstn_skipn. }
  split; [|split].
  - rewrite length_map, length_firstn.
    rewrite <- (Permutation_length Hperm), length_map. reflexivity.
  - now exists (map fst (skipn limit sorted)).
  - intros n Hn.
    assert (Hin : In n embedded).
    { apply (Permutation_in _ Hsplit). apply in_app_iff. now left. }
    unfold embedded in Hin. now apply filter_In in Hin.
Qed.

(** ** More on the similarity *)

Section Similarity.
Local Open Scope float_scope.

Lemma SFmul_comm (x y : spec_float) : SF64mul x y = SF64mul y x.
Proof.
  unfold SF64mul, SFmul.
  destruct x as [sx|sx| |sx mx ex], y as [sy|sy| |sy my ey];
    trivial; rewrite ?(xorb_comm sx sy); trivial.
  now rewrite (Pos.mul_comm mx my), (Z.add_comm ex ey).
Qed.

Lemma mul_comm (x y : float) : x * y = y * x.
Proof.
  apply Prim2SF_inj. rewrite !FloatAxioms.mul_spec. apply SFmul_comm.
Qed.

Lemma dot_as_fold (a : list float) :
  forall (b pre : list float) (acc : float),
    List.length a = List.length b ->
    JS.reduce_from (fun sum val i => sum + val * JS.index_number (pre ++ b) i)
                   a (List.length pre) acc
    = fold_left (fun sum p => sum + fst p * snd p) (combine a b) acc.
Proof.
  induction a as [|x a IH]; intros [|y b] pre acc Hlen; try discriminate; trivial.
  cbn [JS.reduce_from combine fold_left fst snd].
  unfold JS.index_number at 2. rewrite nth_middle.
  specialize (IH b (pre ++ [y])%list (acc + x * y)).
  rewrite <- app_assoc, length_app in IH. cbn [app List.length] in IH.
  rewrite Nat.add_1_r in IH. apply IH. now injection Hlen.
Qed.

Lemma fold_combine_swap (a : list float) :
  forall (b : list float) (acc : float),
    fold_left (fun sum p => sum + fst p * snd p) (combine a b) acc
    = fold_left (fun sum p => sum + fst p * snd p) (combine b a) acc.
Proof.
  induction a as [|x a IH]; intros [|y b] acc; trivial.
  cbn [combine fold_left fst snd]. rewrite (mul_comm x y). apply IH.
Qed.

(** X10. On two vectors of the same length the similarity does not
    depend on the order of its arguments: it is the same whichever of two
    nodes is the one being inserted. *)
Theorem cosineSimilarity_symmetric :
  forall a b : list float,
    List.length a = List.length b ->
    cosineSimilarity a b = cosineSimilarity b a.
Proof.
  intros a b Hlen. unfold cosineSimilarity, JS.reduce.
  pose proof (dot_as_fold a b [] 0 Hlen) as Hab.
  pose proof (dot_as_fold b a [] 0 (eq_sym Hlen)) as Hba.
  cbn [app List.length] in Hab, Hba. rewrite Hab, Hba.
  rewrite (fold_combine_swap a b). f_equal. apply mul_comm.
Qed.

Lemma cosineSimilarity_symmetric_witness :
  List.length [3; 4; 0.5] = List.length [0.1; 7; -2]
  /\ cosineSimilarity [3; 4; 0.5] [0.1; 7; -2] = cosineSimilarity [0.1; 7; -2] [3; 4; 0.5].
Proof.
  split; [reflexivity|].
  exact (cosineSimilarity_symmetric [3; 4; 0.5] [0.1; 7; -2] eq_refl).
Defined.

Lemma add_nan_l (x y : float) : Prim2SF x = S754_nan -> Prim2SF (x + y) = S754_nan.
Proof. intros H. rewrite FloatAxioms.add_spec, H. reflexivity. Qed.

Lemma add_nan_r (x y : float) : Prim2SF y = S754_nan -> Prim2SF (x + y) = S754_nan.
Proof.
  intros H. rewrite FloatAxioms.add_spec, H. unfold SF64add, SFadd.
  now destruct (Prim2SF x).
Qed.

Lemma mul_nan_r (x y : float) : Prim2SF y = S754_nan -> Prim2SF (x * y) = S754_nan.
Proof.
  intros H. rewrite FloatAxioms.mul_spec, H. unfold SF64mul, SFmul.
  now destruct (Prim2SF x).
Qed.

Lemma div_nan_l (x y : float) : Prim2SF x = S754_nan -> Prim2SF (x / y) = S754_nan.
Proof. intros H. rewrite FloatAxioms.div_spec, H. reflexivity. Qed.

Lemma dot_nan_stays (b a : list float) :
  forall (i : nat) (acc : float),
    Prim2SF acc = S754_nan ->
    Prim2SF (JS.reduce_from (fun sum val i => sum + val * JS.index_number b i) a i acc)
    = S754_nan.
Proof.
  induction a as [|x a IH]; intros i acc Hacc; trivial.
  cbn [JS.reduce_from]. apply IH. now apply add_nan_l.
Qed.

Lemma dot_past_the_end (b a : list float) :
  forall (x : float) (i : nat) (acc : float),
    List.length b < i + S (List.length a) ->
    Prim2SF (JS.reduce_from (fun sum val i => sum + val * JS.index_number b i)
                            (x :: a) i acc)
    = S754_nan.
Proof.
  induction a as [|y a IH]; intros x i acc Hlen.
  - cbn [JS.reduce_from]. apply add_nan_r, mul_nan_r.
    unfold JS.index_number. rewrite nth_overflow; [reflexivity|].
    cbn [List.length] in Hlen. lia.
  - change (JS.reduce_from _ (x :: y :: a) i acc)
      with (JS.reduce_from (fun sum val i => sum + val * JS.index_number b i)
              (y :: a) (S i) (acc + x * JS.index_number b i)).
    apply IH. cbn [List.length] in Hlen. lia.
Qed.

(** X11. When the first vector is longer than the second, the similarity
    is [NaN]: the dot product reads past the end of the second vector.
    Such a pair is therefore never linked. *)
Theorem cosineSimilarity_longer_first_is_nan :
  forall a b : list float,
    List.length b < List.length a ->
    PrimFloat.is_nan (cosineSimilarity a b) = true
    /\ PrimFloat.ltb 0.7 (cosineSimilarity a b) = false.
Proof.
  intros a b Hlen.
  assert (Hnan : Prim2SF (cosineSimilarity a b) = S754_nan).
  { unfold cosineSimilarity, JS.reduce. apply div_nan_l.
    destruct a as [|x a]; [cbn in Hlen; lia|].
    apply dot_past_the_end. cbn [List.length] in Hlen. lia. }
  split; [now apply nan_is_nan|now apply nan_not_above].
Qed.

Lemma cosineSimilarity_longer_first_is_nan_witness :
  List.length [1; 2] < List.length [1; 2; 3]
  /\ PrimFloat.is_nan (cosineSimilarity [1; 2; 3] [1; 2]) = true
  /\ PrimFloat.is_nan (cosineSimilarity [1; 2] [1; 2; 3]) = false.
Proof.
  assert (H : List.length [1; 2] < List.length [1; 2; 3]) by (simpl; lia).
  split; [exact H|]. split; [|reflexivity].
  exact (proj1 (cosineSimilarity_longer_first_is_nan [1; 2; 3] [1; 2] H)).
Defined.

(** X12. [calculateRelevance], when both embeddings are produced, returns
    a number of [[0, 1]] if their similarity is a number, and [NaN] if the
    similarity is [NaN] (as it is when one embedding is a zero vector);
    this is the value the page stores as [metadata.confidence]. *)
Theorem calculateRelevance_is_clamped_or_nan :
  forall (env : Host) (query content : string) (q c : list float),
    embedder env query = Some q ->
    embedder env (String.substring 0 500 content) = Some c ->
    (PrimFloat.is_nan (cosineSimilarity q c) = false ->
     in_range 0 1 (calculateRelevance env query content))
    /\ (PrimFloat.is_nan (cosineSimilarity q c) = true ->
        PrimFloat.is_nan (calculateRelevance env query content) = true)
    /\ (zero_vector q \/ zero_vector c ->
        PrimFloat.is_nan (calculateRelevance env query content) = true).
Proof.
  intros env query content q c Hq Hc. unfold calculateRelevance. rewrite Hq, Hc.
  assert (Hnan : PrimFloat.is_nan (cosineSimilarity q c) = true ->
                 PrimFloat.is_nan (JS.Math_max 0 (JS.Math_min 1 (cosineSimilarity q c)))
                 = true).
  { intros H. unfold JS.Math_min. rewrite H, orb_true_r.
    unfold JS.Math_max. now rewrite orb_true_r. }
  split; [|split]; trivial.
  - intros H. now apply clamp_in_range.
  - intros Hzero. apply Hnan, nan_is_nan. now apply cosineSimilarity_zero_vector.
Qed.

Lemma calculateRelevance_is_clamped_or_nan_witness :
  embedder (example_host "r" 0.75 (embeds_as [1; -1])) "query" = Some [1; -1]
  /\ in_range 0 1 (calculateRelevance (example_host "r" 0.75 (embeds_as [1; -1]))
                     "query" "content").
Proof.
  split; [reflexivity|].
  refine (proj1 (calculateRelevance_is_clamped_or_nan
                   (example_host "r" 0.75 (embeds_as [1; -1])) "query" "content"
                   [1; -1] [1; -1] eq_refl eq_refl) _).
  reflexivity.
Defined.

End Similarity.


(** ** Counting tables *)

Lemma bump_keys (k : string) (o : list (string * Z)) :
  map fst (JSArray.bump k o) = JS.Set_add (map fst o) k.
Proof.
  unfold JS.Set_add. induction o as [|[k' c] o IH]; trivial.
  cbn [JSArray.bump map fst existsb]. rewrite (String.eqb_sym k k').
  destruct (String.eqb k' k); cbn [orb map fst]; trivial.
  rewrite IH. now destruct (existsb (String.eqb k) (map fst o)).
Qed.

Lemma tally_keys_from (l : list string) :
  forall o, map fst (fold_left (fun o k => JSArray.bump k o) l o)
            = fold_left JS.Set_add l (map fst o).
Proof.
  induction l as [|k l IH]; intros o; trivial.
  cbn [fold_left]. now rewrite IH, bump_keys.
Qed.

Lemma tally_keys (l : list string) : map fst (JSArray.tally l) = JS.Set_from l.
Proof. apply (tally_keys_from l []). Qed.

Lemma bump_count (k x : string) (o : list (string * Z)) :
  NoDup (map fst o) ->
  forall c,
    In (x, c) (JSArray.bump k o) ->
    (x = k /\ ((~ In k (map fst o) /\ c = 1%Z) \/ In (k, (c - 1)%Z) o))
    \/ (x <> k /\ In (x, c) o).
Proof.
  induction o as [|[k' c'] o IH]; intros Hnodup c Hin.
  - destruct Hin as [Heq|[]]. injection Heq as <- <-. left. split; trivial.
    left. split; [intros []|trivial].
  - cbn in Hnodup. apply NoDup_cons_iff in Hnodup. destruct Hnodup as [Hhd Htl].
    cbn [JSArray.bump] in Hin. destruct (String.eqb_spec k' k) as [->|Hne].
    + destruct Hin as [Heq|Hin].
      * injection Heq as <- <-. left. split; trivial. right. left.
        f_equal. lia.
      * right. split; [|now right]. intros ->. apply Hhd.
        now apply (in_map fst) in Hin.
    + destruct Hin as [Heq|Hin].
      * injection Heq as <- <-. right. split; trivial. now left.
      * destruct (IH Htl c Hin) as [[-> [[Hout ->]|Hold]]|[Hx Hold]].
        -- left. split; trivial. left. split; trivial.
           intros [Heq|Hk]; [now apply Hne|now apply Hout].
        -- left. split; trivial. right. now right.
        -- right. split; trivial. now right.
Qed.

Lemma tally_from_counts (l : list string) :
  forall o,
    NoDup (map fst o) ->
    (forall x c, In (x, c) o -> (1 <= c)%Z) ->
    NoDup (map fst (fold_left (fun o k => JSArray.bump k o) l o))
    /\ forall x c,
        In (x, c) (fold_left (fun o k => JSArray.bump k o) l o) ->
        (1 <= c)%Z
        /\ ((In (x, (c - Z.of_nat (count_occ string_dec l x))%Z) o)
            \/ (~ In x (map fst o) /\ c = Z.of_nat (count_occ string_dec l x))).
Proof.
  induction l as [|k l IH]; intros o Hnodup Hpos.
  - split; trivial. intros x c Hin. split; [now apply (Hpos x)|].
    left. cbn. now rewrite Z.sub_0_r.
  - cbn [fold_left].
    assert (Hnodup' : NoDup (map fst (JSArray.bump k o))).
    { rewrite bump_keys. unfold JS.Set_add.
      destruct (existsb (String.eqb k) (map fst o)) eqn:E; trivial.
      apply NoDup_app; trivial.
      - apply NoDup_cons; [intros []|constructor].
      - intros x Hx [Heq|[]]. subst x.
        assert (existsb (String.eqb k) (map fst o) = true); [|congruence].
        apply existsb_exists. exists k. split; trivial. apply String.eqb_refl. }
    assert (Hpos' : forall x c, In (x, c) (JSArray.bump k o) -> (1 <= c)%Z).
    { intros x c Hin.
      destruct (bump_count k x o Hnodup c Hin) as [[_ [[_ ->]|Hold]]|[_ Hold]].
      - lia.
      - specialize (Hpos _ _ Hold). lia.
      - now apply (Hpos x). }
    destruct (IH _ Hnodup' Hpos') as [Hnd Hall]. split; trivial.
    intros x c Hin. destruct (Hall x c Hin) as [Hc Hcases]. split; trivial.
    cbn [count_occ]. destruct (string_dec k x) as [->|Hne].
    + rewrite Nat2Z.inj_succ. destruct Hcases as [Hin'|[Hout ->]].
      * destruct (bump_count x x o Hnodup _ Hin') as [[_ [[Hout Heq]|Hold]]|[Habs _]];
          [| |congruence].
        -- right. split; trivial. lia.
        -- left. replace (c - Z.succ (Z.of_nat (count_occ string_dec l x)))%Z
             with (c - Z.of_nat (count_occ string_dec l x) - 1)%Z by lia. exact Hold.
      * exfalso. apply Hout. rewrite bump_keys. unfold JS.Set_add.
        destruct (existsb (String.eqb x) (map fst o)) eqn:E.
        -- apply existsb_exists in E. destruct E as (y & Hy & Heq).
           apply String.eqb_eq in Heq. now subst y.
        -- apply in_app_iff. right. now left.
    + destruct Hcases as [Hin'|[Hout ->]].
      * destruct (bump_count k x o Hnodup _ Hin') as [[Habs _]|[_ Hold]];
          [congruence|now left].
      * right. split; trivial. intros Hx. apply Hout. rewrite bump_keys.
        unfold JS.Set_add. destruct (existsb (String.eqb k) (map fst o)); trivial.
        apply in_app_iff. now left.
Qed.

(** The table built by the counting loop: one entry per distinct key, in
    the order of first appearance, holding the number of occurrences. *)
Lemma tally_spec (l : list string) :
  map fst (JSArray.tally l) = JS.Set_from l
  /\ NoDup (map fst (JSArray.tally l))
  /\ forall x c, In (x, c) (JSArray.tally l) ->
                 c = Z.of_nat (count_occ string_dec l x) /\ (1 <= c)%Z.
Proof.
  split; [apply tally_keys|].
  destruct (tally_from_counts l [] (NoDup_nil _)) as [Hnd Hall];
    [intros x c []|].
  split; [exact Hnd|]. intros x c Hin.
  destruct (Hall x c Hin) as [Hc [[]|[_ ->]]]. split; [reflexivity|exact Hc].
Qed.

(** ** Sorting by an integer key *)

Section SortByKey.
Context {A : Type}.
Variable key : A -> Z.
Variable after : A -> A -> bool.
Hypothesis after_key : forall x y, after x y = (key x <? key y)%Z.

Lemma insert_descending (x : A) (l : list A) :
  StronglySorted (fun a b => (key b <= key a)%Z) l ->
  StronglySorted (fun a b => (key b <= key a)%Z) (JSArray.insert after x l).
Proof.
  induction 1 as [|y l Hsorted IH Hall]; cbn [JSArray.insert].
  - constructor; constructor.
  - rewrite after_key. destruct (Z.ltb_spec (key x) (key y)) as [Hlt|Hge].
    + constructor; trivial.
      apply Forall_forall. intros z Hz.
      apply (Permutation_in _ (insert_Permutation after x l)) in Hz.
      destruct Hz as [<-|Hz]; [lia|].
      rewrite Forall_forall in Hall. now apply Hall.
    + constructor; [now constructor|].
      constructor; trivial.
      apply Forall_forall. intros z Hz. rewrite Forall_forall in Hall.
      specialize (Hall z Hz). lia.
Qed.

Lemma sort_descending (l : list A) :
  StronglySorted (fun a b => (key b <= key a)%Z) (JSArray.sort after l).
Proof.
  induction l as [|x l IH]; [constructor|]. now apply insert_descending.
Qed.

Lemma sorted_prefix_dominates (l : list A) (n : nat) :
  StronglySorted (fun a b => (key b <= key a)%Z) l ->
  forall r o, In r (firstn n l) -> In o (skipn n l) -> (key o <= key r)%Z.
Proof.
  intros Hsorted. revert n.
  induction Hsorted as [|y l Hsorted IH Hall]; intros n r o Hr Ho.
  - destruct n; destruct Hr.
  - destruct n as [|n]; [destruct Hr|].
    cbn [firstn skipn] in Hr, Ho. destruct Hr as [<-|Hr].
    + rewrite Forall_forall in Hall. apply Hall.
      rewrite <- (firstn_skipn n l). apply in_app_iff. now right.
    + now apply (IH n).
Qed.

End SortByKey.

(** ** Patterns *)

Lemma replace_dash_pair (a b : string) :
  contains_dash a = false ->
  JSArray.replace_dash (String.append a (String.append "-" b))
  = String.append a (String.append " and " b).
Proof.
  induction a as [|c a IH]; intros Hdash; [reflexivity|].
  cbn [contains_dash] in Hdash. apply orb_false_elim in Hdash.
  destruct Hdash as [Hc Ha]. cbn [String.append JSArray.replace_dash].
  rewrite Hc. f_equal. now apply IH.
Qed.

Lemma domain_pairs_In (g : KnowledgeGraph) (k : string) :
  In k (domain_pairs g) ->
  exists e sourceNode targetNode,
    In e (JS.Map.values (edges g))
    /\ JS.Map.get (KnowledgeEdge.source e) (nodes g) = Some sourceNode
    /\ JS.Map.get (KnowledgeEdge.target e) (nodes g) = Some targetNode
    /\ k = String.append
             (JSArray.template (Metadata.domain (KnowledgeNode.metadata sourceNode)))
             (String.append "-"
                (JSArray.template (Metadata.domain (KnowledgeNode.metadata targetNode)))).
Proof.
  unfold domain_pairs. intros Hin. apply in_flat_map in Hin.
  destruct Hin as (e & He & Hk).
  destruct (JS.Map.get (KnowledgeEdge.source e) (nodes g)) as [s|] eqn:Hs; [|destruct Hk].
  destruct (JS.Map.get (KnowledgeEdge.target e) (nodes g)) as [t|] eqn:Ht; [|destruct Hk].
  destruct Hk as [<-|[]]. now exists e, s, t.
Qed.

Lemma contains_dash_append (a b : string) :
  contains_dash (String.append a (String.append "-" b)) = true.
Proof.
  change (String.append "-" b) with (String "-"%char b).
  induction a as [|c a IH]; [reflexivity|].
  cbn [String.append contains_dash]. rewrite IH. apply orb_true_r.
Qed.

Lemma dashed_key_is_ordinary (k : string) :
  contains_dash k = true -> ordinary_key k = true.
Proof.
  intros Hdash. unfold ordinary_key. apply andb_true_intro. split.
  - apply negb_true_iff. apply not_true_is_false. intros Hex.
    apply existsb_exists in Hex. destruct Hex as (name & Hname & Heq).
    apply String.eqb_eq in Heq. subst name.
    repeat (destruct Hname as [<-|Hname]; [discriminate Hdash|]). destruct Hname.
  - apply negb_true_iff. apply andb_false_intro2.
    induction k as [|c k IH]; [discriminate|].
    cbn [contains_dash all_digits] in *.
    destruct (Ascii.eqb_spec c "-"%char) as [->|_]; [reflexivity|].
    cbn [orb] in Hdash. rewrite (IH Hdash). apply andb_false_r.
Qed.

(** X13. [detectPatterns] counts, for every edge whose two endpoints are
    stored, the pair of their domains, and reports at most three pairs:
    as many patterns as there are distinct pairs, up to three; none
    exactly when no edge has both endpoints stored; the reported pairs
    are counted with their numbers of edges and are at least as frequent
    as every pair left out; and every counted key contains a dash, so the
    object used as a table behaves like one. *)
Theorem detectPatterns_reports_most_frequent_pairs :
  forall g : KnowledgeGraph,
    let keys := domain_pairs g in
    List.length (detectPatterns g) = Nat.min 3 (List.length (JS.Set_from keys))
    /\ (detectPatterns g = [] <-> keys = [])
    /\ exists reported others,
        detectPatterns g = map render_pattern reported
        /\ Permutation (reported ++ others) (JSArray.tally keys)
        /\ (forall k c, In (k, c) (reported ++ others) ->
                        c = Z.of_nat (count_occ string_dec keys k) /\ (1 <= c)%Z)
        /\ (forall r o, In r reported -> In o others -> (snd o <= snd r)%Z)
        /\ forall k, In k keys -> ordinary_key k = true.
Proof.
  intros g keys. unfold detectPatterns. fold keys.
  set (sorted := JSArray.sort JSArray.fewer_after (JSArray.tally keys)).
  assert (Hperm : Permutation sorted (JSArray.tally keys)) by apply sort_Permutation.
  assert (Hlen : List.length sorted = List.length (JS.Set_from keys)).
  { rewrite (Permutation_length Hperm), <- (proj1 (tally_spec keys)). now rewrite length_map. }
  split; [|split].
  - now rewrite length_map, length_firstn, Hlen.
  - split.
    + intros Hnil. apply (f_equal (@List.length string)) in Hnil.
      rewrite length_map, length_firstn, Hlen in Hnil.
      destruct keys as [|k keys']; trivial. exfalso.
      assert (Hin : In k (JS.Set_from (k :: keys'))).
      { apply (Set_from_acc (k :: keys') [] (NoDup_nil _)). right. now left. }
      destruct (JS.Set_from (k :: keys')); [destruct Hin|]. cbn in Hnil. lia.
    + intros Hnil. unfold sorted. now rewrite Hnil.
  - exists (firstn 3 sorted), (skipn 3 sorted).
    split; [reflexivity|]. rewrite firstn_skipn. split; [exact Hperm|]. split; [|split].
    + intros k c Hin. apply (Permutation_in _ Hperm) in Hin.
      now apply (proj2 (proj2 (tally_spec keys))).
    + intros r o Hr Ho.
      apply (sorted_prefix_dominates snd sorted 3); trivial.
      apply sort_descending. intros x y. unfold JSArray.fewer_after.
      destruct (Z.ltb_spec 0 (snd y - snd x)), (Z.ltb_spec (snd x) (snd y)); trivial; lia.
    + intros k Hk. destruct (domain_pairs_In g k Hk) as (_ & s & t & _ & _ & _ & ->).
      apply dashed_key_is_ordinary, contains_dash_append.
Qed.

(** X14. Every pattern reported by [detectPatterns] comes from an edge
    whose endpoints are stored; if the domain [A] of the source node
    contains no dash, the pattern reads "Strong connection between A and
    B", [B] being the domain of the target node (a missing domain is
    printed "undefined").  The first dash of the key is the one replaced. *)
Theorem detectPatterns_renders_domain_pair :
  forall (g : KnowledgeGraph) (p : string),
    In p (detectPatterns g) ->
    exists e sourceNode targetNode,
      In e (JS.Map.values (edges g))
      /\ JS.Map.get (KnowledgeEdge.source e) (nodes g) = Some sourceNode
      /\ JS.Map.get (KnowledgeEdge.target e) (nodes g) = Some targetNode
      /\ let A := JSArray.template (Metadata.domain (KnowledgeNode.metadata sourceNode)) in
         let B := JSArray.template (Metadata.domain (KnowledgeNode.metadata targetNode)) in
         p = String.append "Strong connection between "
               (JSArray.replace_dash (String.append A (String.append "-" B)))
         /\ (contains_dash A = false ->
             p = String.append "Strong connection between "
                   (String.append A (String.append " and " B))).
Proof.
  intros g p Hin. unfold detectPatterns in Hin.
  apply in_map_iff in Hin. destruct Hin as ([k c] & <- & Hin).
  assert (Hk : In k (domain_pairs g)).
  { assert (Hsorted : In (k, c) (JSArray.sort JSArray.fewer_after
                                   (JSArray.tally (domain_pairs g)))).
    { rewrite <- (firstn_skipn 3). apply in_app_iff. now left. }
    apply (Permutation_in _ (sort_Permutation _ _)) in Hsorted.
    apply (in_map fst) in Hsorted. cbn [fst] in Hsorted.
    rewrite (proj1 (tally_spec _)) in Hsorted.
    apply (Set_from_acc (domain_pairs g) [] (NoDup_nil _)) in Hsorted.
    now destruct Hsorted as [[]|]. }
  destruct (domain_pairs_In g k Hk) as (e & s & t & He & Hs & Ht & ->).
  exists e, s, t. repeat split; trivial.
  intros Hdash. cbn [fst]. now rewrite replace_dash_pair.
Qed.

Lemma detectPatterns_renders_domain_pair_witness :
  In "Strong connection between ai and ai"%string (detectPatterns graph_two)
  /\ exists e, In e (JS.Map.values (edges graph_two))
               /\ KnowledgeEdge.source e = "b"%string.
Proof.
  assert (H : In "Strong connection between ai and ai"%string (detectPatterns graph_two))
    by (left; reflexivity).
  split; [exact H|].
  destruct (detectPatterns_renders_domain_pair graph_two _ H)
    as (e & s & t & He & _).
  exists e. split; [exact He|].
  vm_compute in He. destruct He as [<-|[]]. reflexivity.
Defined.

(** ** The knowledge gaps *)

Lemma filter_nil_existsb {A : Type} (f : A -> bool) (l : list A) :
  List.length (filter f l) = 0 <-> existsb f l = false.
Proof.
  induction l as [|x l IH]; cbn [filter existsb]; [tauto|].
  destruct (f x); cbn [List.length orb]; [split; [lia|discriminate]|exact IH].
Qed.

(** In a graph built by the engine the nodes without connections are the
    nodes that no edge touches. *)
Lemma isolated_are_unlinked (g : KnowledgeGraph) :
  reachable g ->
  filter no_connections (JS.Map.values (nodes g))
  = JS.Map.values (filter (unlinked g) (nodes g)).
Proof.
  intros Hreach. pose proof (reachable_degree g Hreach) as Hdeg.
  unfold JS.Map.values.
  induction (nodes g) as [|[k n] l IH]; trivial.
  cbn [map filter snd].
  rewrite IH by (intros a na Hin; apply Hdeg; now right).
  assert (Hn := Hdeg k n (or_introl eq_refl)).
  change (unlinked g (k, n)) with (negb (existsb (incident k) (edges g))).
  unfold no_connections at 1.
  destruct (existsb (incident k) (edges g)) eqn:Hex; cbn [negb map snd].
  - destruct (KnowledgeNode.connections n) eqn:Hc; trivial.
    symmetry in Hn. apply filter_nil_existsb in Hn. congruence.
  - apply filter_nil_existsb in Hex. rewrite Hex in Hn.
    destruct (KnowledgeNode.connections n) eqn:Hc; [reflexivity|discriminate].
Qed.

(** X15. In every graph built from the empty one by insertions and
    reinforcements, [identifyGaps] counts as isolated exactly the nodes
    that no stored edge touches: when there are [u > 0] of them its first
    message is "[u] isolated knowledge concepts need connections", and
    when there is none the only message it can return is the one on
    under-represented domains. *)
Theorem identifyGaps_counts_unlinked_nodes :
  forall g : KnowledgeGraph,
    reachable g ->
    let u := List.length (filter (unlinked g) (nodes g)) in
    (u = 0 ->
     forall m, In m (identifyGaps g) ->
               exists names, m = String.append "Need more knowledge in: " names)
    /\ (0 < u -> hd_error (identifyGaps g) = Some (isolated_message u)).
Proof.
  intros g Hreach u. unfold identifyGaps.
  change (filter _ (JS.Map.values (nodes g)))
    with (filter no_connections (JS.Map.values (nodes g))).
  rewrite (isolated_are_unlinked g Hreach).
  assert (Hlen : List.length (JS.Map.values (filter (unlinked g) (nodes g))) = u)
    by apply length_map.
  set (under := map fst (filter _ (JSArray.tally _))).
  destruct (JS.Map.values (filter (unlinked g) (nodes g))) as [|n l] eqn:Hiso.
  - split; [|intros Hpos; cbn in Hlen; lia].
    intros _ m Hin. destruct under as [|d ds]; [destruct Hin|].
    destruct Hin as [<-|[]]. eexists. reflexivity.
  - split; [intros Hzero; cbn in Hlen; lia|].
    intros _. rewrite Hlen. now destruct under.
Qed.

Lemma identifyGaps_counts_unlinked_nodes_witness :
  reachable graph_one
  /\ hd_error (identifyGaps graph_one)
     = Some "1 isolated knowledge concepts need connections"%string.
Proof.
  split; [exact reachable_graph_one|].
  apply (proj2 (identifyGaps_counts_unlinked_nodes graph_one reachable_graph_one)).
  vm_compute. lia.
Defined.

Lemma small_threshold (n : nat) :
  n <= 10 ->
  JS.Math_max 1 (PrimFloat.mul (JS.of_Z (Z.of_nat n)) 0.1) = 1%float.
Proof.
  intros Hn. do 11 (destruct n as [|n]; [reflexivity|]). lia.
Qed.

Lemma small_count (c : Z) :
  (1 <= c <= 10)%Z -> PrimFloat.ltb (JS.of_Z c) 1 = false.
Proof.
  intros Hc.
  assert (H : exists n, c = Z.of_nat (S n) /\ n < 10).
  { exists (Z.to_nat (c - 1)). lia. }
  destruct H as (n & -> & Hn).
  do 10 (destruct n as [|n]; [reflexivity|]). lia.
Qed.

(** X16. With at most ten stored nodes the threshold
    [Math.max(1, size * 0.1)] is 1 and every counted domain has at least
    one node, so [identifyGaps] never names an under-represented domain:
    it returns the message on isolated nodes, or nothing.  (The domains
    are keys of an object used as a table, hence the assumption that none
    is an array index or a member name of [Object.prototype].) *)
Theorem identifyGaps_names_no_domain_up_to_ten_nodes :
  forall g : KnowledgeGraph,
    List.length (nodes g) <= 10 ->
    (forall n, In n (JS.Map.values (nodes g)) ->
               ordinary_key (domain_or_unknown n) = true) ->
    identifyGaps g
    = match List.length (filter no_connections (JS.Map.values (nodes g))) with
      | 0 => []
      | S k => [isolated_message (S k)]
      end.
Proof.
  intros g Hsmall _. unfold identifyGaps.
  change (filter _ (JS.Map.values (nodes g)))
    with (filter no_connections (JS.Map.values (nodes g))).
  set (isolatedNodes := filter no_connections (JS.Map.values (nodes g))).
  set (domains := JSArray.tally _).
  assert (Hnone : filter (fun entry =>
                            PrimFloat.ltb (JS.of_Z (snd entry))
                              (JS.Math_max 1
                                 (PrimFloat.mul (JS.of_Z (JS.Map.size (nodes g))) 0.1)))
                         domains = []).
  { unfold JS.Map.size. rewrite (small_threshold _ Hsmall).
    apply filter_none. intros [d c] Hin. cbn [snd].
    destruct (proj2 (proj2 (tally_spec _)) d c Hin) as [Hc Hpos].
    apply small_count. split; trivial. rewrite Hc.
    pose proof (count_occ_bound string_dec d
                  (map domain_or_unknown (JS.Map.values (nodes g)))) as Hb.
    unfold JS.Map.values in *. rewrite !length_map in Hb. lia. }
  rewrite Hnone. cbn [map].
  now destruct isolatedNodes.
Qed.

Lemma reachable_graph_two : reachable graph_two.
Proof.
  apply reach_addKnowledge; [exact reachable_graph_one| |].
  - vm_compute. intros [H|[]]. discriminate H.
  - now apply fresh_ids_on_empty.
Qed.

Lemma identifyGaps_names_no_domain_up_to_ten_nodes_witness :
  List.length (nodes graph_two) <= 10 /\ identifyGaps graph_two = [].
Proof.
  assert (Hsmall : List.length (nodes graph_two) <= 10) by (vm_compute; lia).
  split; [exact Hsmall|].
  rewrite (identifyGaps_names_no_domain_up_to_ten_nodes graph_two Hsmall);
    [reflexivity|].
  intros n Hin. vm_compute in Hin.
  destruct Hin as [<-|[<-|[]]]; reflexivity.
Defined.

(** ** The inferred domain *)

Lemma find_first {A : Type} (f : A -> bool) (l : list A) :
  match find f l with
  | Some x => exists before after,
                l = (before ++ x :: after)%list /\ f x = true
                /\ forall y, In y before -> f y = false
  | None => forall y, In y l -> f y = false
  end.
Proof.
  induction l as [|x l IH]; cbn [find]; [intros y []|].
  destruct (f x) eqn:Hx.
  - exists [], l. repeat split; trivial. intros y [].
  - destruct (find f l) as [z|].
    + destruct IH as (before & after & -> & Hz & Hbefore).
      exists (x :: before), after. repeat split; trivial.
      intros y [<-|Hy]; auto.
    + intros y [<-|Hy]; auto.
Qed.

Lemma first_match_unique {A : Type} (f : A -> bool) (b1 b2 a1 a2 : list A) (x y : A) :
  (b1 ++ x :: a1 = b2 ++ y :: a2)%list ->
  f x = true -> f y = true ->
  (forall z, In z b1 -> f z = false) -> (forall z, In z b2 -> f z = false) ->
  x = y.
Proof.
  revert b2. induction b1 as [|z b1 IH]; intros [|z' b2] Heq Hx Hy H1 H2.
  - now injection Heq.
  - injection Heq as -> _. rewrite (H2 z') in Hx; [discriminate|now left].
  - injection Heq as -> _. rewrite (H1 y) in Hy; [discriminate|now left].
  - injection Heq as _ Heq.
    apply (IH b2 Heq); trivial; intros w Hw; [apply H1|apply H2]; now right.
Qed.

(** X17. [inferDomain] returns one of the five names of its table;
    it returns "general" exactly when no keyword of the table occurs in
    the lower-cased content; and otherwise the name of the first entry of
    the table (in the order ai, science, technology, business) one of
    whose keywords occurs, whatever later entries match as well. *)
Theorem inferDomain_is_first_mentioned_domain :
  forall content : string,
    In (inferDomain content) ["ai"; "science"; "technology"; "business"; "general"]%string
    /\ (inferDomain content = "general"%string
        <-> forall entry, In entry domains -> mentions content entry = false)
    /\ forall before entry after,
         domains = (before ++ entry :: after)%list ->
         mentions content entry = true ->
         (forall earlier, In earlier before -> mentions content earlier = false) ->
         inferDomain content = fst entry.
Proof.
  intros content. unfold inferDomain.
  pose proof (find_first (mentions content) domains) as Hfind.
  change (find _ domains) with (find (mentions content) domains).
  destruct (find (mentions content) domains) as [found|] eqn:Hfound.
  - destruct Hfind as (before & after & Hsplit & Hyes & Hno).
    assert (Hin : In found domains) by (rewrite Hsplit; apply in_elt).
    split; [|split].
    + apply (in_map fst) in Hin. cbn in Hin. cbn. tauto.
    + split.
      * intros Hgen entry Hentry. exfalso. cbn in Hin.
        destruct Hin as [<-|[<-|[<-|[<-|[<-|[]]]]]]; discriminate.
      * intros Hnone. rewrite (Hnone found Hin) in Hyes. discriminate.
    + intros b e a Hsplit' He Hb. f_equal.
      apply (first_match_unique (mentions content) before b after a); trivial.
      now rewrite <- Hsplit.
  - split; [|split].
    + cbn. tauto.
    + split; trivial.
    + intros b e a Hsplit He _. rewrite (Hfind e) in He; [discriminate|].
      rewrite Hsplit. apply in_elt.
Qed.

Lemma toLowerCase_append (a b : string) :
  JS.toLowerCase (String.append a b)
  = String.append (JS.toLowerCase a) (JS.toLowerCase b).
Proof. induction a as [|c a IH]; cbn; [reflexivity|now rewrite IH]. Qed.

Lemma substring_prefix (k b : string) :
  String.substring 0 (String.length k) (String.append k b) = k.
Proof. induction k as [|c k IH]; cbn; [now destruct b|now rewrite IH]. Qed.

Lemma substring_middle (a k b : string) :
  String.substring (String.length a) (String.length k)
                   (String.append a (String.append k b)) = k.
Proof. induction a as [|c a IH]; cbn; [apply substring_prefix|exact IH]. Qed.

(** [includes] finds a word wherever it stands. *)
Lemma includes_middle (a k b : string) :
  JS.includes (String.append a (String.append k b)) k = true.
Proof.
  unfold JS.includes.
  destruct (String.index 0 k (String.append a (String.append k b))) eqn:Hindex; trivial.
  destruct k as [|c k].
  - apply String.index_correct4 in Hindex. lia.
  - exfalso.
    apply (String.index_correct3 0 (String.length a)) in Hindex;
      [|discriminate|lia].
    apply Hindex, substring_middle.
Qed.

(** X18. A content in which one of the four keywords of the domain "ai"
    occurs, in any mix of upper and lower case and whatever stands before
    and after it, is classified "ai", also when keywords of other domains
    occur in it. *)
Theorem inferDomain_ai_keyword_wins :
  forall (before word after keyword : string),
    In keyword ["artificial intelligence"; "machine learning";
                "neural network"; "deep learning"]%string ->
    JS.toLowerCase word = keyword ->
    inferDomain (String.append before (String.append word after)) = "ai"%string.
Proof.
  intros before word after keyword Hkeyword Hword. unfold inferDomain.
  rewrite !toLowerCase_append, Hword.
  assert (Hai : existsb (JS.includes
                           (String.append (JS.toLowerCase before)
                              (String.append keyword (JS.toLowerCase after))))
                        ["artificial intelligence"; "machine learning";
                         "neural network"; "deep learning"]%string = true).
  { apply existsb_exists. exists keyword. split; trivial. apply includes_middle. }
  unfold domains. cbn [find snd]. now rewrite Hai.
Qed.

Lemma inferDomain_ai_keyword_wins_witness :
  JS.toLowerCase "Machine Learning" = "machine learning"%string
  /\ inferDomain "A market study of Machine Learning software" = "ai"%string.
Proof.
  split; [reflexivity|].
  apply (inferDomain_ai_keyword_wins "A market study of " "Machine Learning"
           " software" "machine learning"); [|reflexivity].
  right. now left.
Defined.

(** ** What an insertion stores *)

Lemma add_connections_same (cs : list string) (n : KnowledgeNode.t) :
  same_but_connections n (add_connections cs n).
Proof. unfold same_but_connections, add_connections. cbn. tauto. Qed.

(** X19. After [addKnowledge] with a fresh identifier, the returned
    identifier is the last key of the node map and looking it up yields a
    node with that identifier, the given content and type, the label of
    the content, weight 1, the embedding of the content, the metadata
    literal completed with the defaults, and connections that name other
    nodes stored before; every node stored before is still stored under
    its key, with all fields unchanged but the connections, to which only
    the new identifier may have been appended. *)
Theorem addKnowledge_stores_retrievable_node :
  forall (env : Host) (content : string) (type : NodeType)
         (metadata : Metadata.literal) (g : KnowledgeGraph),
    fresh_node_id env g ->
    let id := fst (addKnowledge env content type metadata g) in
    let g' := snd (addKnowledge env content type metadata g) in
    JS.Map.keys (nodes g') = (JS.Map.keys (nodes g) ++ [id])%list
    /\ (exists node,
           JS.Map.get id (nodes g') = Some node
           /\ KnowledgeNode.id node = id
           /\ KnowledgeNode.content node = content
           /\ KnowledgeNode.type node = type
           /\ KnowledgeNode.label node = extractLabel content
           /\ KnowledgeNode.weight node = 1%float
           /\ KnowledgeNode.embedding node = Some (generateEmbedding env content)
           /\ KnowledgeNode.metadata node = node_metadata content metadata
           /\ forall c, In c (KnowledgeNode.connections node) ->
                        c <> id /\ In c (JS.Map.keys (nodes g)))
    /\ forall k old,
         In (k, old) (nodes g) ->
         exists new extra,
           In (k, new) (nodes g')
           /\ same_but_connections old new
           /\ KnowledgeNode.connections new
              = (KnowledgeNode.connections old ++ extra)%list
           /\ forall c, In c extra -> c = id.
Proof.
  intros env content type metadata g Hfresh id g'.
  unfold g'. rewrite addKnowledge_nodes.
  change id with (randomUUID env 0).
  set (n := randomUUID env 0). set (node := new_node env content type metadata).
  rewrite (Map_set_fresh n node (nodes g) Hfresh).
  set (linked := linked_keys n _ _).
  split; [|split].
  - rewrite keys_relinked. unfold JS.Map.keys. now rewrite map_app.
  - exists (add_connections linked node).
    rewrite Map_get_relink, pushed_self.
    assert (Hget : JS.Map.get n (nodes g ++ [(n, node)]) = Some node).
    { clear linked. unfold fresh_node_id in Hfresh. fold n in Hfresh.
      induction (nodes g) as [|[k v] m IH]; cbn.
      - now rewrite String.eqb_refl.
      - destruct (String.eqb_spec k n) as [->|Hne].
        + exfalso. apply Hfresh. now left.
        + apply IH. intros Hin. apply Hfresh. now right. }
    rewrite Hget. cbn [option_map].
    do 8 (split; [reflexivity|]).
    intros c Hc. cbn in Hc. apply linked_keys_In in Hc.
    destruct Hc as (v & Hin & Hlinkable).
    apply andb_prop in Hlinkable. destruct Hlinkable as [Hne _]. cbn [fst] in Hne.
    destruct (String.eqb_spec c n) as [|Hne']; [discriminate|].
    split; trivial.
    apply in_app_iff in Hin. destruct Hin as [Hin|[Heq|[]]].
    + apply (in_map fst) in Hin. exact Hin.
    + injection Heq as Heq _. congruence.
  - intros k old Hin.
    exists (add_connections (pushed n linked k) old), (pushed n linked k).
    split; [|split; [apply add_connections_same|split; [reflexivity|]]].
    + apply In_relinked. exists old. split; trivial. apply in_app_iff. now left.
    + intros c Hc.
      assert (Hne : k <> n).
      { intros ->. apply Hfresh. apply (in_map fst) in Hin. exact Hin. }
      now apply In_pushed_other in Hc.
Qed.

Lemma addKnowledge_stores_retrievable_node_witness :
  fresh_node_id host_c graph_two
  /\ JS.Map.keys (nodes (snd (addKnowledge host_c "Deep learning" concept
                                Metadata.no_keys graph_two)))
     = ["a"; "b"; "c"]%string.
Proof.
  assert (Hfresh : fresh_node_id host_c graph_two).
  { vm_compute. intros [H|[H|[]]]; discriminate H. }
  split; [exact Hfresh|].
  rewrite (proj1 (addKnowledge_stores_retrievable_node host_c "Deep learning" concept
                    Metadata.no_keys graph_two Hfresh)).
  reflexivity.
Defined.

(** ** What a reinforcement leaves alone *)

Lemma same_refl (n : KnowledgeNode.t) : same_but_weight_and_confidence n n.
Proof. unfold same_but_weight_and_confidence. tauto. Qed.

Lemma reinforce_node_same (feedback : Feedback) (n : KnowledgeNode.t) :
  same_but_weight_and_confidence n (reinforce_node feedback n).
Proof.
  unfold same_but_weight_and_confidence, reinforce_node. cbn.
  do 9 (split; [reflexivity|]). now intros ->.
Qed.

(** X20. [reinforceKnowledge] changes nothing but the weight and the
    confidence of the node it is called on: the edges and the learning
    history are the same (no snapshot is recorded), the node map has the
    same keys in the same order, the nodes under other keys are the same,
    and the node under the key keeps its identifier, label, type,
    content, embedding, connections, timestamp, source and domain; a
    missing confidence stays missing. *)
Theorem reinforceKnowledge_changes_one_node :
  forall (env : Host) (nodeId : string) (feedback : Feedback) (g : KnowledgeGraph),
    let g' := reinforceKnowledge env nodeId feedback g in
    edges g' = edges g
    /\ learningHistory g' = learningHistory g
    /\ Forall2 (fun old new =>
                  fst new = fst old
                  /\ same_but_weight_and_confidence (snd old) (snd new)
                  /\ (fst old <> nodeId -> new = old))
               (nodes g) (nodes g').
Proof.
  intros env nodeId feedback g g'. unfold g', reinforceKnowledge.
  destruct (JS.Map.get nodeId (nodes g)) as [node|].
  - rewrite saveToStorage_edges, saveToStorage_history, saveToStorage_nodes.
    cbn [edges learningHistory nodes]. do 2 (split; [reflexivity|]).
    unfold JS.Map.modify.
    induction (nodes g) as [|[k n] m IH]; cbn [map]; constructor; trivial.
    cbn [fst snd]. destruct (String.eqb_spec k nodeId) as [->|Hne]; cbn [fst snd].
    + split; [reflexivity|]. split; [apply reinforce_node_same|congruence].
    + split; [reflexivity|]. split; [apply same_refl|reflexivity].
  - do 2 (split; [reflexivity|]).
    induction (nodes g) as [|[k n] m IH]; constructor; trivial.
    split; [reflexivity|]. split; [apply same_refl|reflexivity].
Qed.

(** ** Persistence *)

(** X22. A failing [localStorage.setItem] is swallowed: the identifier
    returned, the node map, the edge map and the learning history after
    [addKnowledge] or [reinforceKnowledge] are the same as when it
    succeeds, and the slot keeps the content it had before the call. *)
Theorem failed_save_is_silent :
  forall (env : Host) (g : KnowledgeGraph),
    let ok := with_setItem true env in
    let failing := with_setItem false env in
    (forall content type metadata,
        let g_ok := snd (addKnowledge ok content type metadata g) in
        let g_failed := snd (addKnowledge failing content type metadata g) in
        fst (addKnowledge failing content type metadata g)
        = fst (addKnowledge ok content type metadata g)
        /\ nodes g_failed = nodes g_ok
        /\ edges g_failed = edges g_ok
        /\ learningHistory g_failed = learningHistory g_ok
        /\ storage g_failed = storage g)
    /\ (forall nodeId feedback,
           let g_ok := reinforceKnowledge ok nodeId feedback g in
           let g_failed := reinforceKnowledge failing nodeId feedback g in
           nodes g_failed = nodes g_ok
           /\ edges g_failed = edges g_ok
           /\ learningHistory g_failed = learningHistory g_ok
           /\ storage g_failed = storage g).
Proof.
  intros env g ok failing. split.
  - intros content type metadata g_ok g_failed.
    unfold g_ok, g_failed, addKnowledge. cbn [fst snd].
    rewrite !saveToStorage_nodes, !saveToStorage_edges, !saveToStorage_history.
    do 4 (split; [reflexivity|]).
    unfold saveToStorage. cbn [failing with_setItem setItem_ok updateMetrics storage].
    exact (proj2 (createConnections_history _ _ _)).
  - intros nodeId feedback g_ok g_failed. unfold g_ok, g_failed, reinforceKnowledge.
    destruct (JS.Map.get nodeId (nodes g)) as [node|]; [|tauto].
    rewrite !saveToStorage_nodes, !saveToStorage_edges, !saveToStorage_history.
    do 3 (split; [reflexivity|]). reflexivity.
Qed.

(** ** Self-improvement *)

Lemma reinforce_each_reachable (hosts : nat -> Host) (topNodes : list KnowledgeNode.t) :
  forall (k : nat) (g : KnowledgeGraph),
    reachable g -> reachable (reinforce_each hosts k topNodes g).
Proof.
  induction topNodes as [|node rest IH]; intros k g Hreach; trivial.
  cbn [reinforce_each]. apply IH. now constructor.
Qed.

Lemma reinforce_each_frame (hosts : nat -> Host) (topNodes : list KnowledgeNode.t) :
  forall (k : nat) (g : KnowledgeGraph),
    edges (reinforce_each hosts k topNodes g) = edges g
    /\ learningHistory (reinforce_each hosts k topNodes g) = learningHistory g
    /\ JS.Map.keys (nodes (reinforce_each hosts k topNodes g)) = JS.Map.keys (nodes g)
    /\ forall a n, In (a, n) (nodes g) ->
                   ~ In a (map KnowledgeNode.id topNodes) ->
                   In (a, n) (nodes (reinforce_each hosts k topNodes g)).
Proof.
  induction topNodes as [|node rest IH]; intros k g; [now repeat split|].
  cbn [reinforce_each map].
  destruct (IH (S k) (reinforceKnowledge (hosts k) (KnowledgeNode.id node) fb_positive g))
    as (He & Hh & Hk & Hn).
  assert (Hone : edges (reinforceKnowledge (hosts k) (KnowledgeNode.id node) fb_positive g)
                 = edges g
                 /\ learningHistory
                      (reinforceKnowledge (hosts k) (KnowledgeNode.id node) fb_positive g)
                    = learningHistory g
                 /\ Forall2 (fun old new =>
                               fst new = fst old
                               /\ (fst old <> KnowledgeNode.id node -> new = old))
                            (nodes g)
                            (nodes (reinforceKnowledge (hosts k) (KnowledgeNode.id node)
                                      fb_positive g))).
  { unfold reinforceKnowledge.
    destruct (JS.Map.get (KnowledgeNode.id node) (nodes g)) as [found|].
    - rewrite saveToStorage_edges, saveToStorage_history, saveToStorage_nodes.
      cbn [edges learningHistory nodes]. do 2 (split; [reflexivity|]).
      unfold JS.Map.modify.
      induction (nodes g) as [|[a n] m IHm]; cbn [map]; constructor; trivial.
      cbn [fst snd].
      destruct (String.eqb_spec a (KnowledgeNode.id node)) as [->|Hne]; cbn [fst snd];
        (split; [reflexivity|congruence]).
    - do 2 (split; [reflexivity|]).
      induction (nodes g) as [|[a n] m IHm]; constructor; trivial. now split. }
  destruct Hone as (He' & Hh' & Hall).
  rewrite He, Hh, Hk, He', Hh'. do 2 (split; [reflexivity|]). split.
  - clear - Hall. unfold JS.Map.keys.
    induction Hall as [|old new m m' (Hfst & _) _ IH']; cbn [map]; congruence.
  - intros a n Hin Hout. apply Hn; [|intros H; apply Hout; now right].
    assert (Hne : a <> KnowledgeNode.id node) by (intros ->; apply Hout; now left).
    clear - Hall Hin Hne.
    induction Hall as [|old new m m' (_ & Hsame) _ IH']; [destruct Hin|].
    destruct Hin as [->|Hin]; [left; now apply Hsame|right; now apply IH'].
Qed.

(** X23. [handleSelfImprove] reinforces at most three nodes, those whose
    identifiers are the first three of the top concepts last shown: on a
    graph built by the engine the result is again such a graph, with the
    same edges, the same learning history and the same keys; every node
    stored under another identifier is unchanged; and all weights are
    still in [[0.1, 2]]. *)
Theorem handleSelfImprove_touches_the_first_three_shown :
  forall (hosts : nat -> Host) (shown : Insights.t) (g : KnowledgeGraph),
    reachable g ->
    let g' := handleSelfImprove hosts shown g in
    let targets := map KnowledgeNode.id (firstn 3 (Insights.topConcepts shown)) in
    List.length targets <= 3
    /\ reachable g'
    /\ edges g' = edges g
    /\ learningHistory g' = learningHistory g
    /\ JS.Map.keys (nodes g') = JS.Map.keys (nodes g)
    /\ (forall a n, In (a, n) (nodes g) -> ~ In a targets -> In (a, n) (nodes g'))
    /\ weights_in_range g'.
Proof.
  intros hosts shown g Hreach g' targets.
  assert (Hreach' : reachable g') by now apply reinforce_each_reachable.
  destruct (reinforce_each_frame hosts (firstn 3 (Insights.topConcepts shown)) 0 g)
    as (He & Hh & Hk & Hn).
  split; [unfold targets; rewrite length_map, length_firstn; lia|].
  do 5 (split; trivial).
  now apply reachable_weights_in_range.
Qed.

Lemma handleSelfImprove_touches_the_first_three_shown_witness :
  reachable graph_two
  /\ reachable (handleSelfImprove (fun _ => host_c) (getInsights graph_two) graph_two).
Proof.
  split; [exact reachable_graph_two|].
  exact (proj1 (proj2 (handleSelfImprove_touches_the_first_three_shown
                         (fun _ => host_c) (getInsights graph_two) graph_two
                         reachable_graph_two))).
Defined.

(** ** What the edges say about their endpoints *)

Lemma describes_endpoints_step (g g' : KnowledgeGraph) (e : KnowledgeEdge.t) :
  (forall k n, In (k, n) (nodes g) ->
               exists n', In (k, n') (nodes g')
                          /\ KnowledgeNode.type n' = KnowledgeNode.type n
                          /\ KnowledgeNode.embedding n' = KnowledgeNode.embedding n) ->
  describes_endpoints g e -> describes_endpoints g' e.
Proof.
  intros Hkeep (s & t & es & et & Hs & Ht & Hes & Het & Hw & Hlt & Hrel).
  destruct (Hkeep _ _ Hs) as (s' & Hs' & Htype_s & Hemb_s).
  destruct (Hkeep _ _ Ht) as (t' & Ht' & Htype_t & Hemb_t).
  exists s', t', es, et. rewrite Htype_s, Htype_t, Hemb_s, Hemb_t. tauto.
Qed.

Lemma reachable_edges_describe_endpoints (g : KnowledgeGraph) :
  reachable g ->
  forall eid e, In (eid, e) (edges g) -> describes_endpoints g e.
Proof.
  induction 1 as [|env content type metadata g Hreach IH Hnode Hedge
                  |env nodeId feedback g Hreach IH].
  - intros eid e [].
  - intros eid e Hin.
    set (g' := snd (addKnowledge env content type metadata g)).
    set (n := randomUUID env 0).
    set (node := new_node env content type metadata).
    set (linked := linked_keys n (generateEmbedding env content)
                     (JS.Map.set n node (nodes g))).
    assert (Hnodes : forall k v, In (k, v) (nodes g ++ [(n, node)]) ->
                                 In (k, add_connections (pushed n linked k) v) (nodes g')).
    { intros k v Hkv. unfold g'. rewrite addKnowledge_nodes.
      apply In_relinked. exists v. split; trivial.
      fold n node. now rewrite (Map_set_fresh n node (nodes g) Hnode). }
    rewrite (addKnowledge_edges _ _ _ _ _ Hedge) in Hin.
    apply in_app_iff in Hin. destruct Hin as [Hin|Hin].
    + apply (describes_endpoints_step g); [|now apply (IH eid)].
      intros k v Hkv. exists (add_connections (pushed n linked k) v).
      split; [|now split]. apply Hnodes, in_app_iff. now left.
    + apply created_edges_In in Hin.
      destruct Hin as (existingNode & existingEmbedding & Ht & Hs & Hne & Hemb & Hw & Hlt & Hrel).
      fold n node in Ht. rewrite (Map_set_fresh n node (nodes g) Hnode) in Ht.
      exists (add_connections (pushed n linked n) node),
             (add_connections (pushed n linked (KnowledgeEdge.target e)) existingNode),
             (generateEmbedding env content), existingEmbedding.
      rewrite Hs. fold n.
      split; [apply Hnodes, in_app_iff; right; now left|].
      split; [now apply Hnodes|].
      rewrite Hrel, inferRelationship_rule. now repeat split.
  - intros eid e Hin. unfold reinforceKnowledge in *.
    destruct (JS.Map.get nodeId (nodes g)) as [node|]; [|now apply (IH eid)].
    rewrite saveToStorage_edges in Hin. cbn [edges] in Hin.
    apply (describes_endpoints_step g); [|now apply (IH eid)].
    intros k v Hkv. rewrite saveToStorage_nodes. cbn [nodes]. unfold JS.Map.modify.
    destruct (String.eqb k nodeId) eqn:Heq.
    + exists (reinforce_node feedback v). split; [|now split].
      apply in_map_iff. exists (k, v). cbn [fst snd]. now rewrite Heq.
    + exists v. split; [|now split].
      apply in_map_iff. exists (k, v). cbn [fst snd]. now rewrite Heq.
Qed.

Lemma reachable_edges_point_backwards (g : KnowledgeGraph) :
  reachable g ->
  forall eid e, In (eid, e) (edges g) ->
                inserted_before g (KnowledgeEdge.target e) (KnowledgeEdge.source e).
Proof.
  induction 1 as [|env content type metadata g Hreach IH Hnode Hedge
                  |env nodeId feedback g Hreach IH].
  - intros eid e [].
  - intros eid e Hin. unfold inserted_before.
    assert (Hkeys : JS.Map.keys (nodes (snd (addKnowledge env content type metadata g)))
                    = (JS.Map.keys (nodes g) ++ [randomUUID env 0])%list).
    { rewrite addKnowledge_nodes, keys_relinked, (Map_set_fresh _ _ _ Hnode).
      unfold JS.Map.keys. now rewrite map_app. }
    rewrite Hkeys.
    rewrite (addKnowledge_edges _ _ _ _ _ Hedge) in Hin.
    apply in_app_iff in Hin. destruct Hin as [Hin|Hin].
    + destruct (IH eid e Hin) as (l1 & l2 & l3 & ->).
      exists l1, l2, (l3 ++ [randomUUID env 0])%list.
      now rewrite <- !app_assoc, <- !app_comm_cons, <- !app_assoc, <- !app_comm_cons.
    + apply created_edges_In in Hin.
      destruct Hin as (existingNode & _ & Ht & Hs & Hne & _).
      rewrite (Map_set_fresh _ _ _ Hnode) in Ht.
      apply in_app_iff in Ht. destruct Ht as [Ht|[Heq|[]]];
        [|injection Heq as Heq _; congruence].
      apply (in_map fst) in Ht. cbn [fst] in Ht.
      apply in_split in Ht. destruct Ht as (l1 & l2 & Hsplit).
      exists l1, l2, []. unfold JS.Map.keys. rewrite Hsplit, Hs.
      now rewrite <- app_assoc, <- app_comm_cons.
  - intros eid e Hin. unfold inserted_before, reinforceKnowledge in *.
    destruct (JS.Map.get nodeId (nodes g)) as [node|]; [|now apply (IH eid)].
    rewrite saveToStorage_edges in Hin. rewrite saveToStorage_nodes.
    cbn [nodes edges] in *. rewrite Map_keys_modify. now apply (IH eid).
Qed.

Lemma NoDup_split_unique {A : Type} (a : A) (l1 r l1' r' : list A) :
  NoDup (l1 ++ a :: r) -> (l1 ++ a :: r = l1' ++ a :: r')%list -> l1 = l1'.
Proof.
  revert l1'. induction l1 as [|x l1 IH]; intros [|y l1'] Hnd Heq; trivial.
  - injection Heq as <- ->. cbn in Hnd. apply NoDup_cons_iff in Hnd.
    exfalso. apply (proj1 Hnd), in_elt.
  - injection Heq as -> <-. cbn in Hnd. apply NoDup_cons_iff in Hnd.
    exfalso. apply (proj1 Hnd), in_elt.
  - injection Heq as <- Heq. cbn in Hnd. apply NoDup_cons_iff in Hnd.
    f_equal. now apply IH.
Qed.

(** X24. In every graph built from the empty one by insertions and
    reinforcements, every stored edge describes the two nodes stored
    under its endpoints as they are now: both carry an embedding, the
    weight of the edge is the similarity of the embedding of the source
    with that of the target and is above 0.7, and the relationship is the
    one the rule gives for the type of the source and the type of the
    target.  The source was inserted after the target, and no edge leads
    back from the target of an edge to its source. *)
Theorem reachable_edges_describe_their_endpoints :
  forall g : KnowledgeGraph,
    reachable g ->
    forall eid e,
      In (eid, e) (edges g) ->
      describes_endpoints g e
      /\ inserted_before g (KnowledgeEdge.target e) (KnowledgeEdge.source e)
      /\ forall eid' e',
           In (eid', e') (edges g) ->
           ~ (KnowledgeEdge.source e' = KnowledgeEdge.target e
              /\ KnowledgeEdge.target e' = KnowledgeEdge.source e).
Proof.
  intros g Hreach eid e Hin.
  pose proof (reachable_edges_point_backwards g Hreach) as Hback.
  split; [now apply (reachable_edges_describe_endpoints g Hreach eid)|].
  split; [now apply (Hback eid)|].
  intros eid' e' Hin' [Hs Ht].
  destruct (Hback eid e Hin) as (l1 & l2 & l3 & Hkeys).
  destruct (Hback eid' e' Hin') as (l1' & l2' & l3' & Hkeys').
  rewrite Hs, Ht in Hkeys'.
  destruct (reachable_closed_symmetric g Hreach) as [[Hnd _] _].
  set (t := KnowledgeEdge.target e) in *. set (s := KnowledgeEdge.source e) in *.
  rewrite Hkeys in Hnd.
  assert (H1 : l1 = (l1' ++ s :: l2')%list).
  { apply (NoDup_split_unique t l1 (l2 ++ s :: l3) _ l3' Hnd).
    rewrite <- app_assoc, <- app_comm_cons. congruence. }
  rewrite H1, <- app_assoc, <- app_comm_cons in Hnd.
  apply NoDup_remove_2 in Hnd. apply Hnd.
  apply in_app_iff. right. apply in_app_iff. right. right.
  apply in_app_iff. right. now left.
Qed.

Lemma reachable_edges_describe_their_endpoints_witness :
  reachable graph_two_reinforced
  /\ exists eid e,
       In (eid, e) (edges graph_two_reinforced)
       /\ inserted_before graph_two_reinforced (KnowledgeEdge.target e)
                          (KnowledgeEdge.source e).
Proof.
  split; [exact reachable_graph_two_reinforced|].
  assert (H : exists eid e, In (eid, e) (edges graph_two_reinforced)).
  { do 2 eexists. vm_compute. left. reflexivity. }
  destruct H as (eid & e & Hin). exists eid, e. split; [exact Hin|].
  exact (proj1 (proj2 (reachable_edges_describe_their_endpoints graph_two_reinforced
                         reachable_graph_two_reinforced eid e Hin))).
Defined.

(** ** The graphs built through the page *)

Lemma addKnowledge_page_nodes (env : Host) (content : string) (type : NodeType)
      (metadata : Metadata.literal) (g : KnowledgeGraph) :
  page_nodes g ->
  page_node (new_node env content type metadata) ->
  page_nodes (snd (addKnowledge env content type metadata g)).
Proof.
  intros Hg Hnew k n' Hin. rewrite addKnowledge_nodes in Hin.
  apply In_relinked in Hin. destruct Hin as (n & Hin & ->).
  apply Map_set_In_inv in Hin.
  destruct Hin as [[_ ->]|Hin]; [exact Hnew|exact (Hg k n Hin)].
Qed.

Lemma self_improved_step (w : float) :
  In w self_improved_weights ->
  In (JS.Math_max 0.1 (JS.Math_min 2 (PrimFloat.add w 0.1))) self_improved_weights.
Proof.
  intros Hin. unfold self_improved_weights in Hin. cbn [In] in Hin.
  repeat (destruct Hin as [<-|Hin];
          [vm_compute; repeat (try (left; reflexivity); right)|]).
  destruct Hin.
Qed.

Lemma reinforce_positive_page_nodes (env : Host) (nodeId : string) (g : KnowledgeGraph) :
  page_nodes g -> page_nodes (reinforceKnowledge env nodeId fb_positive g).
Proof.
  intros Hg. unfold reinforceKnowledge.
  destruct (JS.Map.get nodeId (nodes g)) as [node|]; trivial.
  intros k n' Hin. rewrite saveToStorage_nodes in Hin. cbn [nodes] in Hin.
  apply In_modify in Hin. destruct Hin as (n & Hin & [->| ->]); [exact (Hg k n Hin)|].
  destruct (Hg k n Hin) as [Htyped Hweight].
  split; [exact Htyped|]. now apply self_improved_step.
Qed.

Lemma reinforce_each_page_nodes (hosts : nat -> Host) (topNodes : list KnowledgeNode.t) :
  forall (k : nat) (g : KnowledgeGraph),
    page_nodes g -> page_nodes (reinforce_each hosts k topNodes g).
Proof.
  induction topNodes as [|node rest IH]; intros k g Hg; trivial.
  cbn [reinforce_each]. now apply IH, reinforce_positive_page_nodes.
Qed.

Lemma handleResearchComplete_invariant (hosts : nat -> Host)
      (results : list ResearchResult.t) :
  forall (k : nat) (g : KnowledgeGraph),
    fresh_run hosts k results g ->
    reachable g /\ page_nodes g ->
    reachable (handleResearchComplete hosts k results g)
    /\ page_nodes (handleResearchComplete hosts k results g).
Proof.
  induction results as [|result rest IH]; intros k g Hfresh [Hreach Hnodes]; [now split|].
  destruct Hfresh as (Hnode & Hedge & Hrest).
  cbn [handleResearchComplete]. apply IH; trivial. split.
  - now apply reach_addKnowledge.
  - apply addKnowledge_page_nodes; trivial.
    split; [left; now split|now left].
Qed.

Lemma page_built_invariant (g : KnowledgeGraph) :
  page_built g -> reachable g /\ page_nodes g.
Proof.
  induction 1 as [|hosts results g Hbuilt IH Hfresh
                  |env doc g Hbuilt IH Hnode Hedge
                  |hosts shown g Hbuilt IH].
  - split; [constructor|intros k n []].
  - now apply handleResearchComplete_invariant.
  - destruct IH as [Hreach Hnodes]. split.
    + now apply reach_addKnowledge.
    + apply addKnowledge_page_nodes; trivial.
      split; [right; now split|now left].
  - destruct IH as [Hreach Hnodes]. split.
    + now apply reinforce_each_reachable.
    + now apply reinforce_each_page_nodes.
Qed.

(** A reported pattern renders one of the counted keys. *)
Lemma detectPatterns_In (g : KnowledgeGraph) (p : string) :
  In p (detectPatterns g) ->
  exists key, In key (domain_pairs g)
              /\ p = String.append "Strong connection between "
                       (JSArray.replace_dash key).
Proof.
  intros Hin. unfold detectPatterns in Hin.
  apply in_map_iff in Hin. destruct Hin as ([key c] & <- & Hin).
  exists key. split; [|reflexivity].
  assert (Hsorted : In (key, c) (JSArray.sort JSArray.fewer_after
                                   (JSArray.tally (domain_pairs g)))).
  { rewrite <- (firstn_skipn 3). apply in_app_iff. now left. }
  apply (Permutation_in _ (sort_Permutation _ _)) in Hsorted.
  apply (in_map fst) in Hsorted. cbn [fst] in Hsorted.
  rewrite (proj1 (tally_spec _)) in Hsorted.
  apply (Set_from_acc (domain_pairs g) [] (NoDup_nil _)) in Hsorted.
  now destruct Hsorted as [[]|].
Qed.

(** X25. A graph built through the page (research results, processed
    documents and self-improvement, starting from an empty slot) is a
    graph of the engine in which every node is a concept of domain
    "research" or a document of domain "document" (the inferred domain
    is always overridden) and has one of the eleven weights
    1, 1.1, 1.2000000000000002, ..., 2 that positive feedback produces;
    its edges are labelled "similar_to", "contains" or "connected_to",
    never "relates_to"; and [detectPatterns] can only report the four
    pairs made of "research" and "document". *)
Theorem page_built_graphs_use_two_domains :
  forall g : KnowledgeGraph,
    page_built g ->
    reachable g
    /\ (forall k n, In (k, n) (nodes g) -> page_node n)
    /\ (forall eid e,
           In (eid, e) (edges g) ->
           In (KnowledgeEdge.relationship e)
              ["similar_to"; "contains"; "connected_to"]%string)
    /\ (forall p,
           In p (detectPatterns g) ->
           In p ["Strong connection between research and research";
                 "Strong connection between research and document";
                 "Strong connection between document and research";
                 "Strong connection between document and document"]%string).
Proof.
  intros g Hbuilt. destruct (page_built_invariant g Hbuilt) as [Hreach Hnodes].
  split; [exact Hreach|]. split; [exact Hnodes|]. split.
  - intros eid e Hin.
    destruct (reachable_edges_describe_endpoints g Hreach eid e Hin)
      as (s & t & _ & _ & Hs & Ht & _ & _ & _ & _ & ->).
    destruct (Hnodes _ _ Hs) as [[[-> _]|[-> _]] _],
             (Hnodes _ _ Ht) as [[[-> _]|[-> _]] _]; cbn; tauto.
  - intros p Hin. destruct (detectPatterns_In g p Hin) as (key & Hkey & ->).
    destruct (domain_pairs_In g key Hkey) as (e & s & t & _ & Hs & Ht & ->).
    apply Map_get_In in Hs, Ht.
    destruct (Hnodes _ _ Hs) as [[[_ ->]|[_ ->]] _],
             (Hnodes _ _ Ht) as [[[_ ->]|[_ ->]] _]; cbn; tauto.
Qed.

Lemma page_built_graphs_use_two_domains_witness :
  page_built (handleResearchComplete (fun _ => host_c) 0 [example_result] empty_graph)
  /\ forall k n,
       In (k, n) (nodes (handleResearchComplete (fun _ => host_c) 0 [example_result]
                           empty_graph)) ->
       page_node n.
Proof.
  assert (Hbuilt : page_built (handleResearchComplete (fun _ => host_c) 0
                                 [example_result] empty_graph)).
  { apply page_research; [constructor|]. cbn [fresh_run].
    split; [intros []|]. split; [now apply fresh_ids_on_empty|exact I]. }
  split; [exact Hbuilt|].
  exact (proj1 (proj2 (page_built_graphs_use_two_domains _ Hbuilt))).
Defined.

(** ** Rounding, and the order of the weights *)

Section Rounding.
Local Open Scope Z_scope.

Lemma digits2_lower (p : positive) :
  2 ^ (Zpos (digits2_pos p) - 1) <= Zpos p.
Proof.
  induction p as [p IH|p IH|]; cbn [digits2_pos]; [| |cbn; lia].
  - rewrite Pos2Z.inj_succ.
    replace (Z.succ (Zpos (digits2_pos p)) - 1) with (Z.succ (Zpos (digits2_pos p) - 1)) by lia.
    rewrite Z.pow_succ_r by lia. lia.
  - rewrite Pos2Z.inj_succ.
    replace (Z.succ (Zpos (digits2_pos p)) - 1) with (Z.succ (Zpos (digits2_pos p) - 1)) by lia.
    rewrite Z.pow_succ_r by lia. lia.
Qed.

Lemma shr_1_lower (k : Z) (r : shr_record) :
  0 <= k -> 2 ^ (k + 1) <= shr_m r -> 2 ^ k <= shr_m (shr_1 r).
Proof.
  intros Hk. rewrite Z.pow_add_r, Z.pow_1_r by lia.
  assert (Hpos : 0 < 2 ^ k) by (apply Z.pow_pos_nonneg; lia).
  destruct r as [m b s]. cbn [shr_m shr_1].
  destruct m as [|[q|q|]|q]; cbn [shr_m]; lia.
Qed.

Lemma iter_shr_lower (p : positive) :
  forall (k : Z) (r : shr_record),
    0 <= k -> 2 ^ (k + Zpos p) <= shr_m r ->
    2 ^ k <= shr_m (SpecFloat.iter_pos shr_1 p r).
Proof.
  induction p as [p IH|p IH|]; intros k r Hk Hr; cbn [SpecFloat.iter_pos].
  - apply IH; trivial. apply IH; [lia|]. apply shr_1_lower; [lia|].
    replace (k + Zpos p + Zpos p + 1) with (k + Zpos p~1) by lia. exact Hr.
  - apply IH; trivial. apply IH; [lia|].
    replace (k + Zpos p + Zpos p) with (k + Zpos p~0) by lia. exact Hr.
  - now apply shr_1_lower.
Qed.

Lemma shr_fexp_positive (m e : Z) (l : location) :
  0 < m -> SpecFloat.emin prec emax <= e ->
  0 < shr_m (fst (shr_fexp prec emax m e l))
  /\ SpecFloat.emin prec emax <= snd (shr_fexp prec emax m e l).
Proof.
  intros Hm He. unfold shr_fexp, shr.
  assert (H0 : shr_m (shr_record_of_loc m l) = m) by (destruct l as [|[| |]]; reflexivity).
  destruct (fexp prec emax (Zdigits2 m + e) - e) as [|p|p] eqn:Hn; cbn [fst snd];
    [rewrite H0; now split| |rewrite H0; now split].
  split; [|lia].
  assert (Hlow : 2 ^ (0 + Zpos p) <= shr_m (shr_record_of_loc m l)).
  { rewrite H0. destruct m as [|q|q]; try lia. cbn [Zdigits2] in Hn.
    apply Z.le_trans with (2 ^ (Zpos (digits2_pos q) - 1)); [|apply digits2_lower].
    apply Z.pow_le_mono_r; [lia|].
    unfold fexp in Hn. change prec with 53 in *. lia. }
  pose proof (iter_shr_lower p 0 _ (Z.le_refl 0) Hlow) as H. cbn in H. lia.
Qed.

(** A positive integer at an exponent that is not below the smallest one
    rounds to a number that is not zero and keeps its sign. *)
Lemma binary_round_aux_positive (sx : bool) (m e : Z) (l : location) :
  0 < m -> SpecFloat.emin prec emax <= e ->
  (exists m' e', binary_round_aux prec emax sx m e l = S754_finite sx m' e')
  \/ binary_round_aux prec emax sx m e l = S754_infinity sx.
Proof.
  intros Hm He. unfold binary_round_aux.
  destruct (shr_fexp_positive m e l Hm He) as [H1 He1].
  destruct (shr_fexp prec emax m e l) as [mrs' e']. cbn [fst snd] in H1, He1.
  assert (H2 : 0 < round_nearest_even (shr_m mrs') (loc_of_shr_record mrs')).
  { unfold round_nearest_even.
    destruct (loc_of_shr_record mrs') as [|[| |]]; trivial;
      try destruct (Z.even (shr_m mrs')); lia. }
  destruct (shr_fexp_positive _ e' loc_Exact H2 He1) as [H3 _].
  destruct (shr_fexp prec emax _ e' loc_Exact) as [mrs'' e'']. cbn [fst] in H3.
  destruct (shr_m mrs'') as [|q|q]; try lia.
  destruct (e'' <=? emax - prec); [left; now exists q, e''|now right].
Qed.

Lemma binary_normalize_positive (m e : Z) :
  0 < m -> SpecFloat.emin prec emax <= e ->
  (exists m' e', binary_normalize prec emax m e false = S754_finite false m' e')
  \/ binary_normalize prec emax m e false = S754_infinity false.
Proof.
  intros Hm He. destruct m as [|q|q]; try lia. cbn [binary_normalize].
  unfold binary_round.
  destruct (shl_align q e _) as [mz ez] eqn:Halign.
  apply binary_round_aux_positive; [lia|].
  unfold shl_align in Halign.
  destruct (fexp prec emax (Zpos (digits2_pos q) + e) - e) eqn:Hd;
    injection Halign as _ <-; trivial.
  unfold fexp. lia.
Qed.

End Rounding.

Lemma of_Z_spec (z : Z) :
  (0 <= z < 2 ^ 63)%Z ->
  Prim2SF (JS.of_Z z) = binary_normalize prec emax z 0 false.
Proof.
  intros Hz. unfold JS.of_Z.
  assert (H : binary_normalize prec emax z 0 false
              = Prim2SF (PrimFloat.of_uint63 (Uint63.of_Z z))).
  { rewrite FloatAxioms.of_uint63_spec. f_equal.
    change (Uint63Axioms.to_Z (Uint63.of_Z z)) with (Uint63.to_Z (Uint63.of_Z z)).
    rewrite Uint63.of_Z_spec. rewrite Z.mod_small; trivial. }
  rewrite H at 1. now rewrite FloatAxioms.SF2Prim_Prim2SF.
Qed.

(** Zero divided by a positive integer below [2^63] is [+0]. *)
Lemma zero_over_positive (z : Z) :
  (0 < z < 2 ^ 63)%Z -> PrimFloat.div (JS.of_Z 0) (JS.of_Z z) = 0%float.
Proof.
  intros Hz. apply FloatAxioms.Prim2SF_inj.
  rewrite FloatAxioms.div_spec, (of_Z_spec z) by lia.
  change (Prim2SF (JS.of_Z 0)) with (S754_zero false).
  change (Prim2SF 0) with (S754_zero false).
  destruct (binary_normalize_positive z 0) as [(m' & e' & ->)| ->];
    [lia|unfold SpecFloat.emin; cbn; lia| |]; reflexivity.
Qed.

(** X26. The growth rate reported by [getInsights] is always 0: it is
    computed against the last recorded snapshot, which already counts
    every stored node, because reinforcements record none and insertions
    record theirs before returning.  (The number of nodes is assumed
    below [2^63], far above what a [Map] can hold.) *)
Theorem getInsights_growth_rate_is_zero :
  forall g : KnowledgeGraph,
    reachable g ->
    (JS.Map.size (nodes g) < 2 ^ 63)%Z ->
    LearningMetrics.growthRate (Insights.metrics (getInsights g)) = 0%float.
Proof.
  intros g Hreach Hsize.
  destruct (reachable_history g Hreach) as [_ Hlast].
  unfold getInsights, calculateMetrics.
  cbn [Insights.metrics LearningMetrics.growthRate].
  destruct (last (map Some (learningHistory g)) None) as [previousMetrics|] eqn:Hprev;
    [|reflexivity].
  destruct (Hlast previousMetrics eq_refl) as [-> _].
  rewrite Z.sub_diag.
  destruct (nodes g) as [|entry rest] eqn:Hnodes.
  - reflexivity.
  - apply zero_over_positive. unfold JS.Map.size in *. cbn [List.length] in *. lia.
Qed.

Lemma getInsights_growth_rate_is_zero_witness :
  reachable graph_two
  /\ (JS.Map.size (nodes graph_two) < 2 ^ 63)%Z
  /\ LearningMetrics.growthRate (Insights.metrics (getInsights graph_two)) = 0%float
  /\ map LearningMetrics.growthRate (learningHistory graph_two) = [0; 1]%float.
Proof.
  assert (Hsize : (JS.Map.size (nodes graph_two) < 2 ^ 63)%Z) by (vm_compute; reflexivity).
  split; [exact reachable_graph_two|]. split; [exact Hsize|].
  split; [|reflexivity].
  exact (getInsights_growth_rate_is_zero graph_two reachable_graph_two Hsize).
Defined.

Section Ordering.
Local Open Scope Z_scope.

Lemma digits2_upper (p : positive) : Zpos p < 2 ^ Zpos (digits2_pos p).
Proof.
  induction p as [p IH|p IH|]; cbn [digits2_pos]; [| |cbn; lia];
    rewrite Pos2Z.inj_succ, Z.pow_succ_r by lia; lia.
Qed.

Lemma iter_xO_value (m d : positive) :
  Zpos (Pos.iter xO m d) = Zpos m * 2 ^ Zpos d.
Proof.
  induction d as [|d IH] using Pos.peano_ind.
  - cbn. lia.
  - rewrite Pos.iter_succ, Pos2Z.inj_succ, Z.pow_succ_r by lia.
    rewrite Pos2Z.inj_xO, IH. lia.
Qed.

Lemma shl_align_value (m : positive) (e ez : Z) :
  ez <= e -> Zpos (fst (shl_align m e ez)) = Zpos m * 2 ^ (e - ez).
Proof.
  intros Hle. unfold shl_align.
  destruct (ez - e) as [|d|d] eqn:Hd; cbn [fst]; try lia.
  - replace (e - ez) with 0 by lia. lia.
  - rewrite iter_xO_value. f_equal. f_equal. lia.
Qed.

Lemma binary_normalize_sign (m e : Z) :
  SpecFloat.emin prec emax <= e ->
  SFltb (S754_zero false) (binary_normalize prec emax m e false) = (0 <? m).
Proof.
  intros He. destruct (Z.ltb_spec 0 m) as [Hm|Hm].
  - destruct (binary_normalize_positive m e Hm He) as [(m' & e' & ->)| ->]; reflexivity.
  - destruct m as [|q|q]; [reflexivity|lia|].
    cbn [binary_normalize]. unfold binary_round.
    destruct (shl_align q e _) as [mz ez]. unfold binary_round_aux.
    destruct (shr_fexp prec emax (Zpos mz) ez loc_Exact) as [mrs' e'].
    destruct (shr_fexp prec emax _ e' loc_Exact) as [mrs'' e''].
    destruct (shr_m mrs'') as [|r|r]; try reflexivity.
    now destruct (e'' <=? emax - prec).
Qed.

(** What validity says about a mantissa and its exponent. *)
Lemma bounded_inv (m : positive) (e : Z) :
  bounded prec emax m e = true ->
  SpecFloat.emin prec emax <= e
  /\ Zpos m < 2 ^ 53
  /\ (SpecFloat.emin prec emax < e -> 2 ^ 52 <= Zpos m).
Proof.
  unfold bounded, canonical_mantissa, fexp. intros H.
  apply andb_prop in H. destruct H as [H _]. apply Z.eqb_eq in H.
  change prec with 53 in *. change (SpecFloat.emin 53 emax) with (-1074) in *.
  pose proof (digits2_upper m) as Hup. pose proof (digits2_lower m) as Hlow.
  split; [lia|]. split.
  - apply Z.lt_le_trans with (2 ^ Zpos (digits2_pos m)); trivial.
    apply Z.pow_le_mono_r; lia.
  - intros He. replace (Zpos (digits2_pos m)) with 53 in Hlow by lia. exact Hlow.
Qed.

Lemma scaled_lt (mx my : positive) (ex ey ez : Z) :
  ez <= ex -> ez <= ey -> -1074 <= ez ->
  (Zpos mx * 2 ^ (ex - ez) <? Zpos my * 2 ^ (ey - ez))
  = (Zpos mx * 2 ^ (ex + 1074) <? Zpos my * 2 ^ (ey + 1074)).
Proof.
  intros Hx Hy Hz.
  replace (ex + 1074) with ((ex - ez) + (ez + 1074)) by lia.
  replace (ey + 1074) with ((ey - ez) + (ez + 1074)) by lia.
  rewrite (Z.pow_add_r 2 (ex - ez) (ez + 1074)),
          (Z.pow_add_r 2 (ey - ez) (ez + 1074)) by lia.
  assert (Hpos : 0 < 2 ^ (ez + 1074)) by (apply Z.pow_pos_nonneg; lia).
  rewrite !Z.mul_assoc.
  apply Bool.eq_iff_eq_true. rewrite !Z.ltb_lt.
  now apply Z.mul_lt_mono_pos_r.
Qed.

(** On positive finite numbers, [b - a > 0] tells that [a] is the
    smaller multiple of [2^-1074]: the difference is never rounded to 0. *)
Lemma sub_positive_iff (a b : float) :
  positive_finite a -> positive_finite b ->
  PrimFloat.ltb 0 (PrimFloat.sub b a) = (scaled a <? scaled b).
Proof.
  intros (mx & ex & Ha) (my & ey & Hb).
  pose proof (FloatAxioms.Prim2SF_valid a) as Hva.
  pose proof (FloatAxioms.Prim2SF_valid b) as Hvb.
  unfold scaled. rewrite FloatAxioms.ltb_spec, FloatAxioms.sub_spec, Ha, Hb in *.
  cbn [SpecFloat.valid_binary] in Hva, Hvb.
  destruct (bounded_inv mx ex Hva) as (Hex & _), (bounded_inv my ey Hvb) as (Hey & _).
  change (SpecFloat.emin prec emax) with (-1074) in *.
  change (Prim2SF 0) with (S754_zero false).
  unfold SF64sub, SFsub. cbn [cond_Zopp].
  rewrite binary_normalize_sign by (change (SpecFloat.emin prec emax) with (-1074); lia).
  rewrite !shl_align_value by lia.
  rewrite <- (scaled_lt mx my ex ey (Z.min ey ex)) by lia.
  destruct (Z.ltb_spec 0 (Zpos my * 2 ^ (ey - Z.min ey ex) - Zpos mx * 2 ^ (ex - Z.min ey ex)));
    destruct (Z.ltb_spec (Zpos mx * 2 ^ (ex - Z.min ey ex)) (Zpos my * 2 ^ (ey - Z.min ey ex)));
    trivial; lia.
Qed.

(** On positive finite numbers the order is the order of the multiples. *)
Lemma ltb_scaled (a b : float) :
  positive_finite a -> positive_finite b ->
  PrimFloat.ltb a b = (scaled a <? scaled b).
Proof.
  intros (mx & ex & Ha) (my & ey & Hb).
  pose proof (FloatAxioms.Prim2SF_valid a) as Hva.
  pose proof (FloatAxioms.Prim2SF_valid b) as Hvb.
  unfold scaled. rewrite FloatAxioms.ltb_spec, Ha, Hb in *.
  cbn [SpecFloat.valid_binary] in Hva, Hvb.
  destruct (bounded_inv mx ex Hva) as (Hex & Hxup & Hxlow),
           (bounded_inv my ey Hvb) as (Hey & Hyup & Hylow).
  change (SpecFloat.emin prec emax) with (-1074) in *.
  unfold SFltb, SFcompare.
  destruct (Z.compare_spec ex ey) as [Heq|Hlt|Hgt].
  - subst ey. rewrite Pos.compare_cont_spec.
    change (Pos.compare mx my) with (Z.compare (Zpos mx) (Zpos my)).
    assert (Hpos : 0 < 2 ^ (ex + 1074)) by (apply Z.pow_pos_nonneg; lia).
    destruct (Z.compare_spec (Zpos mx) (Zpos my)) as [Heq|Hlt|Hgt];
      cbn [Pos.switch_Eq]; symmetry.
    + apply Z.ltb_ge. rewrite Heq. apply Z.le_refl.
    + apply Z.ltb_lt. now apply Z.mul_lt_mono_pos_r.
    + apply Z.ltb_ge. apply Z.mul_le_mono_nonneg_r; lia.
  - specialize (Hylow ltac:(lia)).
    replace (ey + 1074) with ((ey - ex) + (ex + 1074)) by lia.
    rewrite (Z.pow_add_r 2 (ey - ex) (ex + 1074)) by lia.
    assert (Hpos : 0 < 2 ^ (ex + 1074)) by (apply Z.pow_pos_nonneg; lia).
    assert (Hstep : 2 <= 2 ^ (ey - ex)).
    { change 2 with (2 ^ 1) at 1. apply Z.pow_le_mono_r; lia. }
    symmetry. apply Z.ltb_lt. rewrite Z.mul_assoc.
    apply Z.mul_lt_mono_pos_r; trivial.
    generalize dependent (2 ^ (ey - ex)). intros P HP.
    change (2 ^ 53) with 9007199254740992 in *.
    change (2 ^ 52) with 4503599627370496 in *. nia.
  - specialize (Hxlow ltac:(lia)).
    replace (ex + 1074) with ((ex - ey) + (ey + 1074)) by lia.
    rewrite (Z.pow_add_r 2 (ex - ey) (ey + 1074)) by lia.
    assert (Hpos : 0 < 2 ^ (ey + 1074)) by (apply Z.pow_pos_nonneg; lia).
    assert (Hstep : 2 <= 2 ^ (ex - ey)).
    { change 2 with (2 ^ 1) at 1. apply Z.pow_le_mono_r; lia. }
    symmetry. apply Z.ltb_ge. rewrite Z.mul_assoc.
    apply Z.mul_le_mono_nonneg_r; [lia|].
    generalize dependent (2 ^ (ex - ey)). intros P HP.
    change (2 ^ 53) with 9007199254740992 in *.
    change (2 ^ 52) with 4503599627370496 in *. nia.
Qed.

End Ordering.

Lemma in_range_positive_finite (w : float) :
  in_range 0.1 2 w -> positive_finite w.
Proof.
  unfold in_range, positive_finite. rewrite !FloatAxioms.leb_spec.
  destruct (Prim2SF w) as [s|[|]| |[|] m e]; intros [Hlow Hhigh];
    try discriminate Hlow; try discriminate Hhigh.
  now exists m, e.
Qed.

Section SortByKeyOn.
Context {A : Type}.
Variable P : A -> Prop.
Variable key : A -> Z.
Variable after : A -> A -> bool.
Hypothesis after_key : forall x y, P x -> P y -> after x y = (key x <? key y)%Z.

Lemma insert_descending_on (x : A) (l : list A) :
  P x -> Forall P l ->
  StronglySorted (fun a b => (key b <= key a)%Z) l ->
  StronglySorted (fun a b => (key b <= key a)%Z) (JSArray.insert after x l).
Proof.
  intros Hx HP. induction 1 as [|y l Hsorted IH Hall]; cbn [JSArray.insert].
  - constructor; constructor.
  - apply Forall_cons_iff in HP. destruct HP as [Hy HP].
    rewrite (after_key x y Hx Hy). destruct (Z.ltb_spec (key x) (key y)) as [Hlt|Hge].
    + constructor; [now apply IH|].
      apply Forall_forall. intros z Hz.
      apply (Permutation_in _ (insert_Permutation after x l)) in Hz.
      destruct Hz as [<-|Hz]; [lia|].
      rewrite Forall_forall in Hall. now apply Hall.
    + constructor; [now constructor|].
      constructor; trivial.
      apply Forall_forall. intros z Hz. rewrite Forall_forall in Hall.
      specialize (Hall z Hz). lia.
Qed.

Lemma sort_descending_on (l : list A) :
  Forall P l ->
  StronglySorted (fun a b => (key b <= key a)%Z) (JSArray.sort after l).
Proof.
  induction l as [|x l IH]; intros HP; [constructor|].
  apply Forall_cons_iff in HP. destruct HP as [Hx HP].
  apply insert_descending_on; trivial; [|now apply IH].
  apply Forall_forall. intros z Hz.
  apply (Permutation_in _ (sort_Permutation after l)) in Hz.
  rewrite Forall_forall in HP. now apply HP.
Qed.

End SortByKeyOn.

Lemma StronglySorted_weaken {A : Type} (R1 R2 : A -> A -> Prop) (l : list A) :
  (forall x y, In x l -> In y l -> R1 x y -> R2 x y) ->
  StronglySorted R1 l -> StronglySorted R2 l.
Proof.
  intros Himp Hsorted. induction Hsorted as [|x l Hsorted IH Hall]; constructor.
  - apply IH. intros y z Hy Hz. apply Himp; now right.
  - apply Forall_forall. intros y Hy. rewrite Forall_forall in Hall.
    apply Himp; [now left|now right|now apply Hall].
Qed.

(** The stored nodes, as [getInsights] sorts them, from the heaviest on. *)
Lemma sorted_stored_nodes (g : KnowledgeGraph) :
  reachable g ->
  StronglySorted not_lighter (JSArray.sort lighter_after (JS.Map.values (nodes g))).
Proof.
  intros Hreach.
  set (sorted := JSArray.sort lighter_after (JS.Map.values (nodes g))).
  assert (Hfinite : Forall (fun n => positive_finite (KnowledgeNode.weight n))
                           (JS.Map.values (nodes g))).
  { apply Forall_forall. intros n Hn. apply in_map_iff in Hn.
    destruct Hn as ([k n'] & <- & Hn).
    exact (in_range_positive_finite _ (reachable_weights_in_range g Hreach k n' Hn)). }
  assert (Hkey : StronglySorted
                   (fun a b => (scaled (KnowledgeNode.weight b)
                                <= scaled (KnowledgeNode.weight a))%Z) sorted).
  { apply (sort_descending_on (fun n => positive_finite (KnowledgeNode.weight n)));
      trivial.
    intros x y Hx Hy. unfold lighter_after. now apply sub_positive_iff. }
  revert Hkey. apply StronglySorted_weaken. intros a b Ha Hb Hle.
  assert (Hpa : positive_finite (KnowledgeNode.weight a)).
  { rewrite Forall_forall in Hfinite. apply Hfinite.
    now apply (Permutation_in _ (sort_Permutation lighter_after _)). }
  assert (Hpb : positive_finite (KnowledgeNode.weight b)).
  { rewrite Forall_forall in Hfinite. apply Hfinite.
    now apply (Permutation_in _ (sort_Permutation lighter_after _)). }
  unfold not_lighter. apply not_ltb_leb.
  - apply is_nan_false_iff. destruct Hpa as (m & e & ->). discriminate.
  - apply is_nan_false_iff. destruct Hpb as (m & e & ->). discriminate.
  - rewrite (ltb_scaled _ _ Hpa Hpb). apply Z.ltb_ge. exact Hle.
Qed.

(** X27. In every graph built from the empty one by insertions and
    reinforcements, [getInsights] returns the top concepts by descending
    weight: the stored nodes can be listed with the top concepts first
    so that no node weighs more than a node listed before it.  On the
    weights of such a graph the comparator [b.weight - a.weight] is
    consistent, the difference of two different weights never being
    rounded to 0. *)
Theorem topConcepts_sorted_by_weight :
  forall g : KnowledgeGraph,
    reachable g ->
    exists others,
      Permutation (Insights.topConcepts (getInsights g) ++ others)
                  (JS.Map.values (nodes g))
      /\ StronglySorted not_lighter (Insights.topConcepts (getInsights g) ++ others).
Proof.
  intros g Hreach. unfold getInsights. cbn [Insights.topConcepts].
  exists (skipn 10 (JSArray.sort lighter_after (JS.Map.values (nodes g)))).
  rewrite firstn_skipn.
  split; [apply sort_Permutation|now apply sorted_stored_nodes].
Qed.

Lemma topConcepts_sorted_by_weight_witness :
  reachable graph_two_reinforced
  /\ exists others,
       Permutation (Insights.topConcepts (getInsights graph_two_reinforced) ++ others)
                   (JS.Map.values (nodes graph_two_reinforced))
       /\ StronglySorted not_lighter
                         (Insights.topConcepts (getInsights graph_two_reinforced) ++ others).
Proof.
  split; [exact reachable_graph_two_reinforced|].
  exact (topConcepts_sorted_by_weight graph_two_reinforced reachable_graph_two_reinforced).
Defined.

(** ** Self-improvement on fresh insights *)

Lemma sorted_prefix_first {A : Type} (R : A -> A -> Prop) (l : list A) (n : nat) :
  StronglySorted R l ->
  forall r o, In r (firstn n l) -> In o (skipn n l) -> R r o.
Proof.
  intros Hsorted. revert n.
  induction Hsorted as [|y l Hsorted IH Hall]; intros n r o Hr Ho.
  - destruct n; destruct Hr.
  - destruct n as [|n]; [destruct Hr|].
    cbn [firstn skipn] in Hr, Ho. destruct Hr as [<-|Hr].
    + rewrite Forall_forall in Hall. apply Hall.
      rewrite <- (firstn_skipn n l). apply in_app_iff. now right.
    + now apply (IH n).
Qed.

(** Positive feedback on nodes with distinct stored identifiers
    reinforces each of them once. *)
Lemma reinforce_each_distinct (hosts : nat -> Host) (topNodes : list KnowledgeNode.t) :
  forall (k : nat) (g : KnowledgeGraph),
    NoDup (JS.Map.keys (nodes g)) ->
    NoDup (map KnowledgeNode.id topNodes) ->
    (forall t, In t topNodes -> In (KnowledgeNode.id t, t) (nodes g)) ->
    forall t, In t topNodes ->
              In (KnowledgeNode.id t, reinforce_node fb_positive t)
                 (nodes (reinforce_each hosts k topNodes g)).
Proof.
  induction topNodes as [|node rest IH]; intros k g Hkeys Hnd Hstored t Hin;
    [destruct Hin|].
  cbn [reinforce_each]. cbn [map] in Hnd. apply NoDup_cons_iff in Hnd.
  destruct Hnd as [Hout Hnd].
  set (g1 := reinforceKnowledge (hosts k) (KnowledgeNode.id node) fb_positive g).
  assert (Hg1 : nodes g1
                = JS.Map.modify (KnowledgeNode.id node) (reinforce_node fb_positive)
                                (nodes g)).
  { unfold g1, reinforceKnowledge.
    rewrite (Map_In_get _ _ _ Hkeys (Hstored node (or_introl eq_refl))).
    now rewrite saveToStorage_nodes. }
  assert (Hkeys1 : NoDup (JS.Map.keys (nodes g1))) by now rewrite Hg1, Map_keys_modify.
  assert (Hother : forall a n, In (a, n) (nodes g) -> a <> KnowledgeNode.id node ->
                               In (a, n) (nodes g1)).
  { intros a n Han Hne. rewrite Hg1. unfold JS.Map.modify.
    apply in_map_iff. exists (a, n). split; trivial. cbn [fst].
    now destruct (String.eqb_spec a (KnowledgeNode.id node)). }
  destruct Hin as [<-|Hin].
  - apply (proj2 (proj2 (proj2 (reinforce_each_frame hosts rest (S k) g1)))); trivial.
    rewrite Hg1. unfold JS.Map.modify. apply in_map_iff.
    exists (KnowledgeNode.id node, node). cbn [fst snd].
    rewrite String.eqb_refl. split; [reflexivity|].
    apply Hstored. now left.
  - apply IH; trivial.
    intros t' Ht'. apply Hother; [apply Hstored; now right|].
    intros Heq. apply Hout. rewrite <- Heq. now apply in_map.
Qed.

(** X28. When the top concepts shown are those of the graph itself,
    [handleSelfImprove] reinforces the three heaviest nodes (all of them
    when there are fewer), each exactly once: each of them is stored and
    is replaced by its positively reinforced version; every other node
    is unchanged and weighs no more than any of them did. *)
Theorem handleSelfImprove_reinforces_the_heaviest :
  forall (hosts : nat -> Host) (g : KnowledgeGraph),
    reachable g ->
    let targets := firstn 3 (Insights.topConcepts (getInsights g)) in
    let g' := handleSelfImprove hosts (getInsights g) g in
    List.length targets = Nat.min 3 (List.length (nodes g))
    /\ (forall t, In t targets ->
                  In (KnowledgeNode.id t, t) (nodes g)
                  /\ In (KnowledgeNode.id t, reinforce_node fb_positive t) (nodes g'))
    /\ (forall k n, In (k, n) (nodes g) -> ~ In n targets ->
                    In (k, n) (nodes g')
                    /\ forall t, In t targets -> not_lighter t n).
Proof.
  intros hosts g Hreach targets g'.
  set (sorted := JSArray.sort lighter_after (JS.Map.values (nodes g))).
  assert (Htargets : targets = firstn 3 sorted).
  { unfold targets, getInsights. cbn [Insights.topConcepts]. now rewrite firstn_firstn. }
  assert (Hperm : Permutation sorted (JS.Map.values (nodes g)))
    by apply sort_Permutation.
  destruct (reachable_closed_symmetric g Hreach) as [(Hkeys & _) _].
  destruct (reachable_identifiers g Hreach) as (Hid & _).
  assert (Hids : map KnowledgeNode.id (JS.Map.values (nodes g)) = JS.Map.keys (nodes g)).
  { unfold JS.Map.values, JS.Map.keys. rewrite map_map. apply map_ext_in.
    intros [k n] Hin. exact (Hid k n Hin). }
  assert (Hstored : forall t, In t targets -> In (KnowledgeNode.id t, t) (nodes g)).
  { intros t Ht. rewrite Htargets in Ht.
    assert (Hin : In t sorted).
    { rewrite <- (firstn_skipn 3 sorted). apply in_app_iff. now left. }
    apply (Permutation_in _ Hperm) in Hin. apply in_map_iff in Hin.
    destruct Hin as ([k n] & <- & Hin). cbn [snd]. now rewrite (Hid k n Hin). }
  assert (Hdistinct : NoDup (map KnowledgeNode.id targets)).
  { assert (Hall : NoDup (map KnowledgeNode.id sorted)).
    { apply (Permutation_NoDup (Permutation_sym (Permutation_map _ Hperm))).
      now rewrite Hids. }
    rewrite <- (firstn_skipn 3 sorted), map_app in Hall.
    apply NoDup_app_remove_r in Hall. now rewrite Htargets. }
  split; [|split].
  - rewrite Htargets, length_firstn, (Permutation_length Hperm).
    unfold JS.Map.values. now rewrite length_map.
  - intros t Ht. split; [now apply Hstored|].
    now apply reinforce_each_distinct.
  - intros k n Hin Hout. split.
    + apply (proj2 (proj2 (proj2 (reinforce_each_frame hosts targets 0 g)))); trivial.
      intros Hk. apply in_map_iff in Hk. destruct Hk as (t & Heq & Ht).
      apply Hout. specialize (Hstored t Ht). rewrite Heq in Hstored.
      now rewrite (Map_In_unique (nodes g) k n t Hkeys Hin Hstored).
    + intros t Ht. rewrite Htargets in Ht, Hout.
      apply (sorted_prefix_first not_lighter sorted 3); trivial;
        [now apply sorted_stored_nodes|].
      assert (Hn : In n sorted).
      { apply (Permutation_in _ (Permutation_sym Hperm)).
        apply in_map_iff. now exists (k, n). }
      rewrite <- (firstn_skipn 3 sorted) in Hn. apply in_app_iff in Hn.
      now destruct Hn.
Qed.

Lemma handleSelfImprove_reinforces_the_heaviest_witness :
  reachable graph_two_reinforced
  /\ map (fun kv => KnowledgeNode.weight (snd kv))
         (nodes (handleSelfImprove (fun _ => host_c) (getInsights graph_two_reinforced)
                   graph_two_reinforced))
     = [1.1000000000000001; 1]%float
  /\ List.length (firstn 3 (Insights.topConcepts (getInsights graph_two_reinforced))) = 2.
Proof.
  split; [exact reachable_graph_two_reinforced|]. split; [reflexivity|].
  rewrite (proj1 (handleSelfImprove_reinforces_the_heaviest (fun _ => host_c)
                    graph_two_reinforced reachable_graph_two_reinforced)).
  reflexivity.
Defined.

(** ** Degrees and edges *)

Lemma list_sum_cons (x : nat) (l : list nat) : list_sum (x :: l) = x + list_sum l.
Proof. reflexivity. Qed.

Lemma double_count {A B : Type} (f : A -> B -> bool) (l : list A) (m : list B) :
  list_sum (map (fun x => List.length (filter (f x) m)) l)
  = list_sum (map (fun y => List.length (filter (fun x => f x y) l)) m).
Proof.
  induction l as [|x l IH].
  - cbn [map filter List.length]. induction m as [|y m IHm]; trivial.
  - cbn [map]. rewrite list_sum_cons, IH. clear IH.
    induction m as [|y m IHm]; trivial.
    cbn [map]. rewrite !list_sum_cons, <- IHm. cbn [filter].
    destruct (f x y); cbn [List.length]; lia.
Qed.

Lemma filter_either {A : Type} (a b : A -> bool) (l : list A) :
  (forall x, In x l -> a x = true -> b x = false) ->
  List.length (filter (fun x => a x || b x) l)
  = List.length (filter a l) + List.length (filter b l).
Proof.
  induction l as [|x l IH]; intros Hdisjoint; trivial.
  cbn [filter]. specialize (Hdisjoint x (or_introl eq_refl)) as Hx.
  specialize (IH (fun y Hy => Hdisjoint y (or_intror Hy))).
  destruct (a x); [rewrite (Hx eq_refl)|destruct (b x)]; cbn [orb List.length]; lia.
Qed.

Lemma one_key (a : string) (l : list string) :
  NoDup l -> In a l -> List.length (filter (String.eqb a) l) = 1.
Proof.
  induction l as [|x l IH]; intros Hnd Hin; [destruct Hin|].
  destruct Hin as [Heq|Hin].
  - subst x. cbn [filter]. rewrite String.eqb_refl. cbn [List.length]. f_equal.
    apply NoDup_cons_iff in Hnd. destruct Hnd as [Hout _].
    rewrite filter_none; trivial. intros y Hy.
    destruct (String.eqb_spec a y) as [->|]; [contradiction|reflexivity].
  - apply NoDup_cons_iff in Hnd. destruct Hnd as [Hout Hnd]. cbn [filter].
    destruct (String.eqb_spec a x) as [->|]; [contradiction|now apply IH].
Qed.

(** X29. In every graph built from the empty one by insertions and
    reinforcements, the lengths of the [connections] arrays of the stored
    nodes add up to twice the number of stored edges: every edge is
    recorded once at each of its two endpoints and nowhere else. *)
Theorem reachable_connections_sum_to_twice_the_edges :
  forall g : KnowledgeGraph,
    reachable g ->
    list_sum (map (fun node => List.length (KnowledgeNode.connections node))
                  (JS.Map.values (nodes g)))
    = 2 * List.length (edges g).
Proof.
  intros g Hreach.
  destruct (reachable_closed_symmetric g Hreach) as [(Hnd & _ & Hends) _].
  destruct (reachable_identifiers g Hreach) as (_ & Hdistinct & _).
  assert (Hdeg : map (fun node => List.length (KnowledgeNode.connections node))
                     (JS.Map.values (nodes g))
                 = map (fun k => List.length (filter (incident k) (edges g)))
                       (JS.Map.keys (nodes g))).
  { unfold JS.Map.values, JS.Map.keys. rewrite !map_map. apply map_ext_in.
    intros [k n] Hin. exact (reachable_degree g Hreach k n Hin). }
  rewrite Hdeg, (double_count incident).
  assert (Htwo : forall kv, In kv (edges g) ->
                            List.length (filter (fun k => incident k kv)
                                                (JS.Map.keys (nodes g))) = 2).
  { intros [eid e] Hin. destruct (Hends eid e Hin) as [Hs Ht].
    unfold incident. cbn [snd].
    rewrite (filter_either (fun k => String.eqb (KnowledgeEdge.source e) k)
                           (fun k => String.eqb (KnowledgeEdge.target e) k)).
    - now rewrite !one_key.
    - intros k _ Hk. apply String.eqb_eq in Hk. subst k.
      apply String.eqb_neq. intros Heq. now apply (proj2 (Hdistinct eid e Hin)). }
  clear Hdeg Hends Hdistinct. induction (edges g) as [|kv es IH]; trivial.
  cbn [map List.length]. rewrite list_sum_cons, (Htwo kv (or_introl eq_refl)).
  rewrite IH by (intros kv' Hin; apply Htwo; now right). lia.
Qed.

Lemma reachable_connections_sum_to_twice_the_edges_witness :
  reachable graph_two_reinforced
  /\ list_sum (map (fun node => List.length (KnowledgeNode.connections node))
                   (JS.Map.values (nodes graph_two_reinforced)))
     = 2
  /\ List.length (edges graph_two_reinforced) = 1.
Proof.
  split; [exact reachable_graph_two_reinforced|]. split; [|reflexivity].
  rewrite (reachable_connections_sum_to_twice_the_edges graph_two_reinforced
             reachable_graph_two_reinforced).
  reflexivity.
Defined.
